(** * Clashes Detector: time parsing, clash detection, session
      normalisation and the section search

    A shallow embedding of [lib/time-parser.ts] and [lib/clash-detector.ts],
    of the list of sessions built by [lib/timetable-extractor.ts] and of the
    section lists of [app/api/optimal-schedule/route.ts].

    Conventions of the embedding:
    - a JavaScript string is a [string]; its characters stand for code units,
      and the case conversions act on the ASCII letters (the only ones the
      program's patterns and literals mention);
    - a JavaScript number that the program computes from parsed digits, a
      length or a difference of minute values is an integer ([Z]); the value
      [Infinity] used by the search is kept apart in the type [number];
    - an object used as a dictionary is an ordered association list that
      reproduces the property order of [Object.keys] (see [JsObject]); keys
      are own properties, property names inherited from [Object.prototype]
      are not used as course, section or day names;
    - a [Set<string>] is a [gset string]. *)

From Stdlib Require Import ZArith Lia Bool Ascii String List Sorted Permutation.
From Stdlib Require Import DecimalString.
From stdpp Require Import base gmap strings.
Import ListNotations.

Local Open Scope string_scope.
Local Open Scope list_scope.
Local Open Scope Z_scope.

(* ===================================================================== *)
(** ** Characters and strings as the regular expressions see them *)
(* ===================================================================== *)

Module JsString.

Definition code (c : ascii) : Z := Z.of_N (N_of_ascii c).

(** [\d] *)
Definition isDigit (c : ascii) : bool := (48 <=? code c) && (code c <=? 57).

Definition digitValue (c : ascii) : Z := code c - 48.

Definition isUpper (c : ascii) : bool := (65 <=? code c) && (code c <=? 90).
Definition isLower (c : ascii) : bool := (97 <=? code c) && (code c <=? 122).

(** [\w], the class behind [\b] *)
Definition isWordChar (c : ascii) : bool :=
  isDigit c || isUpper c || isLower c || (code c =? 95).

Definition upperChar (c : ascii) : ascii :=
  if isLower c then ascii_of_N (Z.to_N (code c - 32)) else c.
Definition lowerChar (c : ascii) : ascii :=
  if isUpper c then ascii_of_N (Z.to_N (code c + 32)) else c.

Fixpoint mapChars (f : ascii -> ascii) (s : string) : string :=
  match s with
  | EmptyString => EmptyString
  | String c s' => String (f c) (mapChars f s')
  end.

Definition toUpperCase : string -> string := mapChars upperChar.
Definition toLowerCase : string -> string := mapChars lowerChar.

(** [s.startsWith(p)] *)
Fixpoint startsWith (p s : string) : bool :=
  match p, s with
  | EmptyString, _ => true
  | String a p', String b s' => Ascii.eqb a b && startsWith p' s'
  | String _ _, EmptyString => false
  end.

(** [s.includes(p)] *)
Fixpoint includes (p s : string) : bool :=
  startsWith p s ||
  match s with
  | EmptyString => false
  | String _ s' => includes p s'
  end.

(** [parseInt] on a captured group of digits: the decimal value of the
    leading digits. *)
Fixpoint parseDigits (acc : Z) (s : string) : Z :=
  match s with
  | EmptyString => acc
  | String c s' => if isDigit c then parseDigits (acc * 10 + digitValue c) s' else acc
  end.

Definition parseInt (s : string) : Z := parseDigits 0 s.

(** Template-literal rendering of an integer. *)
Definition ofZ (z : Z) : string := NilZero.string_of_int (Z.to_int z).

End JsString.

Import JsString.

(* ===================================================================== *)
(** ** lib/time-parser.ts *)
(* ===================================================================== *)

Record TimeRange : Type := mkRange { start : Z; end_ : Z }.

Definition UNKNOWN : TimeRange := mkRange 9999 9999.

(** One attempt of [/(\d{1,2}):(\d{2})/] at the head of [s]: the two captured
    groups and the length of the match.  The greedy two-digit hour is tried
    first, then the one-digit hour. *)
Definition matchTimeAt (s : string) : option (string * string * nat) :=
  match s with
  | String h1 (String h2 (String c (String m1 (String m2 _)))) =>
      if isDigit h1 && isDigit h2 && Ascii.eqb c ":" && isDigit m1 && isDigit m2
      then Some (String h1 (String h2 EmptyString),
                 String m1 (String m2 EmptyString), 5%nat)
      else if isDigit h1 && Ascii.eqb h2 ":" && isDigit c && isDigit m1
      then Some (String h1 EmptyString, String c (String m1 EmptyString), 4%nat)
      else None
  | String h1 (String c (String m1 (String m2 EmptyString))) =>
      if isDigit h1 && Ascii.eqb c ":" && isDigit m1 && isDigit m2
      then Some (String h1 EmptyString, String m1 (String m2 EmptyString), 4%nat)
      else None
  | _ => None
  end.

(** [Array.from(timeSlot.matchAll(timeRegex))]: the scan restarts at the end
    of each match ([skip] counts the characters of the current match still to
    pass) and moves one character on after a failure. *)
Fixpoint scanTimes (skip : nat) (s : string) : list (string * string) :=
  match s with
  | EmptyString => []
  | String _ s' =>
      match skip with
      | S k => scanTimes k s'
      | O =>
          match matchTimeAt s with
          | Some (h, m, len) => (h, m) :: scanTimes (Nat.pred len) s'
          | None => scanTimes 0 s'
          end
      end
  end.

Definition matchAllTimes (timeSlot : string) : list (string * string) :=
  scanTimes 0 timeSlot.

(** One attempt of [/\b(am|pm|AM|PM)\b/gi] at the head of [s]; [prevWord]
    tells whether the character before [s] is a word character. *)
Definition matchAmPmAt (prevWord : bool) (s : string) : option string :=
  match s with
  | String c1 (String c2 rest) =>
      let first := upperChar c1 in
      if negb prevWord
         && (Ascii.eqb first "A" || Ascii.eqb first "P")
         && Ascii.eqb (upperChar c2) "M"
         && match rest with
            | EmptyString => true
            | String c3 _ => negb (isWordChar c3)
            end
      then Some (String c1 (String c2 EmptyString))
      else None
  | _ => None
  end.

Fixpoint scanAmPm (prevWord : bool) (skip : nat) (s : string) : list string :=
  match s with
  | EmptyString => []
  | String c s' =>
      match skip with
      | S k => scanAmPm (isWordChar c) k s'
      | O =>
          match matchAmPmAt prevWord s with
          | Some txt => txt :: scanAmPm (isWordChar c) 1 s'
          | None => scanAmPm (isWordChar c) 0 s'
          end
      end
  end.

Definition matchAllAmPm (timeSlot : string) : list string :=
  scanAmPm false 0 timeSlot.

(** The inner [parseTime] of [parseTimeSlot]. *)
Definition parseTime (m : string * string) (timeSlot : string) (matchIndex : nat) : Z :=
  let hour := parseInt (fst m) in
  let minute := parseInt (snd m) in
  let ampmMatches := matchAllAmPm timeSlot in
  let hour24 :=
    if (0 <? length ampmMatches)%nat then
      let ampm :=
        toUpperCase
          (nth (Nat.min matchIndex (length ampmMatches - 1)) ampmMatches EmptyString) in
      if String.eqb ampm "PM" && negb (hour =? 12) then hour + 12
      else if String.eqb ampm "AM" && (hour =? 12) then 0
      else hour
    else
      if (8 <=? hour) && (hour <=? 11) then hour
      else if hour =? 12 then 12
      else if (1 <=? hour) && (hour <=? 7) then hour + 12
      else hour in
  hour24 * 60 + minute.

Definition parseTimeSlot (timeSlot : string) : TimeRange :=
  if String.eqb timeSlot EmptyString || String.eqb timeSlot "Unknown" then UNKNOWN
  else
    match matchAllTimes timeSlot with
    | [] => UNKNOWN
    | m0 :: more =>
        let startMinutes := parseTime m0 timeSlot 0 in
        let endMinutes :=
          match more with
          | m1 :: _ => parseTime m1 timeSlot 1
          | [] => startMinutes + 50
          end in
        mkRange startMinutes endMinutes
    end.

Definition doTimeSlotsOverlap (slot1 slot2 : string) : bool :=
  let time1 := parseTimeSlot slot1 in
  let time2 := parseTimeSlot slot2 in
  if (start time1 =? 9999) || (start time2 =? 9999) then false
  else negb ((end_ time1 <=? start time2) || (end_ time2 <=? start time1)).

(* ===================================================================== *)
(** ** lib/types.ts *)
(* ===================================================================== *)

Inductive SessionType : Type := Class | Lab.

Definition sessionTypeText (t : SessionType) : string :=
  match t with Class => "Class" | Lab => "Lab" end.

Definition isLabType (t : SessionType) : bool :=
  match t with Lab => true | Class => false end.
Definition isClassType (t : SessionType) : bool :=
  match t with Class => true | Lab => false end.

Record TimetableSession : Type := mkSession {
  id : string;
  day : string;
  timeSlot : string;
  room : string;
  sessionType : SessionType;
  courseName : string;
  section : string;
  batch : string;
  department : string;
  rank : Z;
  colorCode : string;
  startMinutes : Z;
  endMinutes : Z
}.

Module Clash.
Record t : Type := mk {
  course1 : string;
  course2 : string;
  day : string;
  timeSlot1 : string;
  timeSlot2 : string;
  section1 : string;
  section2 : string
}.
End Clash.

(** A JavaScript number that may be [Infinity]. *)
Inductive number : Type := Num (z : Z) | Infinity.

Definition num_ltb (a b : number) : bool :=
  match a, b with
  | Num x, Num y => x <? y
  | Num _, Infinity => true
  | Infinity, _ => false
  end.

Definition num_is (a : number) (z : Z) : bool :=
  match a with Num x => x =? z | Infinity => false end.

Definition numberText (a : number) : string :=
  match a with Num x => ofZ x | Infinity => "Infinity" end.

(* ===================================================================== *)
(** ** Objects used as dictionaries *)
(* ===================================================================== *)

(** The entries of an object are kept in the order in which [Object.keys],
    [Object.values], [Object.entries] and the spread operator enumerate them:
    first the keys that are array indices, in ascending numeric order, then
    the other keys in the order of their creation. *)
Module JsObject.

Definition t (V : Type) : Type := list (string * V).

(** An array index: a canonical numeric string (the rendering of its own
    numeric value) whose value is below 2^32 - 1. *)
Definition arrayIndex (k : string) : option Z :=
  let n := parseInt k in
  if String.eqb (ofZ n) k && (n <? 4294967295) then Some n else None.

Section WithValues.
Context {V : Type}.

Definition empty : t V := [].

Fixpoint get (k : string) (o : t V) : option V :=
  match o with
  | [] => None
  | (k', v) :: o' => if String.eqb k k' then Some v else get k o'
  end.

Fixpoint replace (k : string) (v : V) (o : t V) : t V :=
  match o with
  | [] => []
  | (k', v') :: o' =>
      if String.eqb k k' then (k, v) :: o' else (k', v') :: replace k v o'
  end.

Fixpoint insertIndex (n : Z) (k : string) (v : V) (o : t V) : t V :=
  match o with
  | [] => [(k, v)]
  | (k', v') :: o' =>
      match arrayIndex k' with
      | Some n' => if n' <? n then (k', v') :: insertIndex n k v o' else (k, v) :: o
      | None => (k, v) :: o
      end
  end.

(** [o[k] = v] *)
Definition set (k : string) (v : V) (o : t V) : t V :=
  match get k o with
  | Some _ => replace k v o
  | None =>
      match arrayIndex k with
      | Some n => insertIndex n k v o
      | None => o ++ [(k, v)]
      end
  end.

Definition keys (o : t V) : list string := map fst o.
Definition values (o : t V) : list V := map snd o.
Definition entries (o : t V) : list (string * V) := o.

End WithValues.

(** A mutation of the value stored under [k]: the value is shared with the
    object, so the object sees the change. *)
Definition update {V : Type} (k : string) (f : V -> V) (o : t V) : t V :=
  match get k o with
  | Some v => set k (f v) o
  | None => o
  end.

(** [o[k].push(x)] on an object of arrays. *)
Definition push {A : Type} (k : string) (x : A) (o : t (list A)) : t (list A) :=
  update k (fun l => l ++ [x]) o.

(** [if (!o[k]) o[k] = init] where the values are objects or arrays. *)
Definition ensure {V : Type} (k : string) (init : V) (o : t V) : t V :=
  match get k o with
  | Some _ => o
  | None => set k init o
  end.

End JsObject.

(* ===================================================================== *)
(** ** lib/clash-detector.ts: clash detection *)
(* ===================================================================== *)

Definition EXPECTED_LABS_PER_WEEK : nat := 1.
Definition EXPECTED_CLASSES_PER_WEEK : nat := 2.

Definition doSessionsOverlap (session1 session2 : TimetableSession) : bool :=
  if negb (startMinutes session1 =? 9999) && negb (startMinutes session2 =? 9999)
  then negb ((endMinutes session1 <=? startMinutes session2)
             || (endMinutes session2 <=? startMinutes session1))
  else doTimeSlotsOverlap (timeSlot session1) (timeSlot session2).

(** [Array.prototype.sort] without comparator on strings: ascending order of
    code units. *)
Fixpoint insertString (x : string) (l : list string) : list string :=
  match l with
  | [] => [x]
  | y :: l' => if String.leb x y then x :: l else y :: insertString x l'
  end.

Definition sortStrings (l : list string) : list string :=
  fold_right insertString [] l.

(** [l.join(sep)] *)
Definition join (sep : string) (l : list string) : string := String.concat sep l.

Definition clashKeyOf (c1 c2 d : string) : string :=
  join "_" (sortStrings [c1; c2; d]).

Definition clashOf (session1 session2 : TimetableSession) : Clash.t :=
  Clash.mk (courseName session1) (courseName session2) (day session1)
           (timeSlot session1) (timeSlot session2)
           (section session1) (section session2).

(** Whether the inner loop body reaches the [seenClashes] test for the pair. *)
Definition pairClashes (session1 session2 : TimetableSession) : bool :=
  negb (String.eqb (courseName session1) (courseName session2))
  && String.eqb (day session1) (day session2)
  && doSessionsOverlap session1 session2.

(** The body of the inner loop, on the state [(clashes, seenClashes)]. *)
Definition clashStep (session1 : TimetableSession)
    (st : list Clash.t * gset string) (session2 : TimetableSession)
  : list Clash.t * gset string :=
  if String.eqb (courseName session1) (courseName session2) then st
  else if String.eqb (day session1) (day session2) then
    if doSessionsOverlap session1 session2 then
      let clashKey := clashKeyOf (courseName session1) (courseName session2) (day session1) in
      if decide (clashKey ∈ st.2) then st
      else (st.1 ++ [clashOf session1 session2], {[clashKey]} ∪ st.2)
    else st
  else st.

(** The two nested loops: [session1] ranges over the list and [session2] over
    the sessions after it. *)
Fixpoint clashLoop (sessions : list TimetableSession)
    (st : list Clash.t * gset string) : list Clash.t * gset string :=
  match sessions with
  | [] => st
  | session1 :: later => clashLoop later (fold_left (clashStep session1) later st)
  end.

Definition detectClashes (sessions : list TimetableSession) : list Clash.t :=
  (clashLoop sessions ([], ∅)).1.

(* ===================================================================== *)
(** ** lib/clash-detector.ts: gap score *)
(* ===================================================================== *)

Definition groupByDay (sessions : list TimetableSession)
  : JsObject.t (list TimetableSession) :=
  fold_left
    (fun daySessionsMap session =>
       JsObject.push (day session) session
         (JsObject.ensure (day session) [] daySessionsMap))
    sessions JsObject.empty.

(** [sort((a, b) => a.startMinutes - b.startMinutes)]; the sort is stable. *)
Fixpoint insertByStart (x : TimetableSession) (l : list TimetableSession)
  : list TimetableSession :=
  match l with
  | [] => [x]
  | y :: l' =>
      if startMinutes x <=? startMinutes y then x :: l else y :: insertByStart x l'
  end.

Definition sortByStart (l : list TimetableSession) : list TimetableSession :=
  fold_right insertByStart [] l.

(** The loop over consecutive sessions of one day. *)
Fixpoint dayGaps (sorted : list TimetableSession) (totalGap : Z) : Z :=
  match sorted with
  | current :: later =>
      match later with
      | next :: _ =>
          dayGaps later
            (if endMinutes current <? startMinutes next
             then totalGap + (startMinutes next - endMinutes current)
             else totalGap)
      | [] => totalGap
      end
  | [] => totalGap
  end.

Definition calculateTotalGapScore (sessions : list TimetableSession) : Z :=
  fold_left
    (fun totalGap daySessions =>
       let sorted :=
         sortByStart
           (List.filter (fun s => negb (startMinutes s =? 9999)) daySessions) in
       dayGaps sorted totalGap)
    (JsObject.values (groupByDay sessions)) 0.

(* ===================================================================== *)
(** ** lib/clash-detector.ts: session normalisation *)
(* ===================================================================== *)

Definition dayKey (session : TimetableSession) : string :=
  (day session ++ "_" ++ sessionTypeText (sessionType session))%string.

Fixpoint removeDuplicateDaysFrom (seenDays : gset string)
    (sessions : list TimetableSession) : list TimetableSession :=
  match sessions with
  | [] => []
  | session :: later =>
      if decide (dayKey session ∈ seenDays)
      then removeDuplicateDaysFrom seenDays later
      else session :: removeDuplicateDaysFrom ({[dayKey session]} ∪ seenDays) later
  end.

Definition removeDuplicateDays (sessions : list TimetableSession)
  : list TimetableSession :=
  removeDuplicateDaysFrom ∅ sessions.

Definition groupByCourse (sessions : list TimetableSession)
  : JsObject.t (list TimetableSession) :=
  fold_left
    (fun courseSessionsMap session =>
       JsObject.push (courseName session) session
         (JsObject.ensure (courseName session) [] courseSessionsMap))
    sessions JsObject.empty.

(** The body of the loop over the entries of the course map: the sessions it
    pushes to [filteredSessions]. *)
Definition keptSessions (name : string) (courseSessions : list TimetableSession)
  : list TimetableSession :=
  let isLabCourse := includes "lab" (toLowerCase name) in
  let labSessions := List.filter (fun s => isLabType (sessionType s)) courseSessions in
  let classSessions := List.filter (fun s => isClassType (sessionType s)) courseSessions in
  let uniqueLabSessions := removeDuplicateDays labSessions in
  let uniqueClassSessions := removeDuplicateDays classSessions in
  if isLabCourse then firstn EXPECTED_LABS_PER_WEEK uniqueLabSessions
  else firstn EXPECTED_CLASSES_PER_WEEK uniqueClassSessions
       ++ firstn EXPECTED_LABS_PER_WEEK uniqueLabSessions.

Definition filterValidSessions (sessions : list TimetableSession)
  : list TimetableSession :=
  fold_left
    (fun filteredSessions entry => filteredSessions ++ keptSessions entry.1 entry.2)
    (JsObject.entries (groupByCourse sessions)) [].

(* ===================================================================== *)
(** ** lib/clash-detector.ts: the search *)
(* ===================================================================== *)

Module CourseOption.
Record t : Type := mk { courseName : string; sections : list string }.
End CourseOption.

Module CombinationResult.
Record t : Type := mk {
  assignments : JsObject.t string;
  schedule : list TimetableSession;
  clashCount : number;
  gapScore : number
}.
End CombinationResult.

Record OptimalScheduleResult : Type := mkResult {
  success : bool;
  schedule : list TimetableSession;
  assignments : JsObject.t string;
  clashes : list Clash.t;
  message : string
}.

Definition SectionMap : Type := JsObject.t (JsObject.t (list TimetableSession)).

Definition isBetterSchedule (candidate current : CombinationResult.t) : bool :=
  if num_ltb (CombinationResult.clashCount candidate) (CombinationResult.clashCount current)
  then true
  else if num_ltb (CombinationResult.clashCount current) (CombinationResult.clashCount candidate)
  then false
  else num_ltb (CombinationResult.gapScore candidate) (CombinationResult.gapScore current).

(** [courseSessionsMap[courseName]?.[section] || []] *)
Definition sectionSessionsOf (courseSessionsMap : SectionMap) (name sec : string)
  : list TimetableSession :=
  match JsObject.get name courseSessionsMap with
  | Some courseSections =>
      match JsObject.get sec courseSections with
      | Some l => l
      | None => []
      end
  | None => []
  end.

Definition noResult : CombinationResult.t :=
  CombinationResult.mk JsObject.empty [] Infinity Infinity.

(** The result of a complete assignment (the base case of the recursion). *)
Definition leafResult (currentAssignments : JsObject.t string)
    (currentSchedule : list TimetableSession) : CombinationResult.t :=
  let validSchedule := filterValidSessions currentSchedule in
  let clashes := detectClashes validSchedule in
  let gapScore := calculateTotalGapScore validSchedule in
  CombinationResult.mk currentAssignments validSchedule
    (Num (Z.of_nat (length clashes))) (Num gapScore).

(** [findBestCombination(courseOptions, courseSessionsMap, index, ...)]; the
    first argument is the part of [courseOptions] from [index] on, so that
    [index === courseOptions.length] reads as "no option is left". *)
Fixpoint findBestCombination (courseOptions : list CourseOption.t)
    (courseSessionsMap : SectionMap) (index : nat)
    (currentAssignments : JsObject.t string)
    (currentSchedule : list TimetableSession)
    (bestSoFar : option CombinationResult.t) : CombinationResult.t :=
  match courseOptions with
  | [] => leafResult currentAssignments currentSchedule
  | option :: later =>
      let name := CourseOption.courseName option in
      fold_left
        (fun bestResult sec =>
           let sectionSessions := sectionSessionsOf courseSessionsMap name sec in
           let newAssignments := JsObject.set name sec currentAssignments in
           let newSchedule := currentSchedule ++ sectionSessions in
           if num_is (CombinationResult.clashCount bestResult) 0
              && (1 <=? index)%nat
              && (0 <? length (detectClashes (filterValidSessions newSchedule)))%nat
           then bestResult
           else
             let result :=
               findBestCombination later courseSessionsMap (S index)
                 newAssignments newSchedule (Some bestResult) in
             if isBetterSchedule result bestResult then result else bestResult)
        (CourseOption.sections option)
        (match bestSoFar with Some b => b | None => noResult end)
  end.

Definition dquote : string := String (ascii_of_nat 34) EmptyString.

(** The grouping of the selected courses' sessions by course and section. *)
Definition groupBySection (allSessions : list TimetableSession)
    (selectedCourseNames : list string) : SectionMap :=
  fold_left
    (fun courseSessionsMap session =>
       if negb (existsb (String.eqb (courseName session)) selectedCourseNames)
       then courseSessionsMap
       else
         JsObject.update (courseName session)
           (fun courseSections =>
              JsObject.push (section session) session
                (JsObject.ensure (section session) [] courseSections))
           (JsObject.ensure (courseName session) JsObject.empty courseSessionsMap))
    allSessions JsObject.empty.

Definition availableSectionsOf (courseSessionsMap : SectionMap)
    (excludedAssignments : JsObject.t (list string)) (name : string) : list string :=
  let courseSections :=
    match JsObject.get name courseSessionsMap with
    | Some o => o
    | None => JsObject.empty
    end in
  let allSections := JsObject.keys courseSections in
  let excludedSections :=
    match JsObject.get name excludedAssignments with
    | Some l => l
    | None => []
    end in
  List.filter (fun s => negb (existsb (String.eqb s) excludedSections)) allSections.

Definition noSectionsResult (name : string) : OptimalScheduleResult :=
  mkResult false [] JsObject.empty []
    ("No available sections for " ++ dquote ++ name ++ dquote
     ++ " after exclusions. Please remove some exclusions.")%string.

(** The loop that fills [courseOptions]; [inl] is its early return. *)
Fixpoint collectCourseOptions (names : list string) (courseSessionsMap : SectionMap)
    (excludedAssignments : JsObject.t (list string))
    (courseOptions : list CourseOption.t)
  : OptimalScheduleResult + list CourseOption.t :=
  match names with
  | [] => inr courseOptions
  | name :: later =>
      let availableSections :=
        availableSectionsOf courseSessionsMap excludedAssignments name in
      if (length availableSections =? 0)%nat then inl (noSectionsResult name)
      else
        collectCourseOptions later courseSessionsMap excludedAssignments
          (courseOptions ++ [CourseOption.mk name availableSections])
  end.

Definition gapDisplayOf (gapScore : number) : string :=
  match gapScore with
  | Num g =>
      let gapHours := g / 60 in
      let gapMins := Z.rem g 60 in
      if 0 <? gapHours
      then (ofZ gapHours ++ "h " ++ ofZ gapMins ++ "m")%string
      else (ofZ gapMins ++ "m")%string
  | Infinity => "Infinityh NaNm"
  end.

(** The result built from the best combination found. *)
Definition reportBest (bestResult : CombinationResult.t) : OptimalScheduleResult :=
  let gapDisplay := gapDisplayOf (CombinationResult.gapScore bestResult) in
  if num_is (CombinationResult.clashCount bestResult) 0 then
    let gapMessage :=
      if num_ltb (Num 0) (CombinationResult.gapScore bestResult)
      then (" Total gaps between classes: " ++ gapDisplay ++ ".")%string
      else " No gaps between classes!" in
    mkResult true (CombinationResult.schedule bestResult)
      (CombinationResult.assignments bestResult) []
      ("Found a clash-free schedule!" ++ gapMessage)%string
  else
    mkResult false (CombinationResult.schedule bestResult)
      (CombinationResult.assignments bestResult)
      (detectClashes (CombinationResult.schedule bestResult))
      ("Could not find a clash-free schedule. Minimum clashes: "
       ++ numberText (CombinationResult.clashCount bestResult)
       ++ ". You may need to drop some courses or accept the clashes.")%string.

Definition findOptimalSchedule (allSessions : list TimetableSession)
    (selectedCourseNames : list string)
    (excludedAssignments : JsObject.t (list string)) : OptimalScheduleResult :=
  let courseSessionsMap := groupBySection allSessions selectedCourseNames in
  match collectCourseOptions selectedCourseNames courseSessionsMap excludedAssignments [] with
  | inl failure => failure
  | inr courseOptions =>
      reportBest
        (findBestCombination courseOptions courseSessionsMap 0 JsObject.empty [] None)
  end.

(* ===================================================================== *)
(** ** lib/timetable-extractor.ts: the session built for a matching cell *)
(* ===================================================================== *)

(** [getFormattedValue(values[colIdx]) || 'Unknown'] on a row given by the
    formatted text of its cells ([None] for a missing cell or text). *)
Definition cellTimeText (row : list (option string)) (colIdx : nat) : string :=
  match nth colIdx row None with
  | Some v => if String.eqb v EmptyString then "Unknown" else v
  | None => "Unknown"
  end.

(** The choice of the time-slot text: the embedded time, else the lab time row
    in the lab region, else the time row. *)
Definition resolveTimeSlot (hasEmbeddedTime : bool) (embeddedTime : string)
    (isLab : bool) (labTimeRow timeRow : option (list (option string)))
    (colIdx : nat) : string :=
  if hasEmbeddedTime then embeddedTime
  else
    match isLab, labTimeRow with
    | true, Some row => cellTimeText row colIdx
    | _, _ => cellTimeText (match timeRow with Some row => row | None => [] end) colIdx
    end.

(** The session literal of [getTimetableForCourses] and
    [getAllSessionsForBatch]. *)
Definition extractedSession (sessionId sheetName slot roomText : string) (isLab : bool)
    (name sec batchName dept : string) (colRank : Z) (cellColor : string)
  : TimetableSession :=
  let kind := if isLab || includes "lab" (toLowerCase name) then Lab else Class in
  let parsed := parseTimeSlot slot in
  mkSession sessionId sheetName slot roomText kind name sec batchName dept colRank
            cellColor (start parsed) (end_ parsed).

(* ===================================================================== *)
(** * Auxiliary definitions for the statements *)
(* ===================================================================== *)

(** What the time pattern captures: an hour of one or two digits and a
    minute of two digits. *)
Definition tokenInRange (tok : string * string) : Prop :=
  0 <= parseInt tok.1 <= 99 /\ 0 <= parseInt tok.2 <= 99.

Definition isUnknown (r : TimeRange) : bool := (start r =? 9999) && (end_ r =? 9999).

(** The reading of an hour in a text without marker: an hour from 1 to 7 is an
    afternoon hour, every other hour stands as written. *)
Definition afternoonHour (tok : string * string) : bool :=
  (1 <=? parseInt tok.1) && (parseInt tok.1 <=? 7).

(** The time a token writes, taken as it stands. *)
Definition writtenMinutes (tok : string * string) : Z :=
  parseInt tok.1 * 60 + parseInt tok.2.

(** The time a token writes on the twelve-hour clock, 12 counting as 0. *)
Definition clockMinutes (tok : string * string) : Z :=
  (parseInt tok.1 mod 12) * 60 + parseInt tok.2.

(** A time row of the evening timetable and the session read from its last
    column. *)
Definition eveningTimeRow : list (option string) :=
  [Some "Room"; Some "08:30-09:50"; Some "10:00-11:20"; Some "07:00-08:20"].

Definition eveningSession : TimetableSession :=
  extractedSession "Monday_3_6_c1" "Monday"
    (resolveTimeSlot false "Unknown" false None (Some eveningTimeRow) 3)
    "E-1" false "Data Structures" "A" "BS-CS-1" "CS" 2 "0.800.200.10".

(** The pairs [(sessions[i], sessions[j])], [i < j], in the order of the two
    loops of [detectClashes]. *)
Fixpoint pairsOf (sessions : list TimetableSession)
  : list (TimetableSession * TimetableSession) :=
  match sessions with
  | [] => []
  | session1 :: later => map (pair session1) later ++ pairsOf later
  end.

Definition pairKey (p : TimetableSession * TimetableSession) : string :=
  clashKeyOf (courseName p.1) (courseName p.2) (day p.1).

Definition clashKey (c : Clash.t) : string :=
  clashKeyOf (Clash.course1 c) (Clash.course2 c) (Clash.day c).

(** The clashes of the pairs of [ps] whose key is neither in [seen] nor the key
    of an earlier clashing pair of [ps]. *)
Fixpoint firstClashes (seen : gset string)
    (ps : list (TimetableSession * TimetableSession)) : list Clash.t :=
  match ps with
  | [] => []
  | p :: ps' =>
      if pairClashes p.1 p.2 && bool_decide (pairKey p ∉ seen)
      then clashOf p.1 p.2 :: firstClashes ({[pairKey p]} ∪ seen) ps'
      else firstClashes seen ps'
  end.

(** The keys of the clashing pairs of [ps]. *)
Definition clashKeys (ps : list (TimetableSession * TimetableSession)) : gset string :=
  list_to_set (map pairKey (List.filter (fun p => pairClashes p.1 p.2) ps)).

(** Two clashes name the same unordered pair of courses on the same day. *)
Definition sameTriple (c c' : Clash.t) : Prop :=
  Clash.day c = Clash.day c'
  /\ ((Clash.course1 c = Clash.course1 c' /\ Clash.course2 c = Clash.course2 c')
      \/ (Clash.course1 c = Clash.course2 c' /\ Clash.course2 c = Clash.course1 c')).

(** The order of enumeration between two different keys. *)
Definition keyBefore (a b : string) : Prop :=
  match JsObject.arrayIndex a, JsObject.arrayIndex b with
  | Some x, Some y => x < y
  | Some _, None => True
  | None, Some _ => False
  | None, None => a <> b
  end.

(** The entries are in the order of enumeration, without repeated key. *)
Definition enumerated {V : Type} (o : JsObject.t V) : Prop :=
  StronglySorted keyBefore (JsObject.keys o).

(** No two sessions of [l] share a day key, and none has a key of [seen]. *)
Fixpoint freshDays (seen : gset string) (l : list TimetableSession) : Prop :=
  match l with
  | [] => True
  | s :: l' => (dayKey s ∉ seen) /\ freshDays ({[dayKey s]} ∪ seen) l'
  end.

(** The body of the grouping loop of [filterValidSessions]. *)
Definition groupStep (m : JsObject.t (list TimetableSession)) (session : TimetableSession)
  : JsObject.t (list TimetableSession) :=
  JsObject.push (courseName session) session
    (JsObject.ensure (courseName session) [] m).

(** Every group holds sessions of the course it is filed under. *)
Definition namedGroups (m : JsObject.t (list TimetableSession)) : Prop :=
  forall k g, In (k, g) m -> List.Forall (fun s => courseName s = k) g.

Definition nonEmptyGroup (e : string * list TimetableSession) : bool :=
  match e.2 with [] => false | _ :: _ => true end.

(** The order of numbers that may be [Infinity]. *)
Definition num_le (a b : number) : Prop :=
  match a, b with
  | Num x, Num y => x <= y
  | _, Infinity => True
  | Infinity, Num _ => False
  end.

(** A choice of one section for each of the options, in their order. *)
Definition pathValid (opts : list CourseOption.t) (secs : list string) : Prop :=
  Forall2 (fun o sec => In sec (CourseOption.sections o)) opts secs.

(** The sessions the search accumulates along such a choice. *)
Definition pathSessions (courseSessionsMap : SectionMap)
    (opts : list CourseOption.t) (secs : list string) : list TimetableSession :=
  flat_map
    (fun os => sectionSessionsOf courseSessionsMap (CourseOption.courseName os.1) os.2)
    (combine opts secs).

(** The clash count of a complete schedule, as the base case computes it. *)
Definition leafCount (sched : list TimetableSession) : number :=
  Num (Z.of_nat (length (detectClashes (filterValidSessions sched)))).

Definition isLeafOf (r : CombinationResult.t) (sched : list TimetableSession) : Prop :=
  CombinationResult.schedule r = filterValidSessions sched
  /\ CombinationResult.clashCount r = leafCount sched.

(** The body of the loop over the sections of one course. *)
Definition trySection (later : list CourseOption.t) (courseSessionsMap : SectionMap)
    (index : nat) (name : string) (currentAssignments : JsObject.t string)
    (currentSchedule : list TimetableSession)
    (bestResult : CombinationResult.t) (sec : string) : CombinationResult.t :=
  let sectionSessions := sectionSessionsOf courseSessionsMap name sec in
  let newAssignments := JsObject.set name sec currentAssignments in
  let newSchedule := currentSchedule ++ sectionSessions in
  if num_is (CombinationResult.clashCount bestResult) 0
     && (1 <=? index)%nat
     && (0 <? length (detectClashes (filterValidSessions newSchedule)))%nat
  then bestResult
  else
    let result :=
      findBestCombination later courseSessionsMap (S index)
        newAssignments newSchedule (Some bestResult) in
    if isBetterSchedule result bestResult then result else bestResult.

(** What the search returns from a partial assignment: the best so far or
    the result of a completion, and in any case a result with no more clashes
    than any completion. *)
Definition searchSpec (courseSessionsMap : SectionMap) (opts : list CourseOption.t)
  : Prop :=
  forall index asg sched best,
    let r := findBestCombination opts courseSessionsMap index asg sched best in
    ((opts <> [] /\ r = match best with Some b => b | None => noResult end)
     \/ exists secs, pathValid opts secs
                     /\ isLeafOf r (sched ++ pathSessions courseSessionsMap opts secs))
    /\ forall secs, pathValid opts secs ->
         num_le (CombinationResult.clashCount r)
                (leafCount (sched ++ pathSessions courseSessionsMap opts secs)).

(** The sessions of [allSessions] of one course and section, in their order. *)
Definition matchesSection (c sec : string) (s : TimetableSession) : bool :=
  String.eqb (courseName s) c && String.eqb (section s) sec.

Definition sessionsFor (allSessions : list TimetableSession) (c sec : string)
  : list TimetableSession :=
  List.filter (matchesSection c sec) allSessions.

(** [courseSessionsMap[c]?.[sec]] *)
Definition lookupSection (m : SectionMap) (c sec : string)
  : option (list TimetableSession) :=
  match JsObject.get c m with
  | Some o => JsObject.get sec o
  | None => None
  end.

(** The body of the grouping loop of [findOptimalSchedule]. *)
Definition sectionStep (selectedCourseNames : list string) (m : SectionMap)
    (session : TimetableSession) : SectionMap :=
  if negb (existsb (String.eqb (courseName session)) selectedCourseNames) then m
  else
    JsObject.update (courseName session)
      (fun courseSections =>
         JsObject.push (section session) session
           (JsObject.ensure (section session) [] courseSections))
      (JsObject.ensure (courseName session) JsObject.empty m).

(** [excludedAssignments[c] || []] *)
Definition excludedFor (excludedAssignments : JsObject.t (list string)) (c : string)
  : list string :=
  match JsObject.get c excludedAssignments with
  | Some l => l
  | None => []
  end.

(** Section [sec] of course [c] has a session and is not excluded. *)
Definition sectionOffered (allSessions : list TimetableSession)
    (excludedAssignments : JsObject.t (list string)) (c sec : string) : Prop :=
  (exists s, In s allSessions /\ courseName s = c /\ section s = sec)
  /\ ~ In sec (excludedFor excludedAssignments c).

(** One offered section for each selected course, in the order of selection. *)
Definition validAssignment (allSessions : list TimetableSession)
    (excludedAssignments : JsObject.t (list string))
    (selectedCourseNames secs : list string) : Prop :=
  Forall2 (sectionOffered allSessions excludedAssignments) selectedCourseNames secs.

(** The sessions of an assignment, course after course. *)
Definition assignmentSessions (allSessions : list TimetableSession)
    (selectedCourseNames secs : list string) : list TimetableSession :=
  flat_map (fun cs => sessionsFor allSessions cs.1 cs.2)
           (combine selectedCourseNames secs).

(** The clash count of an assignment: the clashes of its normalised sessions. *)
Definition assignmentClashes (allSessions : list TimetableSession)
    (selectedCourseNames secs : list string) : nat :=
  length (detectClashes
            (filterValidSessions (assignmentSessions allSessions selectedCourseNames secs))).

Definition optionsOf (courseSessionsMap : SectionMap)
    (excludedAssignments : JsObject.t (list string)) (names : list string)
  : list CourseOption.t :=
  map (fun c => CourseOption.mk c (availableSectionsOf courseSessionsMap excludedAssignments c))
      names.

(** Sample timetables for the instances of the statements. *)
Definition sampleSession (name sec dayName slot : string) : TimetableSession :=
  extractedSession (dayName ++ "_" ++ name ++ "_" ++ sec)%string dayName slot "R1" false
    name sec "BS-CS-1" "CS" 0 "0.800.200.10".

Definition sampleSessions : list TimetableSession :=
  [ sampleSession "DS" "A" "Monday" "09:00-10:45";
    sampleSession "OOP" "A" "Monday" "10:00-11:00";
    sampleSession "OOP" "B" "Tuesday" "10:00-11:00" ].

Definition sampleExclusions : JsObject.t (list string) := [("OOP", ["A"; "B"])].

(** Two sessions of different courses meet on one day at overlapping times. *)
Definition sessionsClash (a b : TimetableSession) : Prop :=
  courseName a <> courseName b /\ day a = day b /\ doSessionsOverlap a b = true.

(** The sessions of one course, in their order. *)
Definition courseSessionsOf (l : list TimetableSession) (k : string)
  : list TimetableSession :=
  List.filter (fun s => String.eqb (courseName s) k) l.

(** The kind and day of a session. *)
Definition kindAndDay (s : TimetableSession) : SessionType * string :=
  (sessionType s, day s).

(** The assignments the search builds along a choice of sections. *)
Definition pathAssignments (asg : JsObject.t string)
    (opts : list CourseOption.t) (secs : list string) : JsObject.t string :=
  fold_left (fun a os => JsObject.set (CourseOption.courseName os.1) os.2 a)
            (combine opts secs) asg.

(** The assignments object of a choice of sections for the selected courses. *)
Definition assignmentsOf (names secs : list string) : JsObject.t string :=
  fold_left (fun a cs => JsObject.set cs.1 cs.2 a) (combine names secs) JsObject.empty.

(** The order of [isBetterSchedule]: fewer clashes, then fewer gap minutes. *)
Definition noWorse (a b : CombinationResult.t) : Prop :=
  num_ltb (CombinationResult.clashCount a) (CombinationResult.clashCount b) = true
  \/ (CombinationResult.clashCount a = CombinationResult.clashCount b
      /\ num_le (CombinationResult.gapScore a) (CombinationResult.gapScore b)).

(** What the search returns, with the assignments and the gap score: the best
    so far or the result of a completion, and a result that no completion
    beats. *)
Definition searchSpecLex (courseSessionsMap : SectionMap) (opts : list CourseOption.t)
  : Prop :=
  forall index asg sched best,
    let r := findBestCombination opts courseSessionsMap index asg sched best in
    ((opts <> [] /\ r = match best with Some b => b | None => noResult end)
     \/ exists secs,
         pathValid opts secs
         /\ r = leafResult (pathAssignments asg opts secs)
                  (sched ++ pathSessions courseSessionsMap opts secs))
    /\ forall secs asg', pathValid opts secs ->
         noWorse r (leafResult asg' (sched ++ pathSessions courseSessionsMap opts secs)).

(* ===================================================================== *)
(** ** More string methods *)
(* ===================================================================== *)

Module JsText.

(** [\s] on the code units below 256: tab, line feed, vertical tab, form
    feed, carriage return, space and no-break space; the set [trim] removes. *)
Definition isSpace (c : ascii) : bool :=
  ((9 <=? code c) && (code c <=? 13)) || (code c =? 32) || (code c =? 160).

Fixpoint dropWhile (p : ascii -> bool) (s : string) : string :=
  match s with
  | EmptyString => EmptyString
  | String c s' => if p c then dropWhile p s' else s
  end.

(** The string without its longest suffix of characters that satisfy [p]. *)
Fixpoint dropWhileEnd (p : ascii -> bool) (s : string) : string :=
  match s with
  | EmptyString => EmptyString
  | String c s' =>
      match dropWhileEnd p s' with
      | EmptyString => if p c then EmptyString else String c EmptyString
      | kept => String c kept
      end
  end.

(** [s.trim()] *)
Definition trim (s : string) : string := dropWhileEnd isSpace (dropWhile isSpace s).

(** [s.substring(n)] *)
Fixpoint substringFrom (n : nat) (s : string) : string :=
  match n, s with
  | O, _ => s
  | S n', String _ s' => substringFrom n' s'
  | S _, EmptyString => EmptyString
  end.

(** [s.substring(0, n)] *)
Fixpoint substringTo (n : nat) (s : string) : string :=
  match n, s with
  | S n', String c s' => String c (substringTo n' s')
  | _, _ => EmptyString
  end.

(** [n] characters taken from [cur] and then from [fill], over and over. *)
Fixpoint takeCycle (n : nat) (cur fill : string) : string :=
  match n with
  | O => EmptyString
  | S n' =>
      match cur with
      | String c cur' => String c (takeCycle n' cur' fill)
      | EmptyString =>
          match fill with
          | String c fill' => String c (takeCycle n' fill' fill)
          | EmptyString => EmptyString
          end
      end
  end.

(** [s.padStart(target, fill)] *)
Definition padStart (target : nat) (fill s : string) : string :=
  if (target <=? String.length s)%nat then s
  else (takeCycle (target - String.length s) fill fill ++ s)%string.

(** [s.split(sep)] for a separator of one character. *)
Fixpoint splitOn (sep : ascii) (s : string) : list string :=
  match s with
  | EmptyString => [EmptyString]
  | String c s' =>
      if Ascii.eqb c sep then EmptyString :: splitOn sep s'
      else
        match splitOn sep s' with
        | field :: fields => String c field :: fields
        | [] => [String c EmptyString]
        end
  end.

(** [s.endsWith(p)] for a pattern of one character. *)
Fixpoint endsWithChar (c : ascii) (s : string) : bool :=
  match s with
  | EmptyString => false
  | String d EmptyString => Ascii.eqb d c
  | String _ s' => endsWithChar c s'
  end.

(** [s.slice(0, -1)] *)
Fixpoint dropLast (s : string) : string :=
  match s with
  | EmptyString => EmptyString
  | String _ EmptyString => EmptyString
  | String c s' => String c (dropLast s')
  end.

End JsText.

Import JsText.

(* ===================================================================== *)
(** ** lib/time-parser.ts: the other utilities *)
(* ===================================================================== *)

Definition formatMinutesToTime (minutes : Z) : string :=
  if minutes =? 9999 then "Unknown"
  else
    let hours := minutes / 60 in
    let mins := Z.rem minutes 60 in
    let period := if 12 <=? hours then "PM" else "AM" in
    let displayHour :=
      if 12 <? hours then hours - 12 else if hours =? 0 then 12 else hours in
    (ofZ displayHour ++ ":" ++ padStart 2 "0" (ofZ mins) ++ " " ++ period)%string.



(** The letters [[A-Z]] at the head of [s], and what follows them. *)
Fixpoint upperRun (s : string) : string * string :=
  match s with
  | String c s' =>
      if isUpper c then let '(run, rest) := upperRun s' in (String c run, rest)
      else (EmptyString, s)
  | EmptyString => (EmptyString, EmptyString)
  end.

(** One attempt of [/\b[A-Z]{2,4}\b/] at the head of [s]: the letters must
    start at a word boundary, number two to four, and end at a word
    boundary. *)
Definition matchUpperTokenAt (prevWord : bool) (s : string) : option string :=
  let '(run, rest) := upperRun s in
  if negb prevWord
     && (2 <=? String.length run)%nat && (String.length run <=? 4)%nat
     && match rest with
        | EmptyString => true
        | String c _ => negb (isWordChar c)
        end
  then Some run else None.

Fixpoint scanUpperTokens (prevWord : bool) (skip : nat) (s : string) : list string :=
  match s with
  | EmptyString => []
  | String c s' =>
      match skip with
      | S k => scanUpperTokens (isWordChar c) k s'
      | O =>
          match matchUpperTokenAt prevWord s with
          | Some tok =>
              tok :: scanUpperTokens (isWordChar c) (Nat.pred (String.length tok)) s'
          | None => scanUpperTokens (isWordChar c) 0 s'
          end
      end
  end.

Definition extractDepartmentFromBatch (batch : string) : string :=
  if String.eqb batch EmptyString then EmptyString
  else
    let viaDash :=
      if includes "-" batch then
        let parts := splitOn "-" batch in
        if (2 <=? length parts)%nat then Some (nth 1 parts EmptyString) else None
      else None in
    match viaDash with
    | Some dept => dept
    | None =>
        let tokens := scanUpperTokens false 0 batch in
        match List.find (fun t => negb (String.eqb t "BS")) tokens with
        | Some t => t
        | None => EmptyString
        end
    end.

Definition roomPrefixes : list string :=
  ["room"; "room no"; "room number"; "location"; "venue"].

(** [[.,;:\s]] *)
Definition isRoomPunctuation (c : ascii) : bool :=
  Ascii.eqb c "." || Ascii.eqb c "," || Ascii.eqb c ";" || Ascii.eqb c ":" || isSpace c.

Definition cleanRoomData (room : string) : string :=
  if String.eqb room EmptyString then "Unknown"
  else
    let cleaned := trim room in
    let cleaned :=
      fold_left
        (fun cleaned prefix =>
           if startsWith prefix (toLowerCase cleaned)
           then trim (substringFrom (String.length prefix) cleaned)
           else cleaned)
        roomPrefixes cleaned in
    let cleaned :=
      if startsWith "no." (toLowerCase cleaned) then trim (substringFrom 3 cleaned)
      else if startsWith "no " (toLowerCase cleaned) then trim (substringFrom 3 cleaned)
      else cleaned in
    (* replace(/^[.,;:\s]+|[.,;:\s]+$/g, '') *)
    let cleaned := dropWhileEnd isRoomPunctuation (dropWhile isRoomPunctuation cleaned) in
    if String.eqb cleaned EmptyString then "Unknown" else cleaned.

(** The first and the last character of a string. *)
Definition firstChar (s : string) : option ascii :=
  match s with
  | EmptyString => None
  | String c _ => Some c
  end.

Fixpoint lastChar (s : string) : option ascii :=
  match s with
  | EmptyString => None
  | String c EmptyString => Some c
  | String _ s' => lastChar s'
  end.

Fixpoint allChars (p : ascii -> bool) (s : string) : bool :=
  match s with
  | EmptyString => true
  | String c s' => p c && allChars p s'
  end.

(** The round trip of the minute [n] through the formatter and the parser. *)
Definition roundTripsAt (n : nat) : bool :=
  let m := Z.of_nat n in
  let r := parseTimeSlot (formatMinutesToTime m) in
  (start r =? m) && (end_ r =? m + 50).

(** What the pattern for department words captures. *)
Definition upperToken (t : string) : Prop :=
  allChars isUpper t = true /\ (2 <= String.length t <= 4)%nat.

(* ===================================================================== *)
(** ** lib/time-parser.ts: the time embedded in a cell *)
(* ===================================================================== *)

Module EmbeddedTime.
Record t : Type := mk {
  cleanedName : string;
  timeSlot : string;
  hasEmbeddedTime : bool
}.
End EmbeddedTime.

(** The closing [\b] after a digit: the end of the text or a character that is
    not a word character. *)
Definition boundaryAfterDigit (rest : string) : bool :=
  match rest with
  | EmptyString => true
  | String c _ => negb (isWordChar c)
  end.

(** One attempt of [/\b(\d{1,2}:\d{2}(?:-\d{1,2}:\d{2})?)\b/] at the head of
    [s]: the length of the match.  The range is tried first; without it the
    single time must end at a word boundary. *)
Definition matchEmbeddedAt (prevWord : bool) (s : string) : option nat :=
  if prevWord then None
  else
    match matchTimeAt s with
    | None => None
    | Some (_, _, len) =>
        let rest := substringFrom len s in
        let withRange :=
          match rest with
          | String c rest' =>
              if Ascii.eqb c "-" then
                match matchTimeAt rest' with
                | Some (_, _, len2) =>
                    if boundaryAfterDigit (substringFrom len2 rest')
                    then Some (len + 1 + len2)%nat else None
                | None => None
                end
              else None
          | EmptyString => None
          end in
        match withRange with
        | Some n => Some n
        | None => if boundaryAfterDigit rest then Some len else None
        end
    end.

(** The first match of the pattern: the text before it, the match, the text
    after it. *)
Fixpoint findEmbedded (prevWord : bool) (s : string)
  : option (string * string * string) :=
  match s with
  | EmptyString => None
  | String c s' =>
      match matchEmbeddedAt prevWord s with
      | Some n => Some (EmptyString, substringTo n s, substringFrom n s)
      | None =>
          match findEmbedded (isWordChar c) s' with
          | Some (before, matched, after) => Some (String c before, matched, after)
          | None => None
          end
      end
  end.

(** [s.replace(/\s+/g, ' ')]; [inRun] tells whether the character before was
    white space. *)
Fixpoint collapseSpaces (inRun : bool) (s : string) : string :=
  match s with
  | EmptyString => EmptyString
  | String c s' =>
      if isSpace c then
        if inRun then collapseSpaces true s' else String " " (collapseSpaces true s')
      else String c (collapseSpaces false s')
  end.

Definition parseEmbeddedTime (courseEntry : string) : EmbeddedTime.t :=
  if String.eqb courseEntry EmptyString
  then EmbeddedTime.mk courseEntry "Unknown" false
  else
    match findEmbedded false courseEntry with
    | Some (before, matched, after) =>
        let cleanedEntry := trim (before ++ after)%string in
        let cleanedEntry := trim (collapseSpaces false cleanedEntry) in
        let cleanedEntry :=
          if endsWithChar "-" cleanedEntry then trim (dropLast cleanedEntry)
          else cleanedEntry in
        EmbeddedTime.mk cleanedEntry matched true
    | None => EmbeddedTime.mk courseEntry "Unknown" false
    end.

(* ===================================================================== *)
(** ** lib/timetable-extractor.ts: collecting and ordering the sessions *)
(* ===================================================================== *)

Definition isSimilarSession (session1 session2 : TimetableSession) : bool :=
  String.eqb (day session1) (day session2)
  && String.eqb (timeSlot session1) (timeSlot session2)
  && String.eqb (toLowerCase (courseName session1)) (toLowerCase (courseName session2))
  && String.eqb (section session1) (section session2).

(** [if (!sessions.some(s => isSimilarSession(s, session))) sessions.push(session)] *)
Definition pushUnlessSimilar (sessions : list TimetableSession)
    (session : TimetableSession) : list TimetableSession :=
  if existsb (fun s => isSimilarSession s session) sessions then sessions
  else sessions ++ [session].

Definition dayOrder : list string :=
  ["Monday"; "Tuesday"; "Wednesday"; "Thursday"; "Friday"].

(** [l.indexOf(x)], counted from [i]. *)
Fixpoint indexFrom (i : Z) (x : string) (l : list string) : Z :=
  match l with
  | [] => -1
  | y :: l' => if String.eqb y x then i else indexFrom (i + 1) x l'
  end.

Definition indexOf (x : string) (l : list string) : Z := indexFrom 0 x l.

(** The comparator of the final sort of [getTimetableForCourses]. *)
Definition compareSessions (a b : TimetableSession) : Z :=
  let dayCompare := indexOf (day a) dayOrder - indexOf (day b) dayOrder in
  if negb (dayCompare =? 0) then dayCompare
  else startMinutes a - startMinutes b.

(** [sessions.sort(compare)]; the sort is stable. *)
Fixpoint insertSession (x : TimetableSession) (l : list TimetableSession)
  : list TimetableSession :=
  match l with
  | [] => [x]
  | y :: l' => if compareSessions x y <=? 0 then x :: l else y :: insertSession x l'
  end.

Definition sortSessions (l : list TimetableSession) : list TimetableSession :=
  fold_right insertSession [] l.

(* ===================================================================== *)
(** ** app/api/optimal-schedule/route.ts: the section lists of the reply *)
(* ===================================================================== *)

(** [Array.from(new Set(l))]: the first occurrences, in their order. *)
Fixpoint uniqueFrom (seen : gset string) (l : list string) : list string :=
  match l with
  | [] => []
  | x :: l' =>
      if decide (x ∈ seen) then uniqueFrom seen l'
      else x :: uniqueFrom ({[x]} ∪ seen) l'
  end.

Definition routeSections (allSessions : list TimetableSession) (name : string)
  : list string :=
  sortStrings
    (uniqueFrom ∅
       (map section
            (List.filter (fun s => String.eqb (courseName s) name) allSessions))).

(** The [sessions] array after the loops of [getTimetableForCourses] and of
    [getAllSessionsForBatch], for the sessions built in loop order. *)
Definition collectSessions (built : list TimetableSession) : list TimetableSession :=
  fold_left pushUnlessSimilar built [].

(** The order of the final sort: by day of the week, then by start. *)
Definition sessionOrder (a b : TimetableSession) : Prop :=
  indexOf (day a) dayOrder < indexOf (day b) dayOrder
  \/ (indexOf (day a) dayOrder = indexOf (day b) dayOrder
      /\ startMinutes a <= startMinutes b).

(** The text of a time token: hour, colon, minute. *)
Definition timeText (h m : string) : string := (h ++ ":" ++ m)%string.

(** The key of the final sort: the place of the day in the week and the
    start. *)
Definition sameSortKey (dayIndex startAt : Z) (s : TimetableSession) : bool :=
  (indexOf (day s) dayOrder =? dayIndex) && (startMinutes s =? startAt).


(** Strictly ascending in the order of [sort()] on strings. *)
Definition strictlyBefore (a b : string) : Prop := String.leb a b = true /\ a <> b.

(* ===================================================================== *)
(** * Properties of the time parser *)
(* ===================================================================== *)

Section TimeParser.

Lemma isDigit_value c : isDigit c = true -> 0 <= digitValue c <= 9.
Proof.
  unfold isDigit, digitValue. intros H.
  apply andb_true_iff in H as [H1 H2]. lia.
Qed.

Lemma parseInt_one c : isDigit c = true ->
  0 <= parseInt (String c EmptyString) <= 9.
Proof.
  intros H. unfold parseInt. simpl. rewrite H.
  pose proof (isDigit_value c H). lia.
Qed.

Lemma parseInt_two c d : isDigit c = true -> isDigit d = true ->
  0 <= parseInt (String c (String d EmptyString)) <= 99.
Proof.
  intros Hc Hd. unfold parseInt. simpl. rewrite Hc, Hd.
  pose proof (isDigit_value c Hc). pose proof (isDigit_value d Hd). lia.
Qed.

Lemma matchTimeAt_range s h m len :
  matchTimeAt s = Some (h, m, len) -> tokenInRange (h, m).
Proof.
  unfold matchTimeAt, tokenInRange.
  destruct s as [|h1 [|h2 [|c [|m1 [|m2 r]]]]]; try discriminate; cbn [fst snd].
  - destruct (isDigit h1 && Ascii.eqb h2 ":" && isDigit c && isDigit m1) eqn:E;
      [|discriminate].
    intros [= <- <- <-].
    do 3 (apply andb_true_iff in E as [E ?]).
    split; [pose proof (parseInt_one h1 E); lia | now apply parseInt_two].
  - destruct (isDigit h1 && isDigit h2 && Ascii.eqb c ":" && isDigit m1 && isDigit m2)
      eqn:E.
    + intros [= <- <- <-].
      do 4 (apply andb_true_iff in E as [E ?]).
      split; now apply parseInt_two.
    + destruct (isDigit h1 && Ascii.eqb h2 ":" && isDigit c && isDigit m1) eqn:E';
        [|discriminate].
      intros [= <- <- <-].
      do 3 (apply andb_true_iff in E' as [E' ?]).
      split; [pose proof (parseInt_one h1 E'); lia | now apply parseInt_two].
Qed.

Lemma scanTimes_range s : forall skip, Forall tokenInRange (scanTimes skip s).
Proof.
  induction s as [|c s IH]; intros skip; cbn [scanTimes]; [constructor|].
  destruct skip as [|k]; [|apply IH].
  destruct (matchTimeAt (String c s)) as [[[h m] len]|] eqn:E; [|apply IH].
  constructor; [eapply matchTimeAt_range; eauto | apply IH].
Qed.

Lemma parseTime_range tok timeSlot i :
  tokenInRange tok -> 0 <= parseTime tok timeSlot i <= 6759.
Proof.
  intros [Hh Hm]. unfold parseTime.
  repeat match goal with
         | |- context [if ?b then _ else _] => destruct b
         end; lia.
Qed.

(** Without a marker the hour follows the timetable's convention. *)
Lemma parseTime_no_marker tok timeSlot i :
  matchAllAmPm timeSlot = [] ->
  let hour := parseInt tok.1 in
  exists hour24,
    parseTime tok timeSlot i = hour24 * 60 + parseInt tok.2
    /\ (8 <= hour <= 11 -> hour24 = hour)
    /\ (hour = 12 -> hour24 = 12)
    /\ (1 <= hour <= 7 -> hour24 = hour + 12).
Proof.
  intros Hno hour. unfold parseTime. rewrite Hno. cbn [length Nat.ltb Nat.leb].
  fold hour.
  destruct ((8 <=? hour) && (hour <=? 11)) eqn:E1.
  { exists hour. apply andb_true_iff in E1. repeat split; lia. }
  destruct (hour =? 12) eqn:E2.
  { exists 12. apply andb_false_iff in E1. repeat split; lia. }
  destruct ((1 <=? hour) && (hour <=? 7)) eqn:E3.
  { exists (hour + 12). apply andb_true_iff in E3. repeat split; lia. }
  exists hour. apply andb_false_iff in E1. apply andb_false_iff in E3.
  repeat split; lia.
Qed.

(** The shape of every result: the sentinel pair, or two real times. *)
Lemma parseTimeSlot_shape timeSlot :
  parseTimeSlot timeSlot = UNKNOWN
  \/ (0 <= start (parseTimeSlot timeSlot) <= 6759
      /\ 0 <= end_ (parseTimeSlot timeSlot) <= 6809).
Proof.
  unfold parseTimeSlot.
  destruct (String.eqb timeSlot EmptyString || String.eqb timeSlot "Unknown"); [now left|].
  pose proof (scanTimes_range timeSlot 0) as HF. fold (matchAllTimes timeSlot) in HF.
  destruct (matchAllTimes timeSlot) as [|m0 more]; [now left|right].
  inversion HF as [|? ? H0 Hmore]; subst.
  pose proof (parseTime_range m0 timeSlot 0 H0).
  cbn [start end_]. split; [lia|].
  destruct more as [|m1 more']; [lia|].
  inversion Hmore; subst.
  pose proof (parseTime_range m1 timeSlot 1 ltac:(assumption)). lia.
Qed.

Lemma parseTimeSlot_start_unknown timeSlot :
  start (parseTimeSlot timeSlot) = 9999 -> parseTimeSlot timeSlot = UNKNOWN.
Proof. destruct (parseTimeSlot_shape timeSlot) as [H|H]; [auto | lia]. Qed.

Lemma parseTimeSlot_end_unknown timeSlot :
  end_ (parseTimeSlot timeSlot) = 9999 -> parseTimeSlot timeSlot = UNKNOWN.
Proof. destruct (parseTimeSlot_shape timeSlot) as [H|H]; [auto | lia]. Qed.

End TimeParser.

(** C2: [doTimeSlotsOverlap a b] is false when either slot parses to the
    unknown pair (9999, 9999); otherwise it is true exactly when neither
    interval ends at or before the start of the other.  Two slots that touch at
    an endpoint, such as 09:00-09:50 and 09:50-10:40, do not overlap. *)
Theorem doTimeSlotsOverlap_spec :
  (forall a b : string,
      doTimeSlotsOverlap a b =
      if isUnknown (parseTimeSlot a) || isUnknown (parseTimeSlot b) then false
      else negb ((end_ (parseTimeSlot a) <=? start (parseTimeSlot b))
                 || (end_ (parseTimeSlot b) <=? start (parseTimeSlot a))))
  /\ doTimeSlotsOverlap "09:00-09:50" "09:50-10:40" = false.
Proof.
  split; [|reflexivity].
  intros a b. unfold doTimeSlotsOverlap, isUnknown.
  destruct (start (parseTimeSlot a) =? 9999) eqn:Ea.
  - apply Z.eqb_eq, parseTimeSlot_start_unknown in Ea. now rewrite Ea.
  - destruct (start (parseTimeSlot b) =? 9999) eqn:Eb; [|reflexivity].
    apply Z.eqb_eq, parseTimeSlot_start_unknown in Eb. now rewrite Eb.
Qed.

(** C10: in the pair returned by [parseTimeSlot], the start is the sentinel
    9999 if and only if the end is: the sentinel never shows in one component
    alone. *)
Theorem parseTimeSlot_sentinel_both (s : string) :
  start (parseTimeSlot s) = 9999 <-> end_ (parseTimeSlot s) = 9999.
Proof.
  split; intros H.
  - apply parseTimeSlot_start_unknown in H. now rewrite H.
  - apply parseTimeSlot_end_unknown in H. now rewrite H.
Qed.

(** C7: for a time string with at least one H:MM token and no AM/PM marker,
    the start comes from the first token and the end from the second (when
    there is one), each hour converted by the convention: 8 to 11 unchanged,
    12 unchanged, 1 to 7 moved twelve hours on.  "1:00-2:00" gives
    780 and 840. *)
Theorem parseTimeSlot_heuristic (timeSlot h m : string) (more : list (string * string)) :
  matchAllTimes timeSlot = (h, m) :: more ->
  matchAllAmPm timeSlot = [] ->
  (exists hour24,
      start (parseTimeSlot timeSlot) = hour24 * 60 + parseInt m
      /\ (8 <= parseInt h <= 11 -> hour24 = parseInt h)
      /\ (parseInt h = 12 -> hour24 = 12)
      /\ (1 <= parseInt h <= 7 -> hour24 = parseInt h + 12))
  /\ (forall h' m' more', more = (h', m') :: more' ->
        exists hour24,
          end_ (parseTimeSlot timeSlot) = hour24 * 60 + parseInt m'
          /\ (8 <= parseInt h' <= 11 -> hour24 = parseInt h')
          /\ (parseInt h' = 12 -> hour24 = 12)
          /\ (1 <= parseInt h' <= 7 -> hour24 = parseInt h' + 12))
  /\ parseTimeSlot "1:00-2:00" = mkRange 780 840.
Proof.
  intros Htok Hno.
  assert (Hguard : String.eqb timeSlot EmptyString || String.eqb timeSlot "Unknown" = false).
  { destruct (String.eqb timeSlot EmptyString) eqn:E1.
    - apply String.eqb_eq in E1. subst. discriminate Htok.
    - destruct (String.eqb timeSlot "Unknown") eqn:E2; [|reflexivity].
      apply String.eqb_eq in E2. subst. discriminate Htok. }
  unfold parseTimeSlot. rewrite Hguard, Htok. cbn [start end_].
  split; [|split; [|reflexivity]].
  - apply (parseTime_no_marker (h, m) timeSlot 0%nat Hno).
  - intros h' m' more' ->.
    apply (parseTime_no_marker (h', m') timeSlot 1%nat Hno).
Qed.

Lemma parseTimeSlot_heuristic_witness :
  (exists hour24,
      start (parseTimeSlot "1:00-2:00") = hour24 * 60 + parseInt "00"
      /\ (8 <= parseInt "1" <= 11 -> hour24 = parseInt "1")
      /\ (parseInt "1" = 12 -> hour24 = 12)
      /\ (1 <= parseInt "1" <= 7 -> hour24 = parseInt "1" + 12))
  /\ (forall h' m' more', [("2", "00")] = (h', m') :: more' ->
        exists hour24,
          end_ (parseTimeSlot "1:00-2:00") = hour24 * 60 + parseInt m'
          /\ (8 <= parseInt h' <= 11 -> hour24 = parseInt h')
          /\ (parseInt h' = 12 -> hour24 = 12)
          /\ (1 <= parseInt h' <= 7 -> hour24 = parseInt h' + 12))
  /\ parseTimeSlot "1:00-2:00" = mkRange 780 840.
Proof.
  apply (parseTimeSlot_heuristic "1:00-2:00" "1" "00" [("2", "00")]); reflexivity.
Defined.

(** C8 as stated fails: the session read under the evening column
    07:00-08:20 starts at 19:00 and ends at 08:20, and neither field is the
    sentinel. *)
Lemma extraction_order_counterexample :
  timeSlot eveningSession = "07:00-08:20"
  /\ startMinutes eveningSession = 1140
  /\ endMinutes eveningSession = 500
  /\ ~ (startMinutes eveningSession <= endMinutes eveningSession
        \/ (startMinutes eveningSession = 9999 /\ endMinutes eveningSession = 9999)).
Proof.
  repeat split; try reflexivity.
  change (startMinutes eveningSession) with 1140.
  change (endMinutes eveningSession) with 500. lia.
Qed.

(** *** The order of the two fields *)

Lemma parseTime_unmarked tok timeSlot i :
  matchAllAmPm timeSlot = [] ->
  parseTime tok timeSlot i
  = writtenMinutes tok + (if afternoonHour tok then 720 else 0).
Proof.
  intros Hno. unfold parseTime, afternoonHour, writtenMinutes. rewrite Hno.
  cbn [length Nat.ltb Nat.leb fst snd].
  destruct ((8 <=? parseInt tok.1) && (parseInt tok.1 <=? 11)) eqn:E1.
  { apply andb_true_iff in E1 as [E1 E1'].
    replace (1 <=? parseInt tok.1) with true by lia.
    replace (parseInt tok.1 <=? 7) with false by lia. cbn. lia. }
  destruct (parseInt tok.1 =? 12) eqn:E2.
  { replace (parseInt tok.1 <=? 7) with false by lia. rewrite andb_false_r. lia. }
  destruct ((1 <=? parseInt tok.1) && (parseInt tok.1 <=? 7)); lia.
Qed.

(** The marker of the first token is the first marker; the marker of the
    second token is the second marker, or the first when there is no other. *)
Lemma parseTime_marked tok timeSlot k0 ks i :
  matchAllAmPm timeSlot = k0 :: ks ->
  (i <= 1)%nat ->
  let marker := toUpperCase (match i with O => k0 | S _ => hd k0 ks end) in
  parseTime tok timeSlot i
  = (if String.eqb marker "PM" && negb (parseInt tok.1 =? 12) then parseInt tok.1 + 12
     else if String.eqb marker "AM" && (parseInt tok.1 =? 12) then 0
     else parseInt tok.1) * 60 + parseInt tok.2.
Proof.
  intros Hmk Hi marker. unfold parseTime. rewrite Hmk.
  assert (nth (Nat.min i (length (k0 :: ks) - 1)) (k0 :: ks) EmptyString
          = match i with O => k0 | S _ => hd k0 ks end) as ->.
  { destruct i as [|[|i]]; [reflexivity | | lia]. destruct ks; reflexivity. }
  reflexivity.
Qed.

Lemma matchAmPmAt_marker prevWord s txt :
  matchAmPmAt prevWord s = Some txt ->
  toUpperCase txt = "AM" \/ toUpperCase txt = "PM".
Proof.
  unfold matchAmPmAt. destruct s as [|c1 [|c2 rest]]; try discriminate.
  destruct (negb prevWord && _ && _ && _) eqn:E; [|discriminate].
  intros [= <-].
  apply andb_true_iff in E as [E _]. apply andb_true_iff in E as [E E2].
  apply andb_true_iff in E as [_ E1].
  apply Ascii.eqb_eq in E2.
  unfold toUpperCase. cbn [mapChars]. rewrite E2.
  apply orb_true_iff in E1 as [E1|E1]; apply Ascii.eqb_eq in E1; rewrite E1; auto.
Qed.

Lemma scanAmPm_markers s : forall prevWord skip,
  List.Forall (fun k => toUpperCase k = "AM" \/ toUpperCase k = "PM")
              (scanAmPm prevWord skip s).
Proof.
  induction s as [|c s IH]; intros prevWord skip; cbn [scanAmPm]; [constructor|].
  destruct skip; [|apply IH].
  destruct (matchAmPmAt prevWord (String c s)) eqn:E; [|apply IH].
  constructor; [exact (matchAmPmAt_marker _ _ _ E) | apply IH].
Qed.

Lemma parseTimeSlot_tokens slot tok more :
  matchAllTimes slot = tok :: more ->
  parseTimeSlot slot
  = mkRange (parseTime tok slot 0)
            (match more with
             | tok1 :: _ => parseTime tok1 slot 1
             | [] => parseTime tok slot 0 + 50
             end).
Proof.
  intros H. unfold parseTimeSlot.
  assert (String.eqb slot EmptyString || String.eqb slot "Unknown" = false) as ->.
  { destruct (String.eqb slot EmptyString) eqn:E1.
    - apply String.eqb_eq in E1. subst. discriminate H.
    - destruct (String.eqb slot "Unknown") eqn:E2; [|reflexivity].
      apply String.eqb_eq in E2. subst. discriminate H. }
  now rewrite H.
Qed.

(** C8, amended: the fields of an extracted session are the sentinel pair when
    the time text has no H:MM token, and the end is the start plus 50 when it
    has exactly one.  With two tokens or more the first two decide.  In a text
    without AM/PM marker: when both hours lie in 1 to 7 or neither does, the
    start does not exceed the end exactly when the first time as written does
    not exceed the second; when the first hour is at most 12 and not in 1 to
    7, its minute at most 59, and the second hour lies in 1 to 7, the start is
    before the end.  In a text with markers and both hours from 1 to 12: when
    both tokens fall under the same marker and the first time does not exceed
    the second on the twelve-hour clock, the start does not exceed the end;
    when the first token falls under AM and the second under PM and the first
    minute is at most 59, the start is before the end. *)
Theorem extractedSession_order
    (sessionId sheetName slot roomText : string) (isLab : bool)
    (name sec batchName dept : string) (colRank : Z) (cellColor : string) :
  let s := extractedSession sessionId sheetName slot roomText isLab name sec
             batchName dept colRank cellColor in
  (matchAllTimes slot = [] -> startMinutes s = 9999 /\ endMinutes s = 9999)
  /\ (forall tok, matchAllTimes slot = [tok] -> endMinutes s = startMinutes s + 50)
  /\ (forall tok0 tok1 more,
        matchAllTimes slot = tok0 :: tok1 :: more ->
        matchAllAmPm slot = [] ->
        (afternoonHour tok0 = afternoonHour tok1 ->
           (startMinutes s <= endMinutes s
            <-> writtenMinutes tok0 <= writtenMinutes tok1))
        /\ (afternoonHour tok0 = false -> afternoonHour tok1 = true ->
            parseInt tok0.1 <= 12 -> parseInt tok0.2 <= 59 ->
            startMinutes s < endMinutes s))
  /\ (forall tok0 tok1 more k0 ks,
        matchAllTimes slot = tok0 :: tok1 :: more ->
        matchAllAmPm slot = k0 :: ks ->
        1 <= parseInt tok0.1 <= 12 ->
        1 <= parseInt tok1.1 <= 12 ->
        (toUpperCase k0 = toUpperCase (hd k0 ks) ->
         clockMinutes tok0 <= clockMinutes tok1 ->
         startMinutes s <= endMinutes s)
        /\ (toUpperCase k0 = "AM" -> toUpperCase (hd k0 ks) = "PM" ->
            parseInt tok0.2 <= 59 ->
            startMinutes s < endMinutes s)).
Proof.
  cbn [extractedSession startMinutes endMinutes].
  pose proof (scanTimes_range slot 0) as Hrange.
  fold (matchAllTimes slot) in Hrange.
  split; [|split; [|split]].
  - intros H. unfold parseTimeSlot. rewrite H.
    destruct (String.eqb slot EmptyString || String.eqb slot "Unknown"); now cbn.
  - intros tok H. now rewrite (parseTimeSlot_tokens _ _ _ H).
  - intros tok0 tok1 more H Hno.
    rewrite (parseTimeSlot_tokens _ _ _ H). cbn [start end_].
    rewrite !parseTime_unmarked by assumption.
    rewrite H in Hrange. apply List.Forall_cons_iff in Hrange as [_ Hrange].
    apply List.Forall_cons_iff in Hrange as [[Hh1 Hm1] _].
    split.
    + intros ->. destruct (afternoonHour tok1); lia.
    + intros H0 H1 Hh Hm. rewrite H0, H1.
      apply andb_true_iff in H1 as [H1 _]. unfold writtenMinutes. lia.
  - intros tok0 tok1 more k0 ks H Hmk Hh0 Hh1.
    rewrite (parseTimeSlot_tokens _ _ _ H). cbn [start end_].
    rewrite (parseTime_marked tok0 slot k0 ks 0 Hmk) by lia.
    rewrite (parseTime_marked tok1 slot k0 ks 1 Hmk) by lia.
    rewrite H in Hrange. apply List.Forall_cons_iff in Hrange as [[_ Hm0] Hrange].
    apply List.Forall_cons_iff in Hrange as [[_ Hm1] _].
    pose proof (scanAmPm_markers slot false 0) as Hmarkers.
    fold (matchAllAmPm slot) in Hmarkers. rewrite Hmk in Hmarkers.
    apply List.Forall_cons_iff in Hmarkers as [Hk0 _].
    unfold clockMinutes.
    assert (Hmod : forall h, 1 <= h <= 12 ->
              h mod 12 = if h =? 12 then 0 else h).
    { intros h Hh. destruct (h =? 12) eqn:E.
      - apply Z.eqb_eq in E. now subst.
      - apply Z.mod_small. lia. }
    rewrite (Hmod _ Hh0), (Hmod _ Hh1).
    split.
    + intros <-.
      destruct Hk0 as [-> | ->]; cbn [String.eqb Ascii.eqb Bool.eqb andb negb];
        destruct (parseInt tok0.1 =? 12) eqn:E0;
        destruct (parseInt tok1.1 =? 12) eqn:E1; cbn [negb]; intros Hc; lia.
    + intros -> -> Hm. cbn [String.eqb Ascii.eqb Bool.eqb andb negb].
      destruct (parseInt tok0.1 =? 12) eqn:E0;
        destruct (parseInt tok1.1 =? 12) eqn:E1; cbn [negb]; lia.
Qed.

Lemma extractedSession_order_witness :
  let s := extractedSession "Monday_3_4_c1" "Monday" "11:30-1:00" "E-1" false
             "Data Structures" "A" "BS-CS-1" "CS" 3 "0.800.200.10" in
  startMinutes s < endMinutes s.
Proof.
  refine (proj2 (proj1 (proj2 (proj2
            (extractedSession_order "Monday_3_4_c1" "Monday" "11:30-1:00" "E-1" false
               "Data Structures" "A" "BS-CS-1" "CS" 3 "0.800.200.10")))
            ("11", "30") ("1", "00") [] _ _) _ _ _ _);
    solve [reflexivity | vm_compute; discriminate].
Defined.

(** *** The parser on sample texts *)

Example parse_plain : parseTimeSlot "09:00-10:45" = mkRange 540 645.
Proof. reflexivity. Qed.

Example parse_afternoon : parseTimeSlot "1:00-2:00" = mkRange 780 840.
Proof. reflexivity. Qed.

Example parse_markers : parseTimeSlot "11:00 AM - 12:30 pm" = mkRange 660 750.
Proof. reflexivity. Qed.

(** A marker glued to the digits is not at a word boundary. *)
Example parse_glued_marker : parseTimeSlot "9:00am" = mkRange 540 590.
Proof. reflexivity. Qed.

Example parse_single_token : parseTimeSlot "Lab 2:30" = mkRange 870 920.
Proof. reflexivity. Qed.

Example parse_no_token : parseTimeSlot "TBA" = UNKNOWN.
Proof. reflexivity. Qed.

Example overlap_scenario : doTimeSlotsOverlap "09:00-10:45" "10:00-11:00" = true.
Proof. reflexivity. Qed.

(* ===================================================================== *)
(** * Properties of clash detection *)
(* ===================================================================== *)

Section StringOrder.

Lemma string_leb_trans a : forall b c,
  String.leb a b = true -> String.leb b c = true -> String.leb a c = true.
Proof.
  unfold String.leb.
  induction a as [|x a IH]; intros [|y b] [|z c]; cbn; try (discriminate || reflexivity).
  unfold Ascii.compare.
  destruct (N.compare_spec (N_of_ascii x) (N_of_ascii y)) as [Exy|Lxy|Gxy];
    destruct (N.compare_spec (N_of_ascii y) (N_of_ascii z)) as [Eyz|Lyz|Gyz];
    try discriminate;
    destruct (N.compare_spec (N_of_ascii x) (N_of_ascii z)) as [Exz|Lxz|Gxz];
    try lia; try reflexivity.
  apply IH.
Qed.

Lemma string_leb_false a b : String.leb a b = false -> String.leb b a = true.
Proof. destruct (String.leb_total a b) as [H|H]; congruence. Qed.

Lemma insertString_comm a b l :
  insertString a (insertString b l) = insertString b (insertString a l).
Proof.
  induction l as [|y l IH]; cbn [insertString].
  - destruct (String.leb a b) eqn:Eab, (String.leb b a) eqn:Eba; try reflexivity.
    + f_equal; [|f_equal]; now apply String.leb_antisym.
    + apply string_leb_false in Eab. congruence.
  - destruct (String.leb b y) eqn:Eby, (String.leb a y) eqn:Eay;
      cbn [insertString]; rewrite ?Eby, ?Eay.
    + destruct (String.leb a b) eqn:Eab, (String.leb b a) eqn:Eba; try reflexivity.
      * assert (a = b) by (now apply String.leb_antisym). now subst.
      * apply string_leb_false in Eab. congruence.
    + destruct (String.leb a b) eqn:Eab; [|reflexivity].
      pose proof (string_leb_trans _ _ _ Eab Eby). congruence.
    + destruct (String.leb b a) eqn:Eba; [|reflexivity].
      pose proof (string_leb_trans _ _ _ Eba Eay). congruence.
    + now rewrite IH.
Qed.

(** The sorted key does not depend on the order of the two course names. *)
Lemma clashKeyOf_comm c1 c2 d : clashKeyOf c1 c2 d = clashKeyOf c2 c1 d.
Proof.
  unfold clashKeyOf, sortStrings. cbn [fold_right].
  now rewrite insertString_comm.
Qed.

End StringOrder.

Section ClashDetection.

Implicit Types (ps : list (TimetableSession * TimetableSession)).
Implicit Types (seen : gset string).

Lemma inner_loop_pairs session1 later : forall st,
  fold_left (clashStep session1) later st
  = fold_left (fun st p => clashStep p.1 st p.2) (map (pair session1) later) st.
Proof.
  induction later as [|x l IH]; intros st; [reflexivity|].
  cbn [fold_left map fst snd]. apply IH.
Qed.

Lemma clashLoop_pairs sessions : forall st,
  clashLoop sessions st
  = fold_left (fun st p => clashStep p.1 st p.2) (pairsOf sessions) st.
Proof.
  induction sessions as [|session1 later IH]; intros st; [reflexivity|].
  cbn [clashLoop pairsOf]. now rewrite fold_left_app, IH, inner_loop_pairs.
Qed.

Lemma clashStep_first session1 session2 clashes seen :
  clashStep session1 (clashes, seen) session2
  = if pairClashes session1 session2
       && bool_decide (pairKey (session1, session2) ∉ seen)
    then (clashes ++ [clashOf session1 session2],
          {[pairKey (session1, session2)]} ∪ seen)
    else (clashes, seen).
Proof.
  unfold clashStep, pairClashes, pairKey. cbn [fst snd].
  destruct (String.eqb (courseName session1) (courseName session2)); [reflexivity|].
  destruct (String.eqb (day session1) (day session2)); [|reflexivity].
  destruct (doSessionsOverlap session1 session2); [|reflexivity].
  cbn [negb andb]. case_decide as Hin.
  - rewrite bool_decide_eq_false_2; [reflexivity | tauto].
  - now rewrite bool_decide_eq_true_2.
Qed.

Lemma scan_first ps : forall clashes seen,
  (fold_left (fun st p => clashStep p.1 st p.2) ps (clashes, seen)).1
  = clashes ++ firstClashes seen ps.
Proof.
  induction ps as [|[a b] ps IH]; intros clashes seen; cbn [fold_left firstClashes fst snd].
  - now rewrite app_nil_r.
  - rewrite clashStep_first.
    destruct (pairClashes a b && bool_decide (pairKey (a, b) ∉ seen)).
    + rewrite IH, <- app_assoc. reflexivity.
    + apply IH.
Qed.

(** The output is the list of first clashes of the scan. *)
Lemma detectClashes_first sessions :
  detectClashes sessions = firstClashes ∅ (pairsOf sessions).
Proof. unfold detectClashes. now rewrite clashLoop_pairs, scan_first. Qed.

Lemma clashKey_clashOf a b : clashKey (clashOf a b) = pairKey (a, b).
Proof. reflexivity. Qed.

Lemma pairClashes_names a b :
  pairClashes a b = true -> courseName a <> courseName b.
Proof.
  unfold pairClashes. intros H.
  apply andb_true_iff in H as [H _]. apply andb_true_iff in H as [H _].
  apply negb_true_iff, String.eqb_neq in H. exact H.
Qed.

(** Where an entry of the output comes from. *)
Lemma firstClashes_origin ps : forall seen c,
  c ∈ firstClashes seen ps ->
  exists pre a b post,
    ps = pre ++ (a, b) :: post
    /\ c = clashOf a b
    /\ pairClashes a b = true
    /\ (pairKey (a, b) ∉ seen)
    /\ forall p, p ∈ pre -> pairClashes p.1 p.2 = true -> pairKey p <> pairKey (a, b).
Proof.
  induction ps as [|[a b] ps IH]; intros seen c Hc; cbn [firstClashes fst snd] in Hc.
  - inversion Hc.
  - destruct (pairClashes a b) eqn:Hcl; cbn [andb] in Hc.
    + destruct (bool_decide (pairKey (a, b) ∉ seen)) eqn:Hk.
      * apply bool_decide_eq_true in Hk.
        apply elem_of_cons in Hc as [->|Hc].
        { exists [], a, b, ps. repeat split; auto. intros p Hp. inversion Hp. }
        apply IH in Hc as (pre & a' & b' & post & -> & -> & Hcl' & Hk' & Hpre).
        exists ((a, b) :: pre), a', b', post. repeat split; auto.
        { set_solver. }
        intros p Hp Hpc. apply elem_of_cons in Hp as [->|Hp]; [|auto].
        intros E. apply Hk'. rewrite <- E. set_solver.
      * apply bool_decide_eq_false in Hk.
        apply IH in Hc as (pre & a' & b' & post & -> & -> & Hcl' & Hk' & Hpre).
        exists ((a, b) :: pre), a', b', post. repeat split; auto.
        intros p Hp Hpc. apply elem_of_cons in Hp as [->|Hp]; [|auto].
        intros E. apply Hk. rewrite E. exact Hk'.
    + apply IH in Hc as (pre & a' & b' & post & -> & -> & Hcl' & Hk' & Hpre).
      exists ((a, b) :: pre), a', b', post. repeat split; auto.
      intros p Hp Hpc. apply elem_of_cons in Hp as [->|Hp]; [|auto].
      cbn [fst snd] in Hpc. congruence.
Qed.

Lemma firstClashes_keys_fresh ps : forall seen c,
  c ∈ firstClashes seen ps -> clashKey c ∉ seen.
Proof.
  intros seen c Hc.
  apply firstClashes_origin in Hc as (pre & a & b & post & _ & -> & _ & Hk & _).
  exact Hk.
Qed.

Lemma firstClashes_NoDup ps : forall seen,
  NoDup (map clashKey (firstClashes seen ps)).
Proof.
  induction ps as [|[a b] ps IH]; intros seen; cbn [firstClashes fst snd].
  - constructor.
  - destruct (pairClashes a b && bool_decide (pairKey (a, b) ∉ seen)); [|apply IH].
    cbn [map]. constructor; [|apply IH].
    intros Hin. apply list_elem_of_In, in_map_iff in Hin as (c & Hkc & Hc).
    apply list_elem_of_In, firstClashes_keys_fresh in Hc.
    rewrite Hkc, clashKey_clashOf in Hc. set_solver.
Qed.

Lemma clashKeys_cons p ps :
  clashKeys (p :: ps)
  = if pairClashes p.1 p.2 then {[pairKey p]} ∪ clashKeys ps else clashKeys ps.
Proof.
  unfold clashKeys. cbn [List.filter].
  destruct (pairClashes p.1 p.2); reflexivity.
Qed.

(** The number of entries is the number of distinct new keys. *)
Lemma firstClashes_length ps : forall seen,
  length (firstClashes seen ps) = size (clashKeys ps ∖ seen).
Proof.
  induction ps as [|p ps IH]; intros seen; cbn [firstClashes].
  - unfold clashKeys. cbn. rewrite (leibniz_equiv (∅ ∖ seen) ∅) by set_solver.
    now rewrite size_empty.
  - rewrite clashKeys_cons.
    destruct (pairClashes p.1 p.2); cbn [andb]; [|apply IH].
    destruct (bool_decide (pairKey p ∉ seen)) eqn:Hk.
    + apply bool_decide_eq_true in Hk. cbn [length]. rewrite IH.
      generalize (clashKeys ps) (pairKey p) Hk. clear. intros K k Hk.
      assert (({[k]} ∪ K) ∖ seen = {[k]} ∪ K ∖ ({[k]} ∪ seen)) as ->.
      { apply set_eq. intros x. destruct (decide (x = k)); set_solver. }
      rewrite (size_union (C:=gset string) {[k]}) by set_solver.
      now rewrite size_singleton.
    + apply bool_decide_eq_false in Hk.
      assert (pairKey p ∈ seen) as Hin
          by (destruct (decide (pairKey p ∈ seen)); tauto).
      rewrite IH. f_equal. apply leibniz_equiv.
      generalize (clashKeys ps) (pairKey p) Hin. clear. intros K k Hin.
      set_solver.
Qed.

Lemma elem_of_clashKeys k ps :
  k ∈ clashKeys ps <-> exists p, p ∈ ps /\ pairClashes p.1 p.2 = true /\ pairKey p = k.
Proof.
  unfold clashKeys. rewrite elem_of_list_to_set, list_elem_of_In, in_map_iff.
  split.
  - intros (p & <- & Hp). apply filter_In in Hp as [Hp Hc].
    exists p. rewrite list_elem_of_In. auto.
  - intros (p & Hp & Hc & <-). exists p. split; [reflexivity|].
    apply filter_In. rewrite <- list_elem_of_In. auto.
Qed.

Lemma pairsOf_snoc sessions s p :
  p ∈ pairsOf sessions -> p ∈ pairsOf (sessions ++ [s]).
Proof.
  induction sessions as [|x l IH]; cbn [pairsOf app]; [intros H; inversion H|].
  rewrite !elem_of_app. intros [H|H]; [left|right; auto].
  apply list_elem_of_In, in_map_iff in H as (y & <- & Hy).
  apply list_elem_of_In, in_map_iff. exists y. split; [reflexivity|].
  apply in_or_app. now left.
Qed.

End ClashDetection.

(** C3: no clash is reported between two sessions of the same course: every
    entry of the output has two different course names, and it is the clash of
    a pair of sessions of the list whose course names differ. *)
Theorem detectClashes_distinct_courses (sessions : list TimetableSession) :
  Forall
    (fun c =>
       Clash.course1 c <> Clash.course2 c
       /\ exists a b,
           (a, b) ∈ pairsOf sessions /\ c = clashOf a b
           /\ courseName a <> courseName b)
    (detectClashes sessions).
Proof.
  apply Forall_forall. intros c Hc.
  rewrite detectClashes_first in Hc.
  apply firstClashes_origin in Hc as (pre & a & b & post & Hps & -> & Hcl & _ & _).
  apply pairClashes_names in Hcl. split; [exact Hcl|].
  exists a, b. rewrite Hps. split; [set_solver | auto].
Qed.

(** C4: the output holds at most one clash per day and unordered pair of
    course names: two entries with the same day and the same two course names,
    in either order, are the same entry.  The entry kept is the clash of the
    first pair of the scan, among the clashing pairs with that key. *)
Theorem detectClashes_dedup (sessions : list TimetableSession) :
  (forall i j c c',
      detectClashes sessions !! i = Some c ->
      detectClashes sessions !! j = Some c' ->
      sameTriple c c' -> i = j)
  /\ Forall
       (fun c =>
          exists pre a b post,
            pairsOf sessions = pre ++ (a, b) :: post
            /\ c = clashOf a b
            /\ pairClashes a b = true
            /\ forall p, p ∈ pre -> pairClashes p.1 p.2 = true ->
                         pairKey p <> pairKey (a, b))
       (detectClashes sessions).
Proof.
  rewrite detectClashes_first. split.
  - intros i j c c' Hi Hj [Hday Hpair].
    pose proof (firstClashes_NoDup (pairsOf sessions) ∅) as Hnd.
    assert (Hkey : clashKey c = clashKey c').
    { unfold clashKey. rewrite Hday.
      destruct Hpair as [[-> ->]|[-> ->]]; [reflexivity | apply clashKeyOf_comm]. }
    eapply (proj1 (NoDup_alt _) Hnd i j (clashKey c)).
    + change (map clashKey ?l) with (clashKey <$> l).
      rewrite list_lookup_fmap, Hi. reflexivity.
    + change (map clashKey ?l) with (clashKey <$> l).
      rewrite list_lookup_fmap, Hj, Hkey. reflexivity.
  - apply Forall_forall. intros c Hc.
    apply firstClashes_origin in Hc as (pre & a & b & post & Hps & -> & Hcl & _ & Hpre).
    exists pre, a, b, post. auto.
Qed.

(** C5: appending one session never lowers the number of clashes. *)
Theorem detectClashes_append_monotone
    (sessions : list TimetableSession) (s : TimetableSession) :
  (length (detectClashes sessions) <= length (detectClashes (sessions ++ [s])))%nat.
Proof.
  rewrite !detectClashes_first, !firstClashes_length.
  apply subseteq_size. intros k Hk.
  apply elem_of_difference in Hk as [Hk _].
  apply elem_of_difference. split; [|set_solver].
  apply elem_of_clashKeys in Hk as (p & Hp & Hc & <-).
  apply elem_of_clashKeys. exists p. split; [now apply pairsOf_snoc | auto].
Qed.

(* ===================================================================== *)
(** * Properties of objects *)
(* ===================================================================== *)

Section ObjectFacts.

Context {V : Type}.
Implicit Types (o : JsObject.t V) (k : string) (v : V).

Lemma arrayIndex_inj a b n :
  JsObject.arrayIndex a = Some n -> JsObject.arrayIndex b = Some n -> a = b.
Proof.
  unfold JsObject.arrayIndex.
  destruct (String.eqb (ofZ (parseInt a)) a && (parseInt a <? 4294967295)) eqn:Ea;
    [|discriminate].
  destruct (String.eqb (ofZ (parseInt b)) b && (parseInt b <? 4294967295)) eqn:Eb;
    [|discriminate].
  intros [= Ha] [= Hb].
  apply andb_true_iff in Ea as [Ea _]. apply andb_true_iff in Eb as [Eb _].
  apply String.eqb_eq in Ea, Eb. congruence.
Qed.

Lemma keyBefore_ne a b : keyBefore a b -> a <> b.
Proof.
  unfold keyBefore. intros H ->.
  destruct (JsObject.arrayIndex b); [lia | congruence].
Qed.

Lemma keyBefore_index_trans a b c n :
  JsObject.arrayIndex a = Some n -> keyBefore a b -> keyBefore b c -> keyBefore a c.
Proof.
  unfold keyBefore. intros ->.
  destruct (JsObject.arrayIndex b), (JsObject.arrayIndex c); try tauto; lia.
Qed.

Lemma get_In k o v : JsObject.get k o = Some v -> In (k, v) o.
Proof.
  induction o as [|[k' v'] o IH]; cbn [JsObject.get]; [discriminate|].
  destruct (String.eqb_spec k k') as [->|Hne].
  - intros [= ->]. now left.
  - intros H. right. auto.
Qed.

Lemma get_None k o : JsObject.get k o = None <-> ~ In k (JsObject.keys o).
Proof.
  induction o as [|[k' v'] o IH]; cbn [JsObject.get JsObject.keys map fst In].
  - tauto.
  - destruct (String.eqb_spec k k') as [->|Hne].
    + split; [discriminate | tauto].
    + rewrite IH. unfold JsObject.keys. intuition congruence.
Qed.

Lemma get_Some_key k o v : JsObject.get k o = Some v -> In k (JsObject.keys o).
Proof.
  intros H. apply get_In in H. apply (in_map fst) in H. exact H.
Qed.

Lemma key_get k o : In k (JsObject.keys o) -> exists v, JsObject.get k o = Some v.
Proof.
  intros H. destruct (JsObject.get k o) as [v|] eqn:E; [eauto|].
  apply get_None in E. tauto.
Qed.

Lemma get_app k o o' :
  JsObject.get k (o ++ o')
  = match JsObject.get k o with Some v => Some v | None => JsObject.get k o' end.
Proof.
  induction o as [|[k' v'] o IH]; cbn [JsObject.get app]; [reflexivity|].
  destruct (String.eqb k k'); auto.
Qed.

Lemma keys_replace k v o : JsObject.keys (JsObject.replace k v o) = JsObject.keys o.
Proof.
  induction o as [|[k' v'] o IH]; cbn [JsObject.replace JsObject.keys map]; [reflexivity|].
  destruct (String.eqb_spec k k') as [->|Hne]; cbn [map fst]; [reflexivity|].
  f_equal. exact IH.
Qed.

Lemma get_replace k k' v o :
  JsObject.get k' (JsObject.replace k v o)
  = if String.eqb k' k then
      match JsObject.get k o with Some _ => Some v | None => None end
    else JsObject.get k' o.
Proof.
  induction o as [|[k0 v0] o IH]; cbn [JsObject.replace JsObject.get].
  - now destruct (String.eqb k' k).
  - destruct (String.eqb_spec k k0) as [->|Hne]; cbn [JsObject.get].
    + destruct (String.eqb_spec k' k0); reflexivity.
    + rewrite IH.
      destruct (String.eqb_spec k' k) as [->|Hne'].
      * destruct (String.eqb_spec k k0); [contradiction | reflexivity].
      * reflexivity.
Qed.

Lemma In_replace e k v o : In e (JsObject.replace k v o) -> e = (k, v) \/ In e o.
Proof.
  induction o as [|[k' v'] o IH]; cbn [JsObject.replace]; [tauto|].
  destruct (String.eqb k k'); cbn [In]; intuition.
Qed.

Lemma get_insertIndex n k k' v o :
  JsObject.get k o = None ->
  JsObject.get k' (JsObject.insertIndex n k v o)
  = if String.eqb k' k then Some v else JsObject.get k' o.
Proof.
  induction o as [|[k0 v0] o IH]; cbn [JsObject.insertIndex JsObject.get].
  - intros _. destruct (String.eqb k' k); reflexivity.
  - destruct (String.eqb_spec k k0) as [->|Hne0]; [discriminate|]. intros Hnone.
    destruct (JsObject.arrayIndex k0) as [n0|]; [destruct (n0 <? n)|];
      cbn [JsObject.get]; rewrite ?IH by assumption;
      destruct (String.eqb_spec k' k) as [Heq|Hne]; try reflexivity.
    subst k'. destruct (String.eqb_spec k k0); [contradiction | reflexivity].
Qed.

Lemma In_insertIndex e n k v o :
  In e (JsObject.insertIndex n k v o) <-> e = (k, v) \/ In e o.
Proof.
  induction o as [|[k' v'] o IH]; cbn [JsObject.insertIndex In]; [intuition|].
  destruct (JsObject.arrayIndex k') as [n'|]; [destruct (n' <? n)|];
    cbn [In]; rewrite ?IH; intuition.
Qed.

Lemma get_set k k' v o :
  JsObject.get k' (JsObject.set k v o)
  = if String.eqb k' k then Some v else JsObject.get k' o.
Proof.
  unfold JsObject.set.
  destruct (JsObject.get k o) as [w|] eqn:E.
  - rewrite get_replace, E. reflexivity.
  - destruct (JsObject.arrayIndex k) as [n|].
    + now rewrite get_insertIndex.
    + rewrite get_app. cbn [JsObject.get].
      destruct (String.eqb_spec k' k) as [->|Hne]; [now rewrite E|].
      now destruct (JsObject.get k' o).
Qed.

Lemma In_set e k v o : In e (JsObject.set k v o) -> e = (k, v) \/ In e o.
Proof.
  unfold JsObject.set.
  destruct (JsObject.get k o); [apply In_replace|].
  destruct (JsObject.arrayIndex k); [apply In_insertIndex|].
  rewrite in_app_iff. cbn [In]. intuition.
Qed.

(** *** The order of enumeration is kept *)

Lemma sorted_snoc (l : list string) k :
  StronglySorted keyBefore l -> List.Forall (fun k' => keyBefore k' k) l ->
  StronglySorted keyBefore (l ++ [k]).
Proof.
  induction 1 as [|a l Hs IH Ha]; intros Hk; cbn [app].
  - repeat constructor.
  - inversion Hk as [|? ? Hak Hl]; subst.
    constructor; [auto|].
    apply List.Forall_app. split; [exact Ha | repeat constructor; exact Hak].
Qed.

Lemma enumerated_insertIndex n k v o :
  JsObject.arrayIndex k = Some n -> ~ In k (JsObject.keys o) ->
  enumerated o -> enumerated (JsObject.insertIndex n k v o).
Proof.
  unfold enumerated. intros Hk.
  induction o as [|[k' v'] o IH]; intros Hnew Hs;
    cbn [JsObject.insertIndex JsObject.keys map fst] in *.
  - repeat constructor.
  - inversion Hs as [|? ? Hs' Hall]; subst.
    assert (Hne : k' <> k) by (intros ->; apply Hnew; now left).
    assert (Hnew' : ~ In k (map fst o)) by (intros Hin; apply Hnew; now right).
    destruct (JsObject.arrayIndex k') as [n'|] eqn:Ek'.
    + destruct (n' <? n) eqn:Elt; cbn [map fst].
      * constructor; [now apply IH|].
        apply List.Forall_forall. intros x Hx.
        apply (in_map_iff fst) in Hx as (e & <- & He).
        apply In_insertIndex in He as [->|He]; cbn [fst].
        { unfold keyBefore. rewrite Ek', Hk. lia. }
        { rewrite List.Forall_forall in Hall. apply Hall. now apply in_map. }
      * assert (Hlt : n < n').
        { destruct (Z.eq_dec n n') as [->|]; [|lia].
          exfalso. apply Hne. eapply arrayIndex_inj; eauto. }
        assert (Hkk' : keyBefore k k').
        { unfold keyBefore. rewrite Ek', Hk. exact Hlt. }
        constructor; [constructor; assumption|].
        constructor; [exact Hkk'|].
        eapply List.Forall_impl; [|exact Hall].
        intros x Hx. eapply keyBefore_index_trans; eauto.
    + cbn [map fst]. constructor; [constructor; assumption|].
      assert (Hkk' : keyBefore k k').
      { unfold keyBefore. now rewrite Ek', Hk. }
      constructor; [exact Hkk'|].
      eapply List.Forall_impl; [|exact Hall].
      intros x Hx. eapply keyBefore_index_trans; eauto.
Qed.

Lemma enumerated_set k v o : enumerated o -> enumerated (JsObject.set k v o).
Proof.
  unfold JsObject.set. intros Hs.
  destruct (JsObject.get k o) as [w|] eqn:E.
  - unfold enumerated. now rewrite keys_replace.
  - apply get_None in E.
    destruct (JsObject.arrayIndex k) as [n|] eqn:Ek.
    + now apply enumerated_insertIndex.
    + unfold enumerated, JsObject.keys. rewrite map_app. cbn [map fst].
      apply sorted_snoc; [exact Hs|].
      apply List.Forall_forall. intros x Hx.
      unfold keyBefore. rewrite Ek.
      destruct (JsObject.arrayIndex x); [exact I|].
      intros ->. exact (E Hx).
Qed.

(** *** A key after all the others goes to the end *)

Lemma insertIndex_last n k v o :
  JsObject.arrayIndex k = Some n ->
  List.Forall (fun k' => keyBefore k' k) (JsObject.keys o) ->
  JsObject.insertIndex n k v o = o ++ [(k, v)].
Proof.
  intros Hk. induction o as [|[k' v'] o IH]; intros Hall; [reflexivity|].
  cbn [JsObject.keys map fst] in Hall. inversion Hall as [|? ? Hk' Hrest]; subst.
  cbn [JsObject.insertIndex app].
  unfold keyBefore in Hk'. rewrite Hk in Hk'.
  destruct (JsObject.arrayIndex k') as [n'|]; [|contradiction].
  destruct (Z.ltb_spec n' n); [|lia].
  f_equal. now apply IH.
Qed.

Lemma set_last k v o :
  List.Forall (fun k' => keyBefore k' k) (JsObject.keys o) ->
  JsObject.set k v o = o ++ [(k, v)].
Proof.
  intros Hall. unfold JsObject.set.
  assert (E : JsObject.get k o = None).
  { apply get_None. intros Hin.
    rewrite List.Forall_forall in Hall. apply Hall in Hin.
    now apply keyBefore_ne in Hin. }
  rewrite E.
  destruct (JsObject.arrayIndex k) as [n|] eqn:Ek; [|reflexivity].
  now apply insertIndex_last.
Qed.

Lemma replace_last k v w o :
  ~ In k (JsObject.keys o) ->
  JsObject.replace k v (o ++ [(k, w)]) = o ++ [(k, v)].
Proof.
  induction o as [|[k' v'] o IH]; intros Hnot; cbn [JsObject.replace app].
  - now rewrite String.eqb_refl.
  - cbn [JsObject.keys map fst In] in Hnot.
    destruct (String.eqb_spec k k') as [->|Hne]; [tauto|].
    f_equal. apply IH. unfold JsObject.keys. tauto.
Qed.

Lemma set_at_last k v w o :
  ~ In k (JsObject.keys o) ->
  JsObject.set k v (o ++ [(k, w)]) = o ++ [(k, v)].
Proof.
  intros Hnot. unfold JsObject.set.
  rewrite get_app. apply get_None in Hnot. rewrite Hnot.
  cbn [JsObject.get]. rewrite String.eqb_refl.
  apply replace_last. now apply get_None.
Qed.

End ObjectFacts.

(* ===================================================================== *)
(** * Properties of the normalisation *)
(* ===================================================================== *)

Section Normalisation.

Implicit Types (l g : list TimetableSession) (seen : gset string).
Implicit Types (m : JsObject.t (list TimetableSession)).

Lemma removeDuplicateDaysFrom_fresh l : forall seen,
  freshDays seen (removeDuplicateDaysFrom seen l).
Proof.
  induction l as [|s l IH]; intros seen; cbn [removeDuplicateDaysFrom]; [exact I|].
  case_decide; [apply IH|]. cbn [freshDays]. split; [assumption | apply IH].
Qed.

Lemma freshDays_fixed l : forall seen,
  freshDays seen l -> removeDuplicateDaysFrom seen l = l.
Proof.
  induction l as [|s l IH]; intros seen; cbn [removeDuplicateDaysFrom freshDays];
    [reflexivity|].
  intros [Hs Hl]. case_decide; [contradiction|]. f_equal. now apply IH.
Qed.

Lemma freshDays_firstn n : forall l seen,
  freshDays seen l -> freshDays seen (firstn n l).
Proof.
  induction n as [|n IH]; intros [|s l] seen; cbn [firstn freshDays]; auto.
  intros [Hs Hl]. split; [assumption | now apply IH].
Qed.

Lemma removeDuplicateDaysFrom_In l : forall seen s,
  In s (removeDuplicateDaysFrom seen l) -> In s l.
Proof.
  induction l as [|x l IH]; intros seen s; cbn [removeDuplicateDaysFrom]; [tauto|].
  destruct (decide (dayKey x ∈ seen)) as [Hd|Hd]; cbn [In]; intros Hin; [right; eauto|].
  destruct Hin as [->|Hin]; [now left | right; eauto].
Qed.

Lemma In_firstn {A : Type} n : forall (l : list A) x, In x (firstn n l) -> In x l.
Proof.
  induction n as [|n IH]; intros [|y l] x; cbn [firstn In]; try tauto.
  intros [->|H]; [now left | right; auto].
Qed.

Lemma filter_all {A : Type} (f : A -> bool) (l : list A) :
  List.Forall (fun x => f x = true) l -> List.filter f l = l.
Proof.
  induction 1 as [|x l Hx _ IH]; cbn [List.filter]; [reflexivity|].
  now rewrite Hx, IH.
Qed.

Lemma filter_none {A : Type} (f : A -> bool) (l : list A) :
  List.Forall (fun x => f x = false) l -> List.filter f l = [].
Proof.
  induction 1 as [|x l Hx _ IH]; cbn [List.filter]; [reflexivity|].
  now rewrite Hx, IH.
Qed.

(** The sessions kept of one kind: unique days, then the weekly count. *)
Lemma kept_kind_stable (f : TimetableSession -> bool) n g :
  let kept := firstn n (removeDuplicateDays (List.filter f g)) in
  List.Forall (fun s => f s = true) kept
  /\ firstn n (removeDuplicateDays (List.filter f kept)) = kept.
Proof.
  intros kept.
  assert (Hall : List.Forall (fun s => f s = true) kept).
  { apply List.Forall_forall. intros s Hs.
    apply In_firstn, removeDuplicateDaysFrom_In, filter_In in Hs. tauto. }
  split; [exact Hall|].
  rewrite (filter_all f kept Hall).
  unfold removeDuplicateDays. rewrite freshDays_fixed.
  - unfold kept. rewrite firstn_firstn. now rewrite Nat.min_id.
  - apply freshDays_firstn, removeDuplicateDaysFrom_fresh.
Qed.

Lemma lab_not_class s : isLabType (sessionType s) = true -> isClassType (sessionType s) = false.
Proof. now destruct (sessionType s). Qed.

Lemma class_not_lab s : isClassType (sessionType s) = true -> isLabType (sessionType s) = false.
Proof. now destruct (sessionType s). Qed.

Lemma keptSessions_idem name g :
  keptSessions name (keptSessions name g) = keptSessions name g.
Proof.
  unfold keptSessions.
  destruct (kept_kind_stable (fun s => isLabType (sessionType s))
              EXPECTED_LABS_PER_WEEK g) as [HL HLs].
  destruct (kept_kind_stable (fun s => isClassType (sessionType s))
              EXPECTED_CLASSES_PER_WEEK g) as [HC HCs].
  cbv zeta in HL, HLs, HC, HCs.
  destruct (includes "lab" (toLowerCase name)); [exact HLs|].
  rewrite !List.filter_app.
  rewrite (filter_none (fun s => isClassType (sessionType s))
             (firstn EXPECTED_LABS_PER_WEEK _)).
  2:{ eapply List.Forall_impl; [|exact HL]. intros s. apply lab_not_class. }
  rewrite (filter_none (fun s => isLabType (sessionType s))
             (firstn EXPECTED_CLASSES_PER_WEEK _)).
  2:{ eapply List.Forall_impl; [|exact HC]. intros s. apply class_not_lab. }
  rewrite app_nil_r. cbn [app].
  rewrite (filter_all _ _ HC), (filter_all _ _ HL) in *.
  now rewrite HCs, HLs.
Qed.

Lemma keptSessions_In name g s : In s (keptSessions name g) -> In s g.
Proof.
  unfold keptSessions.
  destruct (includes "lab" (toLowerCase name)); rewrite ?in_app_iff;
    intros H; repeat destruct H as [H|H];
    apply In_firstn, removeDuplicateDaysFrom_In, filter_In in H; tauto.
Qed.

(** *** The grouping loop *)

Lemma groupByCourse_app l1 l2 :
  groupByCourse (l1 ++ l2) = fold_left groupStep l2 (groupByCourse l1).
Proof. unfold groupByCourse. now rewrite fold_left_app. Qed.

Lemma groupStep_invariant m s :
  enumerated m -> namedGroups m ->
  enumerated (groupStep m s) /\ namedGroups (groupStep m s).
Proof.
  intros Hs Hn. unfold groupStep, JsObject.push, JsObject.update, JsObject.ensure.
  set (k := courseName s).
  assert (H1 : enumerated
                 (match JsObject.get k m with Some _ => m | None => JsObject.set k [] m end)
               /\ namedGroups
                    (match JsObject.get k m with Some _ => m | None => JsObject.set k [] m end)).
  { destruct (JsObject.get k m); [auto|]. split; [now apply enumerated_set|].
    intros k' g' Hin. apply In_set in Hin as [[= -> ->]|Hin]; [constructor | eauto]. }
  destruct H1 as [Hs1 Hn1].
  set (m1 := match JsObject.get k m with Some _ => m | None => JsObject.set k [] m end) in *.
  destruct (JsObject.get k m1) as [l|] eqn:E; [|auto].
  split; [now apply enumerated_set|].
  intros k' g' Hin. apply In_set in Hin as [[= -> ->]|Hin]; [|eauto].
  apply List.Forall_app. split; [apply (Hn1 k), get_In, E | repeat constructor].
Qed.

Lemma groupByCourse_invariant l :
  enumerated (groupByCourse l) /\ namedGroups (groupByCourse l).
Proof.
  induction l as [|s l IH] using rev_ind.
  - split; [constructor | intros k g []].
  - rewrite groupByCourse_app. cbn [fold_left].
    destruct IH. now apply groupStep_invariant.
Qed.

Lemma extend_group m k g : forall acc,
  ~ In k (JsObject.keys m) ->
  List.Forall (fun s => courseName s = k) g ->
  fold_left groupStep g (m ++ [(k, acc)]) = m ++ [(k, acc ++ g)].
Proof.
  induction g as [|s g IH]; intros acc Hk Hg; cbn [fold_left].
  - now rewrite app_nil_r.
  - inversion Hg as [|? ? Hs Hg']; subst.
    assert (Hget : JsObject.get (courseName s) (m ++ [(courseName s, acc)]) = Some acc).
    { rewrite get_app. apply get_None in Hk. rewrite Hk.
      cbn [JsObject.get]. now rewrite String.eqb_refl. }
    unfold groupStep at 2. unfold JsObject.push, JsObject.update, JsObject.ensure.
    rewrite Hget, Hget, set_at_last by assumption.
    rewrite IH by assumption. now rewrite <- app_assoc.
Qed.

Lemma add_group m k g :
  List.Forall (fun k' => keyBefore k' k) (JsObject.keys m) ->
  List.Forall (fun s => courseName s = k) g ->
  g <> [] ->
  fold_left groupStep g m = m ++ [(k, g)].
Proof.
  intros Hall Hg Hne. destruct g as [|s g]; [congruence|].
  inversion Hg as [|? ? Hs Hg']; subst.
  assert (Hnot : ~ In (courseName s) (JsObject.keys m)).
  { intros Hin. rewrite List.Forall_forall in Hall. apply Hall in Hin.
    now apply keyBefore_ne in Hin. }
  cbn [fold_left]. unfold groupStep at 2.
  unfold JsObject.push, JsObject.update, JsObject.ensure.
  pose proof Hnot as Hnone. apply get_None in Hnone. rewrite Hnone.
  rewrite set_last by assumption.
  rewrite get_app, Hnone. cbn [JsObject.get]. rewrite String.eqb_refl.
  rewrite set_at_last by assumption. cbn [app].
  now apply extend_group.
Qed.

Lemma sorted_snoc_inv (l : list string) k :
  StronglySorted keyBefore (l ++ [k]) ->
  StronglySorted keyBefore l /\ List.Forall (fun k' => keyBefore k' k) l.
Proof.
  induction l as [|a l IH]; cbn [app]; intros H.
  - split; constructor.
  - inversion H as [|? ? Hs Ha]; subst.
    apply IH in Hs as [Hs Hk]. apply List.Forall_app in Ha as [Ha Hak].
    split; constructor; auto. now inversion Hak.
Qed.

(** Grouping a list that is already laid out group by group, in the order
    of enumeration, gives back the groups, the empty ones apart. *)
Lemma regroup (E : list (string * list TimetableSession)) :
  enumerated E -> namedGroups E ->
  groupByCourse (flat_map snd E) = List.filter nonEmptyGroup E.
Proof.
  induction E as [|[k g] E IH] using rev_ind; intros Hs Hn; [reflexivity|].
  unfold enumerated, JsObject.keys in Hs. rewrite map_app in Hs. cbn [map fst] in Hs.
  apply sorted_snoc_inv in Hs as [Hs Hk].
  assert (Hn' : namedGroups E).
  { intros k' g' Hin. apply (Hn k' g'). apply in_or_app. now left. }
  rewrite flat_map_app, groupByCourse_app, IH by assumption.
  cbn [flat_map snd]. rewrite app_nil_r, List.filter_app.
  cbn [List.filter]. unfold nonEmptyGroup at 3. cbn [snd].
  destruct g as [|s g].
  - cbn [fold_left]. now rewrite app_nil_r.
  - apply add_group; [| |discriminate].
    + apply List.Forall_forall. intros x Hx.
      apply (in_map_iff fst) in Hx as (e & <- & He). apply filter_In in He as [He _].
      rewrite List.Forall_forall in Hk. apply Hk. now apply in_map.
    + apply (Hn k). apply in_or_app. right. now left.
Qed.

Lemma fold_left_flat {A B : Type} (f : A -> list B) (l : list A) : forall acc,
  fold_left (fun acc e => acc ++ f e) l acc = acc ++ flat_map f l.
Proof.
  induction l as [|x l IH]; intros acc; cbn [fold_left flat_map].
  - now rewrite app_nil_r.
  - now rewrite IH, app_assoc.
Qed.

Lemma filterValidSessions_flat l :
  filterValidSessions l
  = flat_map (fun e => keptSessions e.1 e.2) (groupByCourse l).
Proof. unfold filterValidSessions, JsObject.entries. now rewrite fold_left_flat. Qed.

End Normalisation.

(** C9: [filterValidSessions] is idempotent: applied to its own output it
    returns that output, the same sessions in the same order. *)
Theorem filterValidSessions_idempotent (sessions : list TimetableSession) :
  filterValidSessions (filterValidSessions sessions) = filterValidSessions sessions.
Proof.
  rewrite (filterValidSessions_flat sessions).
  destruct (groupByCourse_invariant sessions) as [Hs Hn].
  set (E := groupByCourse sessions) in *.
  set (E2 := map (fun e => (e.1, keptSessions e.1 e.2)) E).
  assert (Hflat : flat_map (fun e => keptSessions e.1 e.2) E = flat_map snd E2).
  { unfold E2. rewrite flat_map_concat_map, flat_map_concat_map, map_map. reflexivity. }
  rewrite Hflat, filterValidSessions_flat, regroup.
  - unfold E2. clear. induction E as [|[k g] E IH]; [reflexivity|].
    cbn [map List.filter flat_map fst snd]. unfold nonEmptyGroup at 1. cbn [snd].
    destruct (keptSessions k g) eqn:Ek.
    + exact IH.
    + cbn [flat_map fst snd]. rewrite <- Ek, keptSessions_idem, IH. reflexivity.
  - unfold enumerated, E2, JsObject.keys. rewrite map_map. cbn [fst]. exact Hs.
  - intros k g Hin. unfold E2 in Hin.
    apply in_map_iff in Hin as ([k0 g0] & [= <- <-] & Hin). cbn [fst snd].
    apply List.Forall_forall. intros s Hsin. apply keptSessions_In in Hsin.
    specialize (Hn k0 g0 Hin). rewrite List.Forall_forall in Hn. auto.
Qed.

(* ===================================================================== *)
(** * Properties of the search *)
(* ===================================================================== *)

Section Search.

Variable courseSessionsMap : SectionMap.

Lemma num_le_refl a : num_le a a.
Proof. destruct a; cbn; [lia | exact I]. Qed.

Lemma num_le_trans a b c : num_le a b -> num_le b c -> num_le a c.
Proof. destruct a, b, c; cbn; try tauto; lia. Qed.

Lemma isBetterSchedule_true c b :
  isBetterSchedule c b = true ->
  num_le (CombinationResult.clashCount c) (CombinationResult.clashCount b).
Proof.
  unfold isBetterSchedule.
  destruct (CombinationResult.clashCount c) as [x|], (CombinationResult.clashCount b) as [y|];
    cbn; try (discriminate || tauto).
  destruct (Z.ltb_spec x y); [lia|]. destruct (Z.ltb_spec y x); [discriminate | lia].
Qed.

Lemma isBetterSchedule_false c b :
  isBetterSchedule c b = false ->
  num_le (CombinationResult.clashCount b) (CombinationResult.clashCount c).
Proof.
  unfold isBetterSchedule.
  destruct (CombinationResult.clashCount c) as [x|], (CombinationResult.clashCount b) as [y|];
    cbn; try (discriminate || tauto).
  destruct (Z.ltb_spec x y); [discriminate | lia].
Qed.

Lemma findBestCombination_cons option later index asg sched best :
  findBestCombination (option :: later) courseSessionsMap index asg sched best
  = fold_left
      (trySection later courseSessionsMap index (CourseOption.courseName option) asg sched)
      (CourseOption.sections option)
      (match best with Some b => b | None => noResult end).
Proof. reflexivity. Qed.

Lemma pathValid_cons o later secs :
  pathValid (o :: later) secs <->
  exists sec path, secs = sec :: path /\ In sec (CourseOption.sections o)
                   /\ pathValid later path.
Proof.
  unfold pathValid. split.
  - intros H. inversion H; subst. eauto.
  - intros (sec & path & -> & Hin & Hp). now constructor.
Qed.

Lemma pathValid_nil secs : pathValid [] secs <-> secs = [].
Proof.
  unfold pathValid. split; [intros H; now inversion H | intros ->; constructor].
Qed.

Lemma pathSessions_nil secs : pathSessions courseSessionsMap [] secs = [].
Proof. reflexivity. Qed.

Lemma searchSpec_nil : searchSpec courseSessionsMap [].
Proof.
  intros index asg sched best r. subst r. cbn [findBestCombination]. split.
  - right. exists []. split; [constructor|].
    rewrite pathSessions_nil, app_nil_r. split; reflexivity.
  - intros secs Hs. rewrite pathSessions_nil, app_nil_r. apply num_le_refl.
Qed.

Lemma leafCount_nonneg sched : num_le (Num 0) (leafCount sched).
Proof. unfold leafCount. cbn. lia. Qed.

(** One round of the loop over the sections. *)
Lemma trySection_spec later index name asg sched acc sec :
  searchSpec courseSessionsMap later ->
  let acc' := trySection later courseSessionsMap index name asg sched acc sec in
  num_le (CombinationResult.clashCount acc') (CombinationResult.clashCount acc)
  /\ (acc' = acc
      \/ exists path, pathValid later path
           /\ isLeafOf acc'
                (sched ++ sectionSessionsOf courseSessionsMap name sec
                       ++ pathSessions courseSessionsMap later path))
  /\ forall path, pathValid later path ->
       num_le (CombinationResult.clashCount acc')
              (leafCount (sched ++ sectionSessionsOf courseSessionsMap name sec
                                ++ pathSessions courseSessionsMap later path)).
Proof.
  intros IH acc'. subst acc'. unfold trySection.
  destruct (num_is (CombinationResult.clashCount acc) 0 && (1 <=? index)%nat
            && (0 <? length (detectClashes (filterValidSessions
                   (sched ++ sectionSessionsOf courseSessionsMap name sec))))%nat) eqn:Ep.
  - split; [apply num_le_refl | split; [now left|]].
    intros path _.
    apply andb_true_iff in Ep as [Ep _]. apply andb_true_iff in Ep as [Ep _].
    destruct (CombinationResult.clashCount acc) as [x|]; [|discriminate].
    cbn in Ep. apply Z.eqb_eq in Ep. subst x. apply leafCount_nonneg.
  - specialize (IH (S index) (JsObject.set name sec asg)
                   (sched ++ sectionSessionsOf courseSessionsMap name sec) (Some acc)).
    cbv zeta in IH. destruct IH as [HA HB].
    set (result := findBestCombination later courseSessionsMap (S index)
                     (JsObject.set name sec asg)
                     (sched ++ sectionSessionsOf courseSessionsMap name sec)
                     (Some acc)) in *.
    destruct (isBetterSchedule result acc) eqn:Eb.
    + split; [now apply isBetterSchedule_true|]. split.
      * destruct HA as [[_ ->]|(path & Hp & Hleaf)]; [now left|right].
        exists path. split; [exact Hp|]. now rewrite app_assoc.
      * intros path Hp. rewrite app_assoc. now apply HB.
    + split; [apply num_le_refl | split; [now left|]].
      intros path Hp. eapply num_le_trans; [apply (isBetterSchedule_false _ _ Eb)|].
      rewrite app_assoc. now apply HB.
Qed.

Lemma sectionLoop_spec later index name asg sched :
  searchSpec courseSessionsMap later ->
  forall secs acc,
    let r := fold_left (trySection later courseSessionsMap index name asg sched) secs acc in
    num_le (CombinationResult.clashCount r) (CombinationResult.clashCount acc)
    /\ (r = acc
        \/ exists sec path, In sec secs /\ pathValid later path
             /\ isLeafOf r
                  (sched ++ sectionSessionsOf courseSessionsMap name sec
                         ++ pathSessions courseSessionsMap later path))
    /\ forall sec path, In sec secs -> pathValid later path ->
         num_le (CombinationResult.clashCount r)
                (leafCount (sched ++ sectionSessionsOf courseSessionsMap name sec
                                  ++ pathSessions courseSessionsMap later path)).
Proof.
  intros IHlater. induction secs as [|sec secs IH]; intros acc r; subst r; cbn [fold_left].
  - split; [apply num_le_refl | split; [now left | intros ? ? []]].
  - destruct (trySection_spec later index name asg sched acc sec IHlater)
      as (Hle & Hor & Hmin).
    set (acc' := trySection later courseSessionsMap index name asg sched acc sec) in *.
    destruct (IH acc') as (Hle' & Hor' & Hmin').
    set (r := fold_left _ secs acc') in *.
    split; [eapply num_le_trans; eauto|]. split.
    + destruct Hor' as [->|(sec' & path & Hin & Hp & Hleaf)].
      * destruct Hor as [->|(path & Hp & Hleaf)]; [now left|right].
        exists sec, path. split; [now left | auto].
      * right. exists sec', path. split; [now right | auto].
    + intros sec' path [<-|Hin] Hp.
      * eapply num_le_trans; [exact Hle' | now apply Hmin].
      * now apply Hmin'.
Qed.

Lemma pathSessions_cons o later sec path :
  pathSessions courseSessionsMap (o :: later) (sec :: path)
  = sectionSessionsOf courseSessionsMap (CourseOption.courseName o) sec
    ++ pathSessions courseSessionsMap later path.
Proof. reflexivity. Qed.

Lemma findBestCombination_spec opts : searchSpec courseSessionsMap opts.
Proof.
  induction opts as [|o later IH]; [apply searchSpec_nil|].
  intros index asg sched best r. subst r. rewrite findBestCombination_cons.
  destruct (sectionLoop_spec later index (CourseOption.courseName o) asg sched IH
              (CourseOption.sections o)
              (match best with Some b => b | None => noResult end))
    as (_ & Hor & Hmin).
  split.
  - destruct Hor as [Heq|(sec & path & Hin & Hp & Hleaf)].
    + left. split; [discriminate | exact Heq].
    + right. exists (sec :: path). split; [apply pathValid_cons; eauto|].
      now rewrite pathSessions_cons.
  - intros secs Hs. apply pathValid_cons in Hs as (sec & path & -> & Hin & Hp).
    rewrite pathSessions_cons. now apply Hmin.
Qed.

Lemma pathValid_exists opts :
  List.Forall (fun o => CourseOption.sections o <> []) opts ->
  exists secs, pathValid opts secs.
Proof.
  induction 1 as [|o opts Ho _ [secs IH]]; [exists []; constructor|].
  destruct (CourseOption.sections o) as [|sec rest] eqn:E; [congruence|].
  exists (sec :: secs). constructor; [rewrite E; now left | exact IH].
Qed.

(** The whole search: with a section to choose for every course, the result
    is the result of some complete assignment and no complete assignment has
    fewer clashes. *)
Lemma search_minimum opts :
  List.Forall (fun o => CourseOption.sections o <> []) opts ->
  let r := findBestCombination opts courseSessionsMap 0 JsObject.empty [] None in
  (exists secs, pathValid opts secs
                /\ isLeafOf r (pathSessions courseSessionsMap opts secs))
  /\ forall secs, pathValid opts secs ->
       num_le (CombinationResult.clashCount r)
              (leafCount (pathSessions courseSessionsMap opts secs)).
Proof.
  intros Hne r.
  destruct (findBestCombination_spec opts 0%nat JsObject.empty [] None) as [HA HB].
  fold r in HA, HB. cbn [app] in HA, HB. split; [|exact HB].
  destruct HA as [[_ Heq]|HA]; [|exact HA].
  destruct (pathValid_exists opts Hne) as [secs Hs].
  specialize (HB secs Hs). rewrite Heq in HB. cbn in HB. contradiction.
Qed.

End Search.

(* ===================================================================== *)
(** * Properties of the grouping by course and section *)
(* ===================================================================== *)

Section SectionGrouping.

Lemma get_update_ensure {V : Type} k k' (f : V -> V) (init : V) (o : JsObject.t V) :
  JsObject.get k' (JsObject.update k f (JsObject.ensure k init o))
  = if String.eqb k' k
    then Some (f (match JsObject.get k o with Some v => v | None => init end))
    else JsObject.get k' o.
Proof.
  unfold JsObject.update, JsObject.ensure.
  destruct (JsObject.get k o) as [v|] eqn:E.
  - rewrite E, get_set. reflexivity.
  - rewrite (get_set k k), String.eqb_refl, !get_set.
    destruct (String.eqb k' k); reflexivity.
Qed.

Lemma existsb_eqb c (l : list string) : existsb (String.eqb c) l = true <-> In c l.
Proof.
  rewrite existsb_exists. split.
  - intros (x & Hx & E). apply String.eqb_eq in E. now subst.
  - intros H. exists c. split; [exact H | apply String.eqb_refl].
Qed.

Variable selected : list string.

Lemma groupBySection_snoc l s :
  groupBySection (l ++ [s]) selected = sectionStep selected (groupBySection l selected) s.
Proof. unfold groupBySection. now rewrite fold_left_app. Qed.

Lemma lookup_sectionStep m s c sec :
  lookupSection (sectionStep selected m s) c sec
  = if existsb (String.eqb (courseName s)) selected && matchesSection c sec s
    then Some (match lookupSection m c sec with Some l => l | None => [] end ++ [s])
    else lookupSection m c sec.
Proof.
  unfold sectionStep, lookupSection, matchesSection.
  destruct (existsb (String.eqb (courseName s)) selected); cbn [negb andb];
    [|reflexivity].
  rewrite get_update_ensure. rewrite (String.eqb_sym (courseName s) c).
  destruct (String.eqb_spec c (courseName s)) as [->|Hne]; cbn [andb]; [|reflexivity].
  unfold JsObject.push. rewrite get_update_ensure.
  rewrite (String.eqb_sym (section s) sec).
  destruct (String.eqb_spec sec (section s)) as [->|Hne].
  - destruct (JsObject.get (courseName s) m); reflexivity.
  - destruct (JsObject.get (courseName s) m); reflexivity.
Qed.

(** The grouped map holds, under a selected course and a section, the
    sessions of that course and section. *)
Lemma groupBySection_lookup allSessions c sec :
  lookupSection (groupBySection allSessions selected) c sec
  = if existsb (String.eqb c) selected
    then match sessionsFor allSessions c sec with [] => None | x :: l => Some (x :: l) end
    else None.
Proof.
  induction allSessions as [|s l IH] using rev_ind.
  - cbn. now destruct (existsb (String.eqb c) selected).
  - rewrite groupBySection_snoc, lookup_sectionStep, IH.
    unfold sessionsFor. rewrite List.filter_app. cbn [List.filter].
    destruct (matchesSection c sec s) eqn:Em.
    + assert (courseName s = c) as Hc.
      { unfold matchesSection in Em. apply andb_true_iff in Em as [Em _].
        now apply String.eqb_eq in Em. }
      rewrite Hc, andb_true_r.
      destruct (existsb (String.eqb c) selected); [|reflexivity].
      destruct (List.filter (matchesSection c sec) l); reflexivity.
    + rewrite andb_false_r, app_nil_r. reflexivity.
Qed.

Lemma sectionSessionsOf_spec allSessions c sec :
  In c selected ->
  sectionSessionsOf (groupBySection allSessions selected) c sec
  = sessionsFor allSessions c sec.
Proof.
  intros Hc. apply existsb_eqb in Hc.
  pose proof (groupBySection_lookup allSessions c sec) as H.
  unfold lookupSection in H. unfold sectionSessionsOf. rewrite Hc in H.
  destruct (JsObject.get c (groupBySection allSessions selected)) as [o|].
  - rewrite H. now destruct (sessionsFor allSessions c sec).
  - now destruct (sessionsFor allSessions c sec).
Qed.

Lemma sessionsFor_nonempty allSessions c sec :
  sessionsFor allSessions c sec <> []
  <-> exists s, In s allSessions /\ courseName s = c /\ section s = sec.
Proof.
  unfold sessionsFor. split.
  - destruct (List.filter (matchesSection c sec) allSessions) as [|s l] eqn:E;
      [congruence|]. intros _.
    assert (Hin : In s (List.filter (matchesSection c sec) allSessions))
      by (rewrite E; now left).
    apply filter_In in Hin as [Hin Hm]. unfold matchesSection in Hm.
    apply andb_true_iff in Hm as [H1 H2]. apply String.eqb_eq in H1, H2. eauto.
  - intros (s & Hin & <- & <-) E.
    assert (Hf : In s (List.filter (matchesSection (courseName s) (section s)) allSessions)).
    { apply filter_In. split; [exact Hin|].
      unfold matchesSection. now rewrite !String.eqb_refl. }
    rewrite E in Hf. destruct Hf.
Qed.

(** The sections the search may choose are the offered ones. *)
Lemma availableSectionsOf_spec allSessions excluded c sec :
  In c selected ->
  In sec (availableSectionsOf (groupBySection allSessions selected) excluded c)
  <-> sectionOffered allSessions excluded c sec.
Proof.
  intros Hc. apply existsb_eqb in Hc.
  unfold availableSectionsOf, sectionOffered. fold (excludedFor excluded c).
  rewrite filter_In, negb_true_iff, <- sessionsFor_nonempty.
  rewrite <- not_true_iff_false, existsb_eqb.
  pose proof (groupBySection_lookup allSessions c sec) as H.
  unfold lookupSection in H. rewrite Hc in H.
  destruct (JsObject.get c (groupBySection allSessions selected)) as [o|].
  - assert (In sec (JsObject.keys o) <-> sessionsFor allSessions c sec <> []) as ->;
      [|tauto].
    destruct (sessionsFor allSessions c sec) as [|x l].
    + apply get_None in H. split; [tauto | congruence].
    + apply get_Some_key in H. split; [discriminate | tauto].
  - destruct (sessionsFor allSessions c sec); [|discriminate].
    cbn. tauto.
Qed.

End SectionGrouping.

Section CourseOptions.

Variables (courseSessionsMap : SectionMap) (excluded : JsObject.t (list string)).

(** The two ways out of the loop that fills [courseOptions]. *)
Lemma collectCourseOptions_spec names : forall acc,
  match collectCourseOptions names courseSessionsMap excluded acc with
  | inr opts =>
      opts = acc ++ optionsOf courseSessionsMap excluded names
      /\ List.Forall (fun c => availableSectionsOf courseSessionsMap excluded c <> []) names
  | inl r =>
      exists before c after,
        names = before ++ c :: after
        /\ List.Forall (fun c' => availableSectionsOf courseSessionsMap excluded c' <> [])
                       before
        /\ availableSectionsOf courseSessionsMap excluded c = []
        /\ r = noSectionsResult c
  end.
Proof.
  induction names as [|c names IH]; intros acc; cbn [collectCourseOptions].
  - unfold optionsOf. cbn. now rewrite app_nil_r.
  - destruct (availableSectionsOf courseSessionsMap excluded c) as [|sec secs] eqn:E.
    + cbn. exists [], c, names. repeat split; auto.
    + cbn [length Nat.eqb].
      specialize (IH (acc ++ [CourseOption.mk c (sec :: secs)])).
      destruct (collectCourseOptions names courseSessionsMap excluded
                  (acc ++ [CourseOption.mk c (sec :: secs)])) as [r|opts].
      * destruct IH as (before & c0 & after & -> & Hb & Hc0 & ->).
        exists (c :: before), c0, after. repeat split; auto.
        constructor; [congruence | exact Hb].
      * destruct IH as [-> Hall]. split.
        { unfold optionsOf. cbn [map]. rewrite E, <- app_assoc. reflexivity. }
        { constructor; [congruence | exact Hall]. }
Qed.

End CourseOptions.

Section OptimalSchedule.

Variables (allSessions : list TimetableSession) (selected : list string)
          (excluded : JsObject.t (list string)).

Local Abbreviation courseSessionsMap := (groupBySection allSessions selected).

Lemma available_nonempty c :
  In c selected ->
  availableSectionsOf courseSessionsMap excluded c <> []
  <-> exists sec, sectionOffered allSessions excluded c sec.
Proof.
  intros Hc. split.
  - destruct (availableSectionsOf courseSessionsMap excluded c) as [|sec l] eqn:E;
      [congruence|]. intros _. exists sec.
    apply (availableSectionsOf_spec selected allSessions excluded c sec Hc).
    fold courseSessionsMap. rewrite E. now left.
  - intros [sec Hsec] E.
    apply (availableSectionsOf_spec selected allSessions excluded c sec Hc) in Hsec.
    fold courseSessionsMap in Hsec. rewrite E in Hsec. destruct Hsec.
Qed.

Lemma pathValid_optionsOf names : forall secs,
  (forall c, In c names -> In c selected) ->
  pathValid (optionsOf courseSessionsMap excluded names) secs
  <-> validAssignment allSessions excluded names secs.
Proof.
  unfold validAssignment.
  induction names as [|c names IH]; intros secs Hsub.
  - rewrite pathValid_nil. split; [intros ->; constructor | intros H; now inversion H].
  - unfold optionsOf. cbn [map]. fold (optionsOf courseSessionsMap excluded names).
    rewrite pathValid_cons. cbn [CourseOption.sections]. split.
    + intros (sec & path & -> & Hin & Hp). constructor.
      * apply (availableSectionsOf_spec selected allSessions excluded c sec); auto.
        apply Hsub. now left.
      * apply IH; [|exact Hp]. intros c' Hc'. apply Hsub. now right.
    + intros H. inversion H as [|? sec ? path Ho Hrest]; subst.
      exists sec, path. split; [reflexivity|]. split.
      * apply (availableSectionsOf_spec selected allSessions excluded c sec) in Ho; auto.
        apply Hsub. now left.
      * apply IH; [|exact Hrest]. intros c' Hc'. apply Hsub. now right.
Qed.

Lemma pathSessions_optionsOf names : forall secs,
  (forall c, In c names -> In c selected) ->
  pathSessions courseSessionsMap (optionsOf courseSessionsMap excluded names) secs
  = assignmentSessions allSessions names secs.
Proof.
  induction names as [|c names IH]; intros [|sec secs] Hsub; try reflexivity.
  unfold optionsOf. cbn [map]. fold (optionsOf courseSessionsMap excluded names).
  rewrite pathSessions_cons. cbn [CourseOption.courseName].
  unfold assignmentSessions. cbn [combine flat_map fst snd].
  fold (assignmentSessions allSessions names secs).
  rewrite <- IH by (intros c' Hc'; apply Hsub; now right).
  f_equal. apply sectionSessionsOf_spec. apply Hsub. now left.
Qed.

Lemma reportBest_leaf r sched :
  isLeafOf r sched ->
  schedule (reportBest r) = CombinationResult.schedule r
  /\ (success (reportBest r) = true
      <-> length (detectClashes (CombinationResult.schedule r)) = 0%nat)
  /\ clashes (reportBest r) = detectClashes (CombinationResult.schedule r).
Proof.
  intros [Hs Hc]. unfold reportBest. rewrite Hc. unfold leafCount.
  rewrite <- Hs. cbn [num_is].
  destruct (Z.eqb_spec (Z.of_nat (length (detectClashes (CombinationResult.schedule r)))) 0)
    as [E|E]; cbn [schedule success clashes].
  - assert (E' : length (detectClashes (CombinationResult.schedule r)) = 0%nat) by lia.
    split; [reflexivity|]. split; [tauto|].
    symmetry. now apply length_zero_iff_nil.
  - split; [reflexivity|]. split; [|reflexivity].
    split; [discriminate | lia].
Qed.

End OptimalSchedule.

(** C6: when a selected course has no available section (each of its sessions
    is of an excluded section, or it has no session), the loop that collects
    the options returns early, before any combination is tried: the result has
    [success = false], an empty schedule, no assignment, no clash, and a
    message that names the first selected course without available section. *)
Theorem findOptimalSchedule_no_sections
    (allSessions : list TimetableSession) (selected : list string)
    (excluded : JsObject.t (list string)) (c : string) :
  In c selected ->
  (forall s, In s allSessions -> courseName s = c ->
             In (section s) (excludedFor excluded c)) ->
  exists before c0 after,
    selected = before ++ c0 :: after
    /\ List.Forall (fun c' => exists sec, sectionOffered allSessions excluded c' sec) before
    /\ (forall s, In s allSessions -> courseName s = c0 ->
                  In (section s) (excludedFor excluded c0))
    /\ collectCourseOptions selected (groupBySection allSessions selected) excluded []
       = inl (noSectionsResult c0)
    /\ findOptimalSchedule allSessions selected excluded
       = mkResult false [] JsObject.empty []
           ("No available sections for " ++ dquote ++ c0 ++ dquote
            ++ " after exclusions. Please remove some exclusions.")%string.
Proof.
  intros Hc Hall.
  assert (Hnone : ~ exists sec, sectionOffered allSessions excluded c sec).
  { intros (sec & (s & Hin & Hn & Hs) & Hex). apply Hex. rewrite <- Hs. auto. }
  pose proof (collectCourseOptions_spec (groupBySection allSessions selected)
                excluded selected []) as Hspec.
  unfold findOptimalSchedule.
  destruct (collectCourseOptions selected (groupBySection allSessions selected) excluded [])
    as [r|opts].
  - destruct Hspec as (before & c0 & after & Hsel & Hb & Hc0 & ->).
    exists before, c0, after.
    assert (Hin0 : In c0 selected) by (rewrite Hsel; apply in_or_app; right; now left).
    split; [exact Hsel|]. split; [|split; [|split; reflexivity]].
    + apply List.Forall_forall. intros c' Hc'.
      rewrite List.Forall_forall in Hb.
      apply (available_nonempty allSessions selected excluded c');
        [rewrite Hsel; apply in_or_app; now left | auto].
    + intros s Hs Hn.
      destruct (in_dec string_dec (section s) (excludedFor excluded c0)) as [|Hex];
        [assumption|].
      exfalso.
      assert (Hoff : sectionOffered allSessions excluded c0 (section s)).
      { split; [exists s; auto | exact Hex]. }
      apply (availableSectionsOf_spec selected allSessions excluded c0 _ Hin0) in Hoff.
      rewrite Hc0 in Hoff. destruct Hoff.
  - exfalso. destruct Hspec as [_ Hne].
    rewrite List.Forall_forall in Hne. specialize (Hne c Hc).
    apply (available_nonempty allSessions selected excluded c Hc) in Hne. auto.
Qed.

Lemma findOptimalSchedule_no_sections_witness :
  exists before c0 after,
    ["DS"; "OOP"] = before ++ c0 :: after
    /\ List.Forall
         (fun c' => exists sec, sectionOffered sampleSessions sampleExclusions c' sec) before
    /\ (forall s, In s sampleSessions -> courseName s = c0 ->
                  In (section s) (excludedFor sampleExclusions c0))
    /\ collectCourseOptions ["DS"; "OOP"] (groupBySection sampleSessions ["DS"; "OOP"])
         sampleExclusions []
       = inl (noSectionsResult c0)
    /\ findOptimalSchedule sampleSessions ["DS"; "OOP"] sampleExclusions
       = mkResult false [] JsObject.empty []
           ("No available sections for " ++ dquote ++ c0 ++ dquote
            ++ " after exclusions. Please remove some exclusions.")%string.
Proof.
  apply (findOptimalSchedule_no_sections sampleSessions ["DS"; "OOP"] sampleExclusions "OOP").
  - cbn. auto.
  - intros s [<-|[<-|[<-|[]]]]; vm_compute; intros H; try discriminate H; auto.
Defined.

(** C1: when every selected course keeps a section that is not excluded, the
    schedule returned by [findOptimalSchedule] is the normalised session list
    of an assignment of one available section to each selected course, and no
    such assignment has fewer clashes than the returned schedule: its clash
    count is the minimum.  [success] is true exactly when that count is 0, and
    the [clashes] field is [detectClashes] of the returned schedule. *)
Theorem findOptimalSchedule_minimum
    (allSessions : list TimetableSession) (selected : list string)
    (excluded : JsObject.t (list string)) :
  (forall c, In c selected -> exists sec, sectionOffered allSessions excluded c sec) ->
  let r := findOptimalSchedule allSessions selected excluded in
  (exists secs,
      validAssignment allSessions excluded selected secs
      /\ schedule r = filterValidSessions (assignmentSessions allSessions selected secs)
      /\ length (detectClashes (schedule r)) = assignmentClashes allSessions selected secs)
  /\ (forall secs,
        validAssignment allSessions excluded selected secs ->
        (length (detectClashes (schedule r))
         <= assignmentClashes allSessions selected secs)%nat)
  /\ (success r = true <-> length (detectClashes (schedule r)) = 0%nat)
  /\ clashes r = detectClashes (schedule r).
Proof.
  intros Hoffer r. subst r. unfold findOptimalSchedule.
  pose proof (collectCourseOptions_spec (groupBySection allSessions selected)
                excluded selected []) as Hspec.
  destruct (collectCourseOptions selected (groupBySection allSessions selected) excluded [])
    as [r|opts].
  { exfalso. destruct Hspec as (before & c0 & after & Hsel & _ & Hc0 & _).
    assert (Hin0 : In c0 selected) by (rewrite Hsel; apply in_or_app; right; now left).
    apply (available_nonempty allSessions selected excluded c0 Hin0); auto. }
  destruct Hspec as [Hopts Hne]. cbn [app] in Hopts. subst opts.
  destruct (search_minimum (groupBySection allSessions selected)
              (optionsOf (groupBySection allSessions selected) excluded selected))
    as [(secs & Hvalid & Hleaf) Hmin].
  { apply List.Forall_forall. intros o Ho. unfold optionsOf in Ho.
    apply in_map_iff in Ho as (c & <- & Hc). cbn [CourseOption.sections].
    rewrite List.Forall_forall in Hne. auto. }
  set (best := findBestCombination _ _ 0%nat JsObject.empty [] None) in *.
  destruct (reportBest_leaf best _ Hleaf) as (Hsched & Hsucc & Hclashes).
  rewrite Hsched. rewrite pathSessions_optionsOf in Hleaf by auto.
  destruct Hleaf as [Hs Hc].
  split; [|split; [|split; assumption]].
  - exists secs. split.
    { apply (proj1 (pathValid_optionsOf allSessions selected excluded selected secs
                      (fun c H => H))). exact Hvalid. }
    split; [exact Hs|]. unfold assignmentClashes. now rewrite Hs.
  - intros secs' Hvalid'.
    apply (proj2 (pathValid_optionsOf allSessions selected excluded selected secs'
                    (fun c H => H))) in Hvalid'.
    specialize (Hmin secs' Hvalid').
    rewrite pathSessions_optionsOf in Hmin by auto.
    rewrite Hc in Hmin. unfold leafCount in Hmin. cbn [num_le] in Hmin.
    unfold assignmentClashes. rewrite Hs. lia.
Qed.

Lemma findOptimalSchedule_minimum_witness :
  let r := findOptimalSchedule sampleSessions ["DS"; "OOP"] JsObject.empty in
  (exists secs,
      validAssignment sampleSessions JsObject.empty ["DS"; "OOP"] secs
      /\ schedule r = filterValidSessions (assignmentSessions sampleSessions ["DS"; "OOP"] secs)
      /\ length (detectClashes (schedule r))
         = assignmentClashes sampleSessions ["DS"; "OOP"] secs)
  /\ (forall secs,
        validAssignment sampleSessions JsObject.empty ["DS"; "OOP"] secs ->
        (length (detectClashes (schedule r))
         <= assignmentClashes sampleSessions ["DS"; "OOP"] secs)%nat)
  /\ (success r = true <-> length (detectClashes (schedule r)) = 0%nat)
  /\ clashes r = detectClashes (schedule r).
Proof.
  apply (findOptimalSchedule_minimum sampleSessions ["DS"; "OOP"] JsObject.empty).
  intros c [<-|[<-|[]]].
  - exists "A". split; [|cbn; tauto].
    exists (sampleSession "DS" "A" "Monday" "09:00-10:45"). cbn. auto.
  - exists "B". split; [|cbn; tauto].
    exists (sampleSession "OOP" "B" "Tuesday" "10:00-11:00"). cbn. auto.
Defined.

(** *** The search on the sample timetable *)

Example sample_clash :
  map Clash.day (detectClashes (firstn 2 sampleSessions)) = ["Monday"].
Proof. vm_compute. reflexivity. Qed.

Example sample_search :
  let r := findOptimalSchedule sampleSessions ["DS"; "OOP"] JsObject.empty in
  success r = true
  /\ assignments r = [("DS", "A"); ("OOP", "B")]
  /\ message r = "Found a clash-free schedule! No gaps between classes!".
Proof. vm_compute. repeat split; reflexivity. Qed.

Example sample_search_forced :
  let r := findOptimalSchedule sampleSessions ["DS"; "OOP"] [("OOP", ["B"])] in
  success r = false
  /\ assignments r = [("DS", "A"); ("OOP", "A")]
  /\ map (fun c => (Clash.course1 c, Clash.course2 c)) (clashes r) = [("DS", "OOP")].
Proof. vm_compute. repeat split; reflexivity. Qed.

(** Keys that are array indices come first, in numeric order. *)
Example enumeration_order :
  JsObject.keys
    (JsObject.set "2" 0 (JsObject.set "b" 0 (JsObject.set "10" 0 (JsObject.set "a" 0 []))))
  = ["2"; "10"; "a"; "b"].
Proof. vm_compute. reflexivity. Qed.

(* ===================================================================== *)
(** * Further properties of clash detection *)
(* ===================================================================== *)

Section ClashSets.

Implicit Types (l : list TimetableSession) (a b : TimetableSession).

Lemma doTimeSlotsOverlap_comm (slot1 slot2 : string) :
  doTimeSlotsOverlap slot1 slot2 = doTimeSlotsOverlap slot2 slot1.
Proof.
  unfold doTimeSlotsOverlap.
  rewrite (orb_comm (start (parseTimeSlot slot1) =? 9999)).
  destruct ((start (parseTimeSlot slot2) =? 9999) || (start (parseTimeSlot slot1) =? 9999));
    [reflexivity|].
  f_equal. apply orb_comm.
Qed.

Lemma doSessionsOverlap_comm a b : doSessionsOverlap a b = doSessionsOverlap b a.
Proof.
  unfold doSessionsOverlap.
  rewrite (andb_comm (negb (startMinutes a =? 9999))).
  destruct (negb (startMinutes b =? 9999) && negb (startMinutes a =? 9999)).
  - f_equal. apply orb_comm.
  - apply doTimeSlotsOverlap_comm.
Qed.

Lemma pairClashes_comm a b : pairClashes a b = pairClashes b a.
Proof.
  unfold pairClashes.
  now rewrite (String.eqb_sym (courseName a)), (String.eqb_sym (day a)),
    doSessionsOverlap_comm.
Qed.

Lemma pairClashes_iff a b : pairClashes a b = true <-> sessionsClash a b.
Proof.
  unfold pairClashes, sessionsClash.
  rewrite !andb_true_iff, negb_true_iff, String.eqb_neq, String.eqb_eq. tauto.
Qed.

Lemma pairKey_swap a b : pairClashes a b = true -> pairKey (b, a) = pairKey (a, b).
Proof.
  intros H. apply pairClashes_iff in H as (_ & Hd & _).
  unfold pairKey. cbn [fst snd]. rewrite Hd. apply clashKeyOf_comm.
Qed.

Lemma pairsOf_In l a b : In (a, b) (pairsOf l) -> In a l /\ In b l.
Proof.
  induction l as [|x l IH]; cbn [pairsOf]; [tauto|].
  rewrite in_app_iff, in_map_iff. intros [(y & [= <- <-] & Hy)|H].
  - split; [now left | now right].
  - apply IH in H. split; right; tauto.
Qed.

Lemma In_pairsOf l a b :
  In a l -> In b l -> a <> b -> In (a, b) (pairsOf l) \/ In (b, a) (pairsOf l).
Proof.
  induction l as [|x l IH]; cbn [pairsOf In]; [tauto|].
  rewrite !in_app_iff, !in_map_iff.
  intros [->|Ha] [->|Hb] Hne.
  - congruence.
  - left. left. eauto.
  - right. left. eauto.
  - destruct (IH Ha Hb Hne); tauto.
Qed.

(** The keys of the output are the keys of the clashing pairs. *)
Lemma firstClashes_keys ps : forall (seen : gset string) k,
  In k (map clashKey (firstClashes seen ps)) <-> k ∈ clashKeys ps ∖ seen.
Proof.
  induction ps as [|p ps IH]; intros seen k; cbn [firstClashes map In].
  - unfold clashKeys. cbn. set_solver.
  - rewrite clashKeys_cons.
    destruct (pairClashes p.1 p.2); cbn [andb]; [|apply IH].
    destruct (bool_decide (pairKey p ∉ seen)) eqn:Hk.
    + apply bool_decide_eq_true in Hk. cbn [map In]. rewrite IH, clashKey_clashOf.
      destruct (decide (k = pairKey p)) as [->|Hne].
      * rewrite <- surjective_pairing. set_solver.
      * rewrite <- surjective_pairing. set_solver.
    + apply bool_decide_eq_false in Hk.
      assert (pairKey p ∈ seen) by (destruct (decide (pairKey p ∈ seen)); tauto).
      rewrite IH. set_solver.
Qed.

Lemma detectClashes_length l :
  length (detectClashes l) = size (clashKeys (pairsOf l)).
Proof.
  rewrite detectClashes_first, firstClashes_length. f_equal.
  apply set_eq. intros k. set_solver.
Qed.

Lemma clashKeys_incl l l' :
  (forall x, In x l -> In x l') -> clashKeys (pairsOf l) ⊆ clashKeys (pairsOf l').
Proof.
  intros Hsub k Hk.
  apply elem_of_clashKeys in Hk as ([a b] & Hp & Hc & <-). cbn [fst snd] in Hc.
  apply list_elem_of_In, pairsOf_In in Hp as [Ha Hb].
  assert (Hne : a <> b).
  { intros ->. apply pairClashes_names in Hc. congruence. }
  apply elem_of_clashKeys.
  destruct (In_pairsOf l' a b (Hsub a Ha) (Hsub b Hb) Hne) as [H|H].
  - exists (a, b). rewrite list_elem_of_In. auto.
  - exists (b, a). rewrite list_elem_of_In. cbn [fst snd].
    rewrite pairClashes_comm. split; [exact H|]. split; [exact Hc|].
    now apply pairKey_swap.
Qed.

Lemma clash_count_incl l l' :
  (forall x, In x l -> In x l') ->
  (length (detectClashes l) <= length (detectClashes l'))%nat.
Proof.
  intros Hsub. rewrite !detectClashes_length.
  apply subseteq_size. now apply clashKeys_incl.
Qed.

End ClashSets.

(** The overlap test does not depend on the order of its two arguments, on
    sessions and on time-slot texts alike. *)
Theorem overlap_symmetric :
  (forall a b : TimetableSession, doSessionsOverlap a b = doSessionsOverlap b a)
  /\ (forall slot1 slot2 : string,
        doTimeSlotsOverlap slot1 slot2 = doTimeSlotsOverlap slot2 slot1).
Proof. split; [apply doSessionsOverlap_comm | apply doTimeSlotsOverlap_comm]. Qed.

(** For sessions as the extractor builds them, whose minute fields are the
    parse of their time text, the test on the minute fields and the test on
    the texts agree. *)
Theorem doSessionsOverlap_extracted (a b : TimetableSession) :
  startMinutes a = start (parseTimeSlot (timeSlot a)) ->
  endMinutes a = end_ (parseTimeSlot (timeSlot a)) ->
  startMinutes b = start (parseTimeSlot (timeSlot b)) ->
  endMinutes b = end_ (parseTimeSlot (timeSlot b)) ->
  doSessionsOverlap a b = doTimeSlotsOverlap (timeSlot a) (timeSlot b).
Proof.
  intros Hsa Hea Hsb Heb. unfold doSessionsOverlap, doTimeSlotsOverlap.
  rewrite Hsa, Hea, Hsb, Heb.
  destruct (start (parseTimeSlot (timeSlot a)) =? 9999),
           (start (parseTimeSlot (timeSlot b)) =? 9999); reflexivity.
Qed.

Lemma doSessionsOverlap_extracted_witness :
  doSessionsOverlap (sampleSession "DS" "A" "Monday" "09:00-10:45")
                    (sampleSession "OOP" "A" "Monday" "10:00-11:00")
  = doTimeSlotsOverlap "09:00-10:45" "10:00-11:00".
Proof.
  apply (doSessionsOverlap_extracted
           (sampleSession "DS" "A" "Monday" "09:00-10:45")
           (sampleSession "OOP" "A" "Monday" "10:00-11:00")); reflexivity.
Defined.

(** A session whose time is unknown (sentinel start and a text that does not
    parse) overlaps no session, whichever way round. *)
Theorem unknown_time_never_overlaps (a b : TimetableSession) :
  startMinutes a = 9999 ->
  parseTimeSlot (timeSlot a) = UNKNOWN ->
  doSessionsOverlap a b = false /\ doSessionsOverlap b a = false.
Proof.
  intros Hs Hp.
  assert (H : doSessionsOverlap a b = false).
  { unfold doSessionsOverlap, doTimeSlotsOverlap. rewrite Hs, Hp. reflexivity. }
  split; [exact H | now rewrite doSessionsOverlap_comm].
Qed.

Lemma unknown_time_never_overlaps_witness :
  doSessionsOverlap (sampleSession "DS" "A" "Monday" "TBA")
                    (sampleSession "OOP" "A" "Monday" "10:00-11:00") = false
  /\ doSessionsOverlap (sampleSession "OOP" "A" "Monday" "10:00-11:00")
                       (sampleSession "DS" "A" "Monday" "TBA") = false.
Proof.
  apply (unknown_time_never_overlaps (sampleSession "DS" "A" "Monday" "TBA")
           (sampleSession "OOP" "A" "Monday" "10:00-11:00")); reflexivity.
Defined.

(** [detectClashes] returns no clash exactly when no two sessions of the list
    clash: different courses, same day, overlapping times. *)
Theorem detectClashes_nil_iff (sessions : list TimetableSession) :
  detectClashes sessions = []
  <-> forall a b, In a sessions -> In b sessions -> ~ sessionsClash a b.
Proof.
  rewrite <- length_zero_iff_nil, detectClashes_length. split.
  - intros Hz a b Ha Hb Hc.
    apply size_empty_inv in Hz.
    assert (Hne : a <> b) by (intros ->; destruct Hc; congruence).
    apply pairClashes_iff in Hc.
    destruct (In_pairsOf sessions a b Ha Hb Hne) as [H|H].
    + apply (not_elem_of_empty (C:=gset string) (pairKey (a, b))).
      apply (proj1 (Hz _)). apply elem_of_clashKeys.
      exists (a, b). rewrite list_elem_of_In. auto.
    + apply (not_elem_of_empty (C:=gset string) (pairKey (b, a))).
      apply (proj1 (Hz _)). apply elem_of_clashKeys.
      exists (b, a). rewrite list_elem_of_In. cbn [fst snd].
      now rewrite pairClashes_comm.
  - intros Hnone. apply size_empty_iff, elem_of_equiv_empty. intros k Hk.
    apply elem_of_clashKeys in Hk as ([a b] & Hp & Hc & _). cbn [fst snd] in Hc.
    apply list_elem_of_In, pairsOf_In in Hp as [Ha Hb].
    apply pairClashes_iff in Hc. exact (Hnone a b Ha Hb Hc).
Qed.

(** Every clashing pair of sessions is represented in the output: some
    reported clash carries the deduplication key of the pair. *)
Theorem detectClashes_complete (sessions : list TimetableSession)
    (a b : TimetableSession) :
  In a sessions -> In b sessions -> sessionsClash a b ->
  exists c, In c (detectClashes sessions)
            /\ clashKey c = clashKeyOf (courseName a) (courseName b) (day a).
Proof.
  intros Ha Hb Hc.
  assert (Hne : a <> b) by (intros ->; destruct Hc; congruence).
  apply pairClashes_iff in Hc.
  assert (Hk : pairKey (a, b) ∈ clashKeys (pairsOf sessions) ∖ ∅).
  { apply elem_of_difference. split; [|set_solver].
    apply elem_of_clashKeys.
    destruct (In_pairsOf sessions a b Ha Hb Hne) as [H|H].
    - exists (a, b). rewrite list_elem_of_In. auto.
    - exists (b, a). rewrite list_elem_of_In. cbn [fst snd].
      rewrite pairClashes_comm. split; [exact H|]. split; [exact Hc|].
      now apply pairKey_swap. }
  apply firstClashes_keys in Hk. rewrite <- detectClashes_first in Hk.
  apply in_map_iff in Hk as (c & Hkc & Hin). exists c. split; [exact Hin | exact Hkc].
Qed.

Lemma detectClashes_complete_witness :
  exists c, In c (detectClashes sampleSessions)
            /\ clashKey c = clashKeyOf "DS" "OOP" "Monday".
Proof.
  apply (detectClashes_complete sampleSessions
           (sampleSession "DS" "A" "Monday" "09:00-10:45")
           (sampleSession "OOP" "A" "Monday" "10:00-11:00")).
  - cbn. auto.
  - cbn. auto.
  - split; [cbn; discriminate | split; reflexivity].
Defined.

(** The number of clashes grows with the set of sessions: a list whose
    sessions all occur in another has no more clashes than the other. *)
Theorem detectClashes_count_monotone (l l' : list TimetableSession) :
  (forall x, In x l -> In x l') ->
  (length (detectClashes l) <= length (detectClashes l'))%nat.
Proof. apply clash_count_incl. Qed.

Lemma detectClashes_count_monotone_witness :
  (length (detectClashes (firstn 2 sampleSessions))
   <= length (detectClashes sampleSessions))%nat.
Proof.
  apply (detectClashes_count_monotone (firstn 2 sampleSessions) sampleSessions).
  intros x Hx. cbn in Hx. cbn. tauto.
Defined.

(** The number of clashes does not depend on the order of the sessions. *)
Theorem detectClashes_count_permutation (l l' : list TimetableSession) :
  Permutation l l' -> length (detectClashes l) = length (detectClashes l').
Proof.
  intros Hp. apply Nat.le_antisymm; apply clash_count_incl; intros x Hx.
  - eapply Permutation_in; eauto.
  - eapply Permutation_in; [apply Permutation_sym|]; eauto.
Qed.

Lemma detectClashes_count_permutation_witness :
  length (detectClashes sampleSessions) = length (detectClashes (rev sampleSessions)).
Proof.
  apply (detectClashes_count_permutation sampleSessions (rev sampleSessions)).
  apply Permutation_rev.
Defined.

(* ===================================================================== *)
(** * Further properties of the normalisation *)
(* ===================================================================== *)

Section NormalisationByCourse.

Implicit Types (l g : list TimetableSession) (k : string).
Implicit Types (E : JsObject.t (list TimetableSession)).

Lemma get_groupStep E s k :
  JsObject.get k (groupStep E s)
  = if String.eqb k (courseName s)
    then Some (match JsObject.get (courseName s) E with Some g => g | None => [] end
               ++ [s])
    else JsObject.get k E.
Proof.
  unfold groupStep, JsObject.push.
  exact (get_update_ensure (courseName s) k (fun g => g ++ [s]) [] E).
Qed.

Lemma groupByCourse_lookup l k :
  JsObject.get k (groupByCourse l)
  = match courseSessionsOf l k with [] => None | x :: g => Some (x :: g) end.
Proof.
  induction l as [|s l IH] using rev_ind; [reflexivity|].
  rewrite groupByCourse_app. cbn [fold_left]. rewrite get_groupStep.
  unfold courseSessionsOf in *. rewrite List.filter_app. cbn [List.filter].
  rewrite (String.eqb_sym (courseName s) k).
  destruct (String.eqb_spec k (courseName s)) as [->|Hne].
  - rewrite IH. destruct (List.filter _ l); reflexivity.
  - rewrite app_nil_r. exact IH.
Qed.

Lemma enumerated_cons (V : Type) (k : string) (v : V) (o : JsObject.t V) :
  enumerated ((k, v) :: o) -> enumerated o /\ ~ In k (JsObject.keys o).
Proof.
  unfold enumerated. cbn [JsObject.keys map fst]. intros H.
  inversion H as [|? ? Hs Hall]; subst. split; [exact Hs|].
  intros Hin. rewrite List.Forall_forall in Hall.
  apply Hall in Hin. now apply keyBefore_ne in Hin.
Qed.

Lemma keptSessions_nil k : keptSessions k [] = [].
Proof. unfold keptSessions. cbn. now destruct (includes "lab" (toLowerCase k)). Qed.

Lemma filter_kept_same k g :
  List.Forall (fun s => courseName s = k) g ->
  courseSessionsOf (keptSessions k g) k = keptSessions k g.
Proof.
  intros Hg. apply filter_all. apply List.Forall_forall. intros s Hs.
  apply keptSessions_In in Hs. rewrite List.Forall_forall in Hg.
  rewrite (Hg s Hs). apply String.eqb_refl.
Qed.

Lemma filter_kept_other k k' g :
  k' <> k -> List.Forall (fun s => courseName s = k') g ->
  courseSessionsOf (keptSessions k' g) k = [].
Proof.
  intros Hne Hg. apply filter_none. apply List.Forall_forall. intros s Hs.
  apply keptSessions_In in Hs. rewrite List.Forall_forall in Hg.
  rewrite (Hg s Hs). now apply String.eqb_neq.
Qed.

Lemma courseSessionsOf_kept E k :
  enumerated E -> namedGroups E ->
  courseSessionsOf (flat_map (fun e => keptSessions e.1 e.2) E) k
  = match JsObject.get k E with Some g => keptSessions k g | None => [] end.
Proof.
  induction E as [|[k0 g0] E IH]; intros Hs Hn; [reflexivity|].
  apply enumerated_cons in Hs as [Hs Hk0].
  assert (Hg0 : List.Forall (fun s => courseName s = k0) g0) by (apply (Hn k0); now left).
  assert (Hn' : namedGroups E) by (intros k' g' Hin; apply (Hn k'); now right).
  cbn [flat_map fst snd JsObject.get]. unfold courseSessionsOf in *.
  rewrite List.filter_app, IH by assumption.
  destruct (String.eqb_spec k k0) as [->|Hne].
  - apply get_None in Hk0. rewrite Hk0, app_nil_r. now apply filter_kept_same.
  - fold (courseSessionsOf (keptSessions k0 g0) k).
    rewrite filter_kept_other; [reflexivity | congruence | exact Hg0].
Qed.

(** The sessions kept of a course depend on the sessions of that course
    alone. *)
Lemma kept_by_course l k :
  courseSessionsOf (filterValidSessions l) k = keptSessions k (courseSessionsOf l k).
Proof.
  destruct (groupByCourse_invariant l) as [Hs Hn].
  rewrite filterValidSessions_flat, courseSessionsOf_kept, groupByCourse_lookup
    by assumption.
  destruct (courseSessionsOf l k); [now rewrite keptSessions_nil | reflexivity].
Qed.

Lemma In_courseSessionsOf l x : In x l <-> In x (courseSessionsOf l (courseName x)).
Proof.
  unfold courseSessionsOf. rewrite filter_In, String.eqb_refl. tauto.
Qed.

Lemma In_filterValidSessions l x :
  In x (filterValidSessions l)
  <-> In x (keptSessions (courseName x) (courseSessionsOf l (courseName x))).
Proof. now rewrite In_courseSessionsOf, kept_by_course. Qed.

Lemma removeDuplicateDaysFrom_app l l' : forall (seen : gset string),
  exists tail,
    removeDuplicateDaysFrom seen (l ++ l') = removeDuplicateDaysFrom seen l ++ tail.
Proof.
  induction l as [|s l IH]; intros seen; cbn [app removeDuplicateDaysFrom].
  - eexists. reflexivity.
  - case_decide; [apply IH|].
    destruct (IH ({[dayKey s]} ∪ seen)) as [tail ->]. now exists tail.
Qed.

Lemma firstn_prefix {A : Type} n (p q : list A) x :
  In x (firstn n p) -> In x (firstn n (p ++ q)).
Proof. rewrite firstn_app, in_app_iff. tauto. Qed.

Lemma kept_kind_app (f : TimetableSession -> bool) n g g' x :
  In x (firstn n (removeDuplicateDays (List.filter f g))) ->
  In x (firstn n (removeDuplicateDays (List.filter f (g ++ g')))).
Proof.
  rewrite List.filter_app. unfold removeDuplicateDays.
  destruct (removeDuplicateDaysFrom_app (List.filter f g) (List.filter f g') ∅)
    as [tail ->].
  apply firstn_prefix.
Qed.

Lemma keptSessions_app k g g' x :
  In x (keptSessions k g) -> In x (keptSessions k (g ++ g')).
Proof.
  unfold keptSessions. destruct (includes "lab" (toLowerCase k)).
  - apply kept_kind_app.
  - rewrite !in_app_iff. intros [H|H]; [left | right]; now apply kept_kind_app.
Qed.

Lemma filterValidSessions_app_In l l' x :
  In x (filterValidSessions l) -> In x (filterValidSessions (l ++ l')).
Proof.
  rewrite !In_filterValidSessions. unfold courseSessionsOf.
  rewrite List.filter_app. apply keptSessions_app.
Qed.

Lemma filterValidSessions_In l x : In x (filterValidSessions l) -> In x l.
Proof.
  rewrite In_filterValidSessions. intros H.
  apply keptSessions_In in H. unfold courseSessionsOf in H.
  apply filter_In in H. tauto.
Qed.

(** *** Counting *)

Lemma removeDuplicateDaysFrom_length l : forall (seen : gset string),
  (length (removeDuplicateDaysFrom seen l) <= length l)%nat.
Proof.
  induction l as [|s l IH]; intros seen; cbn [removeDuplicateDaysFrom length]; [lia|].
  case_decide; cbn [length].
  - specialize (IH seen). lia.
  - specialize (IH ({[dayKey s]} ∪ seen)). lia.
Qed.

Lemma kept_kind_length (f : TimetableSession -> bool) n g :
  (length (firstn n (removeDuplicateDays (List.filter f g)))
   <= Nat.min n (length (List.filter f g)))%nat.
Proof.
  rewrite length_firstn. unfold removeDuplicateDays.
  pose proof (removeDuplicateDaysFrom_length (List.filter f g) ∅). lia.
Qed.

Lemma filter_kinds_length g :
  (length (List.filter (fun s => isClassType (sessionType s)) g)
   + length (List.filter (fun s => isLabType (sessionType s)) g))%nat
  = length g.
Proof.
  induction g as [|s g IH]; [reflexivity|]. cbn [List.filter].
  destruct (sessionType s); cbn [isClassType isLabType length]; lia.
Qed.

Lemma keptSessions_length k g : (length (keptSessions k g) <= length g)%nat.
Proof.
  pose proof (kept_kind_length (fun s => isLabType (sessionType s))
                EXPECTED_LABS_PER_WEEK g).
  pose proof (kept_kind_length (fun s => isClassType (sessionType s))
                EXPECTED_CLASSES_PER_WEEK g).
  pose proof (filter_kinds_length g).
  unfold keptSessions. destruct (includes "lab" (toLowerCase k)).
  - lia.
  - rewrite length_app. lia.
Qed.

Lemma flat_map_snd_insertIndex {V : Type} n k (o : JsObject.t (list V)) :
  flat_map snd (JsObject.insertIndex n k [] o) = flat_map snd o.
Proof.
  induction o as [|[k' v'] o IH]; cbn [JsObject.insertIndex]; [reflexivity|].
  destruct (JsObject.arrayIndex k') as [n'|]; [destruct (n' <? n)|];
    cbn [flat_map snd app]; rewrite ?IH; reflexivity.
Qed.

Lemma flat_map_snd_ensure {V : Type} k (o : JsObject.t (list V)) :
  flat_map snd (JsObject.ensure k [] o) = flat_map snd o.
Proof.
  unfold JsObject.ensure, JsObject.set.
  destruct (JsObject.get k o); [reflexivity|].
  destruct (JsObject.arrayIndex k); [apply flat_map_snd_insertIndex|].
  rewrite flat_map_app. cbn. now rewrite app_nil_r.
Qed.

Lemma flat_map_snd_push {V : Type} k (x : V) (o : JsObject.t (list V)) (w : list V) :
  JsObject.get k o = Some w ->
  Permutation (flat_map snd (JsObject.push k x o)) (flat_map snd o ++ [x]).
Proof.
  intros Hget. unfold JsObject.push, JsObject.update, JsObject.set. rewrite Hget.
  revert Hget. induction o as [|[k' v'] o IH]; cbn [JsObject.get]; [discriminate|].
  cbn [JsObject.replace]. destruct (String.eqb k k').
  - intros [= ->]. cbn [flat_map snd]. rewrite <- !app_assoc.
    apply Permutation_app_head. apply Permutation_app_comm.
  - intros Hget. cbn [flat_map snd]. rewrite <- app_assoc.
    apply Permutation_app_head. now apply IH.
Qed.

(** The groups hold the sessions of the list, each once. *)
Lemma groupByCourse_partition l :
  Permutation (flat_map snd (groupByCourse l)) l.
Proof.
  induction l as [|s l IH] using rev_ind; [constructor|].
  rewrite groupByCourse_app. cbn [fold_left]. unfold groupStep.
  assert (Hget : exists g, JsObject.get (courseName s)
                             (JsObject.ensure (courseName s) [] (groupByCourse l))
                           = Some g).
  { unfold JsObject.ensure.
    destruct (JsObject.get (courseName s) (groupByCourse l)) as [g|] eqn:E; [eauto|].
    rewrite get_set, String.eqb_refl. eauto. }
  destruct Hget as [g Hget].
  rewrite (flat_map_snd_push _ _ _ _ Hget), flat_map_snd_ensure.
  now apply Permutation_app_tail.
Qed.

Lemma flat_map_kept_length E :
  (length (flat_map (fun e => keptSessions e.1 e.2) E) <= length (flat_map snd E))%nat.
Proof.
  induction E as [|[k g] E IH]; [reflexivity|].
  cbn [flat_map fst snd]. rewrite !length_app.
  pose proof (keptSessions_length k g). lia.
Qed.

Lemma keptSessions_quota k g :
  (length (List.filter (fun s => isClassType (sessionType s)) (keptSessions k g))
   <= EXPECTED_CLASSES_PER_WEEK)%nat
  /\ (length (List.filter (fun s => isLabType (sessionType s)) (keptSessions k g))
      <= EXPECTED_LABS_PER_WEEK)%nat
  /\ (includes "lab" (toLowerCase k) = true ->
      List.filter (fun s => isClassType (sessionType s)) (keptSessions k g) = []).
Proof.
  destruct (kept_kind_stable (fun s => isLabType (sessionType s))
              EXPECTED_LABS_PER_WEEK g) as [HL _].
  destruct (kept_kind_stable (fun s => isClassType (sessionType s))
              EXPECTED_CLASSES_PER_WEEK g) as [HC _].
  cbv zeta in HL, HC.
  assert (HLc : List.filter (fun s => isClassType (sessionType s))
                  (firstn EXPECTED_LABS_PER_WEEK
                     (removeDuplicateDays
                        (List.filter (fun s => isLabType (sessionType s)) g))) = []).
  { apply filter_none. eapply List.Forall_impl; [|exact HL].
    intros s. apply lab_not_class. }
  assert (HCl : List.filter (fun s => isLabType (sessionType s))
                  (firstn EXPECTED_CLASSES_PER_WEEK
                     (removeDuplicateDays
                        (List.filter (fun s => isClassType (sessionType s)) g))) = []).
  { apply filter_none. eapply List.Forall_impl; [|exact HC].
    intros s. apply class_not_lab. }
  unfold keptSessions. destruct (includes "lab" (toLowerCase k)).
  - rewrite HLc, (filter_all _ _ HL). cbn [length].
    split; [lia|]. split; [apply firstn_le_length | reflexivity].
  - rewrite !List.filter_app, HLc, HCl, (filter_all _ _ HL), (filter_all _ _ HC).
    rewrite app_nil_r. cbn [app].
    split; [apply firstn_le_length|]. split; [apply firstn_le_length | discriminate].
Qed.

(** *** Distinct days *)

Lemma freshDays_NoDup l : forall (seen : gset string),
  freshDays seen l -> List.NoDup (map dayKey l) /\ forall s, In s l -> dayKey s ∉ seen.
Proof.
  induction l as [|s l IH]; intros seen; cbn [freshDays map].
  - intros _. split; [constructor | intros ? []].
  - intros [Hs Hl]. apply IH in Hl as [Hnd Hfresh]. split.
    + constructor; [|exact Hnd]. intros Hin.
      apply in_map_iff in Hin as (s' & Hk & Hs').
      apply Hfresh in Hs'. rewrite Hk in Hs'. set_solver.
    + intros s' [<-|Hs']; [exact Hs|]. apply Hfresh in Hs'. set_solver.
Qed.

Lemma kept_kind_NoDup (f : TimetableSession -> bool) n g :
  List.NoDup (map kindAndDay (firstn n (removeDuplicateDays (List.filter f g)))).
Proof.
  assert (Hnd : List.NoDup
                  (map dayKey (firstn n (removeDuplicateDays (List.filter f g))))).
  { apply (freshDays_NoDup _ ∅). apply freshDays_firstn, removeDuplicateDaysFrom_fresh. }
  assert (Hkey : forall l,
             map dayKey l
             = map (fun p => (p.2 ++ "_" ++ sessionTypeText p.1)%string)
                   (map kindAndDay l)).
  { intros l. now rewrite map_map. }
  rewrite Hkey in Hnd.
  eapply List.NoDup_map_inv. exact Hnd.
Qed.

Lemma keptSessions_NoDup k g : List.NoDup (map kindAndDay (keptSessions k g)).
Proof.
  unfold keptSessions. destruct (includes "lab" (toLowerCase k));
    [apply kept_kind_NoDup|].
  rewrite List.map_app.
  destruct (kept_kind_stable (fun s => isLabType (sessionType s))
              EXPECTED_LABS_PER_WEEK g) as [HL _].
  destruct (kept_kind_stable (fun s => isClassType (sessionType s))
              EXPECTED_CLASSES_PER_WEEK g) as [HC _].
  cbv zeta in HL, HC. rewrite List.Forall_forall in HL, HC.
  apply List.NoDup_app; [apply kept_kind_NoDup | apply kept_kind_NoDup |].
  intros p Hp Hp'.
  apply in_map_iff in Hp as (s & <- & Hs). apply in_map_iff in Hp' as (s' & E & Hs').
  apply HC in Hs. apply HL in Hs'. unfold kindAndDay in E.
  injection E as Et _. rewrite Et in Hs'. apply lab_not_class in Hs'. congruence.
Qed.

End NormalisationByCourse.

(** The sessions kept of a course are chosen from the sessions of that course
    alone: the output, restricted to a course, is the weekly selection applied to
    the input restricted to that course. *)
Theorem filterValidSessions_by_course (sessions : list TimetableSession) (k : string) :
  courseSessionsOf (filterValidSessions sessions) k
  = keptSessions k (courseSessionsOf sessions k).
Proof. apply kept_by_course. Qed.

(** The normalisation only selects: every session of the output is a session
    of the input, and the output is no longer than the input. *)
Theorem filterValidSessions_selects (sessions : list TimetableSession) :
  List.Forall (fun s => In s sessions) (filterValidSessions sessions)
  /\ (length (filterValidSessions sessions) <= length sessions)%nat.
Proof.
  split.
  - apply List.Forall_forall. intros s. apply filterValidSessions_In.
  - rewrite filterValidSessions_flat.
    rewrite <- (Permutation_length (groupByCourse_partition sessions)).
    apply flat_map_kept_length.
Qed.

(** The weekly counts: of each course the output holds at most two Class
    sessions and at most one Lab session, and no Class session at all when the
    course name contains "lab". *)
Theorem filterValidSessions_quota (sessions : list TimetableSession) (k : string) :
  let kept := courseSessionsOf (filterValidSessions sessions) k in
  (length (List.filter (fun s => isClassType (sessionType s)) kept) <= 2)%nat
  /\ (length (List.filter (fun s => isLabType (sessionType s)) kept) <= 1)%nat
  /\ (includes "lab" (toLowerCase k) = true ->
      List.filter (fun s => isClassType (sessionType s)) kept = []).
Proof. cbv zeta. rewrite kept_by_course. apply keptSessions_quota. Qed.

(** In the output, two sessions of one course and one kind never fall on the
    same day. *)
Theorem filterValidSessions_distinct_days (sessions : list TimetableSession) (k : string) :
  List.NoDup (map kindAndDay (courseSessionsOf (filterValidSessions sessions) k)).
Proof. rewrite kept_by_course. apply keptSessions_NoDup. Qed.

(** Sessions appended to the input never push out a session that was kept. *)
Theorem filterValidSessions_append_keeps (sessions more : list TimetableSession) :
  List.Forall (fun s => In s (filterValidSessions (sessions ++ more)))
              (filterValidSessions sessions).
Proof.
  apply List.Forall_forall. intros s. apply filterValidSessions_app_In.
Qed.

(* ===================================================================== *)
(** * Further properties of the search *)
(* ===================================================================== *)

Section SearchOrder.

Implicit Types (a b c : CombinationResult.t).

Lemma num_ltb_irrefl x : num_ltb x x = false.
Proof. destruct x; cbn; [apply Z.ltb_irrefl | reflexivity]. Qed.

Lemma num_ltb_trans x y z :
  num_ltb x y = true -> num_ltb y z = true -> num_ltb x z = true.
Proof. destruct x, y, z; cbn; try (discriminate || reflexivity); lia. Qed.

Lemma num_ltb_asym x y : num_ltb x y = true -> num_ltb y x = false.
Proof. destruct x, y; cbn; try (discriminate || reflexivity); lia. Qed.

Lemma num_ltb_none x y : num_ltb x y = false -> num_ltb y x = false -> x = y.
Proof.
  destruct x, y; cbn; try (discriminate || reflexivity).
  intros H1 H2. f_equal. lia.
Qed.

Lemma num_ltb_le x y : num_ltb x y = false -> num_le y x.
Proof. destruct x, y; cbn; try (discriminate || tauto). lia. Qed.

Lemma num_lt_le x y : num_ltb x y = true -> num_le x y.
Proof. destruct x, y; cbn; try (discriminate || tauto). lia. Qed.

Lemma num_le_lt_trans x y z : num_le x y -> num_ltb y z = true -> num_ltb x z = true.
Proof. destruct x, y, z; cbn; try (discriminate || tauto); lia. Qed.

Lemma noWorse_refl a : noWorse a a.
Proof. right. split; [reflexivity | apply num_le_refl]. Qed.

Lemma noWorse_trans a b c : noWorse a b -> noWorse b c -> noWorse a c.
Proof.
  unfold noWorse. intros [H1|[E1 G1]] [H2|[E2 G2]].
  - left. eapply num_ltb_trans; eauto.
  - left. now rewrite <- E2.
  - left. now rewrite E1.
  - right. split; [congruence | eapply num_le_trans; eauto].
Qed.

Lemma isBetterSchedule_noWorse c b : isBetterSchedule c b = true -> noWorse c b.
Proof.
  unfold isBetterSchedule, noWorse.
  destruct (num_ltb (CombinationResult.clashCount c) (CombinationResult.clashCount b))
    eqn:E1; [now left|].
  destruct (num_ltb (CombinationResult.clashCount b) (CombinationResult.clashCount c))
    eqn:E2; [discriminate|].
  intros H. right. split; [now apply num_ltb_none | now apply num_lt_le].
Qed.

Lemma isBetterSchedule_not c b : isBetterSchedule c b = false -> noWorse b c.
Proof.
  unfold isBetterSchedule, noWorse.
  destruct (num_ltb (CombinationResult.clashCount c) (CombinationResult.clashCount b))
    eqn:E1; [discriminate|].
  destruct (num_ltb (CombinationResult.clashCount b) (CombinationResult.clashCount c))
    eqn:E2; [now left|].
  intros H. right. split; [symmetry; now apply num_ltb_none | now apply num_ltb_le].
Qed.

Lemma isBetterSchedule_iff c b : isBetterSchedule c b = true <-> ~ noWorse b c.
Proof.
  split.
  - intros H. unfold isBetterSchedule in H. unfold noWorse.
    destruct (num_ltb (CombinationResult.clashCount c) (CombinationResult.clashCount b))
      eqn:E1.
    + intros [H1|[E G]].
      * apply num_ltb_asym in E1. congruence.
      * rewrite E, num_ltb_irrefl in E1. discriminate.
    + destruct (num_ltb (CombinationResult.clashCount b) (CombinationResult.clashCount c))
        eqn:E2; [discriminate|].
      intros [H1|[E G]]; [congruence|].
      destruct (CombinationResult.gapScore c), (CombinationResult.gapScore b);
        cbn in *; try (discriminate || tauto). lia.
  - intros Hn. destruct (isBetterSchedule c b) eqn:E; [reflexivity|].
    apply isBetterSchedule_not in E. contradiction.
Qed.

End SearchOrder.

Section PruningAndOrder.

Variable courseSessionsMap : SectionMap.

Lemma prune_safe (partial more : list TimetableSession) :
  (length (detectClashes (filterValidSessions partial))
   <= length (detectClashes (filterValidSessions (partial ++ more))))%nat.
Proof. apply clash_count_incl. intros x. apply filterValidSessions_app_In. Qed.

Lemma pathAssignments_cons asg o later sec path :
  pathAssignments asg (o :: later) (sec :: path)
  = pathAssignments (JsObject.set (CourseOption.courseName o) sec asg) later path.
Proof. reflexivity. Qed.

Lemma searchSpecLex_nil : searchSpecLex courseSessionsMap [].
Proof.
  intros index asg sched best r. subst r. cbn [findBestCombination]. split.
  - right. exists []. split; [constructor|].
    now rewrite pathSessions_nil, app_nil_r.
  - intros secs asg' Hs. rewrite pathSessions_nil, app_nil_r.
    right. split; [reflexivity | apply num_le_refl].
Qed.

Lemma trySection_lex later index name asg sched acc sec :
  searchSpecLex courseSessionsMap later ->
  let acc' := trySection later courseSessionsMap index name asg sched acc sec in
  noWorse acc' acc
  /\ (acc' = acc
      \/ exists path,
          pathValid later path
          /\ acc' = leafResult (pathAssignments (JsObject.set name sec asg) later path)
                      (sched ++ sectionSessionsOf courseSessionsMap name sec
                             ++ pathSessions courseSessionsMap later path))
  /\ forall path asg', pathValid later path ->
       noWorse acc'
         (leafResult asg'
            (sched ++ sectionSessionsOf courseSessionsMap name sec
                   ++ pathSessions courseSessionsMap later path)).
Proof.
  intros IH acc'. subst acc'. unfold trySection.
  destruct (num_is (CombinationResult.clashCount acc) 0 && (1 <=? index)%nat
            && (0 <? length (detectClashes (filterValidSessions
                   (sched ++ sectionSessionsOf courseSessionsMap name sec))))%nat) eqn:Ep.
  - split; [apply noWorse_refl | split; [now left|]].
    intros path asg' _.
    apply andb_true_iff in Ep as [Ep Hpos]. apply andb_true_iff in Ep as [Ep _].
    apply Nat.ltb_lt in Hpos.
    destruct (CombinationResult.clashCount acc) as [x|] eqn:Ecc; [|discriminate].
    cbn in Ep. apply Z.eqb_eq in Ep. subst x.
    left. rewrite Ecc. cbn [leafResult CombinationResult.clashCount num_ltb].
    pose proof (prune_safe (sched ++ sectionSessionsOf courseSessionsMap name sec)
                  (pathSessions courseSessionsMap later path)) as Hm.
    rewrite <- app_assoc in Hm. apply Z.ltb_lt. lia.
  - specialize (IH (S index) (JsObject.set name sec asg)
                   (sched ++ sectionSessionsOf courseSessionsMap name sec) (Some acc)).
    cbv zeta in IH. destruct IH as [HA HB].
    set (result := findBestCombination later courseSessionsMap (S index)
                     (JsObject.set name sec asg)
                     (sched ++ sectionSessionsOf courseSessionsMap name sec)
                     (Some acc)) in *.
    destruct (isBetterSchedule result acc) eqn:Eb.
    + split; [now apply isBetterSchedule_noWorse|]. split.
      * destruct HA as [[_ ->]|(path & Hp & Hleaf)]; [now left|right].
        exists path. split; [exact Hp|]. now rewrite app_assoc.
      * intros path asg' Hp. rewrite app_assoc. now apply HB.
    + split; [apply noWorse_refl | split; [now left|]].
      intros path asg' Hp. eapply noWorse_trans; [apply (isBetterSchedule_not _ _ Eb)|].
      rewrite app_assoc. now apply HB.
Qed.

Lemma sectionLoop_lex later index name asg sched :
  searchSpecLex courseSessionsMap later ->
  forall secs acc,
    let r := fold_left (trySection later courseSessionsMap index name asg sched) secs acc in
    noWorse r acc
    /\ (r = acc
        \/ exists sec path,
            In sec secs /\ pathValid later path
            /\ r = leafResult (pathAssignments (JsObject.set name sec asg) later path)
                     (sched ++ sectionSessionsOf courseSessionsMap name sec
                            ++ pathSessions courseSessionsMap later path))
    /\ forall sec path asg', In sec secs -> pathValid later path ->
         noWorse r
           (leafResult asg'
              (sched ++ sectionSessionsOf courseSessionsMap name sec
                     ++ pathSessions courseSessionsMap later path)).
Proof.
  intros IHlater. induction secs as [|sec secs IH]; intros acc r; subst r; cbn [fold_left].
  - split; [apply noWorse_refl | split; [now left | intros ? ? ? []]].
  - destruct (trySection_lex later index name asg sched acc sec IHlater)
      as (Hle & Hor & Hmin).
    set (acc' := trySection later courseSessionsMap index name asg sched acc sec) in *.
    destruct (IH acc') as (Hle' & Hor' & Hmin').
    set (r := fold_left _ secs acc') in *.
    split; [eapply noWorse_trans; eauto|]. split.
    + destruct Hor' as [->|(sec' & path & Hin & Hp & Hleaf)].
      * destruct Hor as [->|(path & Hp & Hleaf)]; [now left|right].
        exists sec, path. split; [now left | auto].
      * right. exists sec', path. split; [now right | auto].
    + intros sec' path asg' [<-|Hin] Hp.
      * eapply noWorse_trans; [exact Hle' | now apply Hmin].
      * now apply Hmin'.
Qed.

Lemma findBestCombination_lex opts : searchSpecLex courseSessionsMap opts.
Proof.
  induction opts as [|o later IH]; [apply searchSpecLex_nil|].
  intros index asg sched best r. subst r. rewrite findBestCombination_cons.
  destruct (sectionLoop_lex later index (CourseOption.courseName o) asg sched IH
              (CourseOption.sections o)
              (match best with Some b => b | None => noResult end))
    as (_ & Hor & Hmin).
  split.
  - destruct Hor as [Heq|(sec & path & Hin & Hp & Hleaf)].
    + left. split; [discriminate | exact Heq].
    + right. exists (sec :: path). split; [apply pathValid_cons; eauto|].
      now rewrite pathSessions_cons, pathAssignments_cons.
  - intros secs asg' Hs. apply pathValid_cons in Hs as (sec & path & -> & Hin & Hp).
    rewrite pathSessions_cons. now apply Hmin.
Qed.

Lemma search_lex opts :
  List.Forall (fun o => CourseOption.sections o <> []) opts ->
  let r := findBestCombination opts courseSessionsMap 0 JsObject.empty [] None in
  (exists secs,
      pathValid opts secs
      /\ r = leafResult (pathAssignments JsObject.empty opts secs)
               (pathSessions courseSessionsMap opts secs))
  /\ forall secs asg', pathValid opts secs ->
       noWorse r (leafResult asg' (pathSessions courseSessionsMap opts secs)).
Proof.
  intros Hne r.
  destruct (findBestCombination_lex opts 0%nat JsObject.empty [] None) as [HA HB].
  fold r in HA, HB. cbn [app] in HA, HB. split; [|exact HB].
  destruct HA as [[_ Heq]|HA]; [|exact HA].
  destruct (pathValid_exists opts Hne) as [secs Hs].
  specialize (HB secs JsObject.empty Hs). rewrite Heq in HB.
  destruct HB as [HB|[HB _]]; cbn in HB; discriminate.
Qed.

End PruningAndOrder.

Section GapScore.

Lemma dayGaps_ge sorted : forall totalGap, totalGap <= dayGaps sorted totalGap.
Proof.
  induction sorted as [|current later IH]; intros totalGap; cbn [dayGaps]; [lia|].
  destruct later as [|next later']; [lia|].
  destruct (endMinutes current <? startMinutes next) eqn:E.
  - apply Z.ltb_lt in E. etransitivity; [|apply IH]. lia.
  - apply IH.
Qed.

Lemma calculateTotalGapScore_ge sessions : 0 <= calculateTotalGapScore sessions.
Proof.
  unfold calculateTotalGapScore.
  generalize (JsObject.values (groupByDay sessions)).
  assert (H : forall (days : list (list TimetableSession)) acc, 0 <= acc ->
    0 <= fold_left
           (fun totalGap daySessions =>
              dayGaps (sortByStart
                         (List.filter (fun s => negb (startMinutes s =? 9999)) daySessions))
                      totalGap) days acc).
  { induction days as [|d days IH]; intros acc Hacc; cbn [fold_left]; [exact Hacc|].
    apply IH. etransitivity; [exact Hacc | apply dayGaps_ge]. }
  intros days. apply H. lia.
Qed.

End GapScore.

Section Assignments.

Lemma get_fold_set_notin (l : list (string * string)) : forall a c,
  ~ In c (map fst l) ->
  JsObject.get c (fold_left (fun a cs => JsObject.set cs.1 cs.2 a) l a) = JsObject.get c a.
Proof.
  induction l as [|[c0 s0] l IH]; intros a c Hc; cbn [fold_left fst snd]; [reflexivity|].
  cbn [map fst In] in Hc. rewrite IH by tauto. rewrite get_set.
  destruct (String.eqb_spec c c0); [subst; tauto | reflexivity].
Qed.

Lemma get_fold_set_in (l : list (string * string)) : forall a c sec,
  List.NoDup (map fst l) -> In (c, sec) l ->
  JsObject.get c (fold_left (fun a cs => JsObject.set cs.1 cs.2 a) l a) = Some sec.
Proof.
  induction l as [|[c0 s0] l IH]; intros a c sec Hnd Hin; [destruct Hin|].
  cbn [map fst] in Hnd. inversion Hnd as [|? ? Hnot Hnd']; subst.
  cbn [fold_left fst snd]. destruct Hin as [[= -> ->]|Hin].
  - rewrite get_fold_set_notin by assumption. now rewrite get_set, String.eqb_refl.
  - now apply IH.
Qed.

Lemma fst_combine_Forall2 {A B : Type} (P : A -> B -> Prop) (l : list A) (l' : list B) :
  Forall2 P l l' -> map fst (combine l l') = l.
Proof. induction 1; cbn [combine map fst]; [reflexivity | now f_equal]. Qed.

Lemma Forall2_combine {A B : Type} (P Q : A -> B -> Prop) (l : list A) (l' : list B) :
  Forall2 P l l' -> (forall x y, In (x, y) (combine l l') -> Q x y) -> Forall2 Q l l'.
Proof.
  induction 1 as [|x y l l' _ _ IH]; intros HQ; constructor.
  - apply HQ. now left.
  - apply IH. intros x' y' Hin. apply HQ. now right.
Qed.

Lemma pathAssignments_optionsOf courseSessionsMap excluded names : forall secs asg,
  pathAssignments asg (optionsOf courseSessionsMap excluded names) secs
  = fold_left (fun a cs => JsObject.set cs.1 cs.2 a) (combine names secs) asg.
Proof.
  induction names as [|c names IH]; intros [|sec secs] asg; try reflexivity.
  unfold optionsOf. cbn [map]. fold (optionsOf courseSessionsMap excluded names).
  rewrite pathAssignments_cons. cbn [CourseOption.courseName combine fold_left fst snd].
  apply IH.
Qed.

Lemma groupBySection_none allSessions : groupBySection allSessions [] = JsObject.empty.
Proof.
  unfold groupBySection. generalize (@JsObject.empty (JsObject.t (list TimetableSession))).
  induction allSessions as [|s l IH]; intros m; [reflexivity|].
  cbn [fold_left existsb negb]. apply IH.
Qed.

Variables (allSessions : list TimetableSession) (selected : list string)
          (excluded : JsObject.t (list string)).

(** The result of [findOptimalSchedule] when every selected course keeps a
    section: the report on the leaf of some valid assignment that no other
    assignment beats in the order of [isBetterSchedule]. *)
Lemma findOptimalSchedule_best :
  (forall c, In c selected -> exists sec, sectionOffered allSessions excluded c sec) ->
  exists secs,
    validAssignment allSessions excluded selected secs
    /\ findOptimalSchedule allSessions selected excluded
       = reportBest (leafResult (assignmentsOf selected secs)
                       (assignmentSessions allSessions selected secs))
    /\ forall secs' asg',
         validAssignment allSessions excluded selected secs' ->
         noWorse (leafResult (assignmentsOf selected secs)
                    (assignmentSessions allSessions selected secs))
                 (leafResult asg' (assignmentSessions allSessions selected secs')).
Proof.
  intros Hoffer. unfold findOptimalSchedule.
  pose proof (collectCourseOptions_spec (groupBySection allSessions selected)
                excluded selected []) as Hspec.
  destruct (collectCourseOptions selected (groupBySection allSessions selected) excluded [])
    as [r|opts].
  { exfalso. destruct Hspec as (before & c0 & after & Hsel & _ & Hc0 & _).
    assert (Hin0 : In c0 selected) by (rewrite Hsel; apply in_or_app; right; now left).
    apply (available_nonempty allSessions selected excluded c0 Hin0); auto. }
  destruct Hspec as [Hopts Hne]. cbn [app] in Hopts. subst opts.
  destruct (search_lex (groupBySection allSessions selected)
              (optionsOf (groupBySection allSessions selected) excluded selected))
    as [(secs & Hvalid & Hleaf) Hmin].
  { apply List.Forall_forall. intros o Ho. unfold optionsOf in Ho.
    apply in_map_iff in Ho as (c & <- & Hc). cbn [CourseOption.sections].
    rewrite List.Forall_forall in Hne. auto. }
  rewrite pathSessions_optionsOf, pathAssignments_optionsOf in Hleaf by auto.
  exists secs. split.
  { apply (proj1 (pathValid_optionsOf allSessions selected excluded selected secs
                    (fun c H => H))). exact Hvalid. }
  fold (assignmentsOf selected secs) in Hleaf. rewrite Hleaf.
  split; [reflexivity|].
  intros secs' asg' Hvalid'.
  apply (proj2 (pathValid_optionsOf allSessions selected excluded selected secs'
                  (fun c H => H))) in Hvalid'.
  specialize (Hmin secs' asg' Hvalid').
  rewrite Hleaf, pathSessions_optionsOf in Hmin by auto. exact Hmin.
Qed.

Lemma reportBest_fields b :
  schedule (reportBest b) = CombinationResult.schedule b
  /\ assignments (reportBest b) = CombinationResult.assignments b.
Proof.
  unfold reportBest. destruct (num_is (CombinationResult.clashCount b) 0); split; reflexivity.
Qed.

End Assignments.

(** [isBetterSchedule] is a strict order: no result is better than itself,
    two results are never each better than the other, and being better carries
    over a chain. *)
Theorem isBetterSchedule_strict_order :
  (forall a, isBetterSchedule a a = false)
  /\ (forall a b, isBetterSchedule a b = true -> isBetterSchedule b a = false)
  /\ (forall a b c, isBetterSchedule a b = true -> isBetterSchedule b c = true ->
                    isBetterSchedule a c = true).
Proof.
  split; [|split].
  - intros a. destruct (isBetterSchedule a a) eqn:E; [|reflexivity].
    apply isBetterSchedule_iff in E. destruct E. apply noWorse_refl.
  - intros a b Hab. destruct (isBetterSchedule b a) eqn:E; [|reflexivity].
    apply isBetterSchedule_iff in E. destruct E. now apply isBetterSchedule_noWorse.
  - intros a b c Hab Hbc. apply isBetterSchedule_iff. intros Hca.
    apply isBetterSchedule_iff in Hab. apply Hab.
    eapply noWorse_trans; [|exact Hca]. now apply isBetterSchedule_noWorse.
Qed.

(** The gap score is never negative. *)
Theorem calculateTotalGapScore_nonneg (sessions : list TimetableSession) :
  0 <= calculateTotalGapScore sessions.
Proof. apply calculateTotalGapScore_ge. Qed.

(** The test that prunes a branch is safe: sessions appended to a schedule
    never lower the clash count of its normalisation, so a partial assignment
    with a clash has no clash-free completion. *)
Theorem pruning_is_safe (partialSchedule more : list TimetableSession) :
  (length (detectClashes (filterValidSessions partialSchedule))
   <= length (detectClashes (filterValidSessions (partialSchedule ++ more))))%nat.
Proof. apply prune_safe. Qed.

(** Among the assignments with the minimum number of clashes, the returned
    schedule has the smallest gap score: every valid assignment has more
    clashes than the returned schedule, or as many and at least its gap
    score. *)
Theorem findOptimalSchedule_fewest_gaps
    (allSessions : list TimetableSession) (selected : list string)
    (excluded : JsObject.t (list string)) (secs : list string) :
  (forall c, In c selected -> exists sec, sectionOffered allSessions excluded c sec) ->
  validAssignment allSessions excluded selected secs ->
  let r := findOptimalSchedule allSessions selected excluded in
  let candidate := filterValidSessions (assignmentSessions allSessions selected secs) in
  (length (detectClashes (schedule r)) < length (detectClashes candidate))%nat
  \/ (length (detectClashes (schedule r)) = length (detectClashes candidate)
      /\ calculateTotalGapScore (schedule r) <= calculateTotalGapScore candidate).
Proof.
  intros Hoffer Hvalid r candidate. subst r candidate.
  destruct (findOptimalSchedule_best allSessions selected excluded Hoffer)
    as (secs0 & _ & -> & Hmin).
  rewrite (proj1 (reportBest_fields _)).
  specialize (Hmin secs JsObject.empty Hvalid).
  unfold noWorse, leafResult in *.
  cbn [CombinationResult.clashCount CombinationResult.gapScore
       CombinationResult.schedule num_ltb num_le] in *.
  destruct Hmin as [Hlt|[Heq Hle]].
  - left. apply Z.ltb_lt in Hlt. lia.
  - right. injection Heq as Heq. split; [lia | exact Hle].
Qed.

Lemma findOptimalSchedule_fewest_gaps_witness :
  let r := findOptimalSchedule sampleSessions ["DS"; "OOP"] JsObject.empty in
  let candidate :=
    filterValidSessions (assignmentSessions sampleSessions ["DS"; "OOP"] ["A"; "A"]) in
  (length (detectClashes (schedule r)) < length (detectClashes candidate))%nat
  \/ (length (detectClashes (schedule r)) = length (detectClashes candidate)
      /\ calculateTotalGapScore (schedule r) <= calculateTotalGapScore candidate).
Proof.
  apply (findOptimalSchedule_fewest_gaps sampleSessions ["DS"; "OOP"] JsObject.empty
           ["A"; "A"]).
  - intros c [<-|[<-|[]]].
    + exists "A". split; [|cbn; tauto].
      exists (sampleSession "DS" "A" "Monday" "09:00-10:45"). cbn. auto.
    + exists "B". split; [|cbn; tauto].
      exists (sampleSession "OOP" "B" "Tuesday" "10:00-11:00"). cbn. auto.
  - constructor; [|constructor; [|constructor]].
    + split; [|cbn; tauto].
      exists (sampleSession "DS" "A" "Monday" "09:00-10:45"). cbn. auto.
    + split; [|cbn; tauto].
      exists (sampleSession "OOP" "A" "Monday" "10:00-11:00"). cbn. auto.
Defined.

(** The returned assignments name, for each selected course, the section whose
    sessions make up the returned schedule, and no other course (the selected
    names being distinct). *)
Theorem findOptimalSchedule_assignments
    (allSessions : list TimetableSession) (selected : list string)
    (excluded : JsObject.t (list string)) :
  List.NoDup selected ->
  (forall c, In c selected -> exists sec, sectionOffered allSessions excluded c sec) ->
  let r := findOptimalSchedule allSessions selected excluded in
  exists secs,
    validAssignment allSessions excluded selected secs
    /\ schedule r = filterValidSessions (assignmentSessions allSessions selected secs)
    /\ Forall2 (fun c sec => JsObject.get c (assignments r) = Some sec) selected secs
    /\ forall c, ~ In c selected -> JsObject.get c (assignments r) = None.
Proof.
  intros Hnd Hoffer r. subst r.
  destruct (findOptimalSchedule_best allSessions selected excluded Hoffer)
    as (secs & Hvalid & -> & _).
  exists secs. destruct (reportBest_fields
                           (leafResult (assignmentsOf selected secs)
                              (assignmentSessions allSessions selected secs))) as [-> ->].
  cbn [leafResult CombinationResult.schedule CombinationResult.assignments].
  split; [exact Hvalid|]. split; [reflexivity|].
  unfold validAssignment in Hvalid.
  pose proof (fst_combine_Forall2 _ _ _ Hvalid) as Hfst.
  split.
  - eapply Forall2_combine; [exact Hvalid|].
    intros c sec Hin. unfold assignmentsOf.
    apply get_fold_set_in; [now rewrite Hfst | exact Hin].
  - intros c Hc. unfold assignmentsOf.
    rewrite get_fold_set_notin by (now rewrite Hfst). reflexivity.
Qed.

Lemma findOptimalSchedule_assignments_witness :
  let r := findOptimalSchedule sampleSessions ["DS"; "OOP"] JsObject.empty in
  exists secs,
    validAssignment sampleSessions JsObject.empty ["DS"; "OOP"] secs
    /\ schedule r
       = filterValidSessions (assignmentSessions sampleSessions ["DS"; "OOP"] secs)
    /\ Forall2 (fun c sec => JsObject.get c (assignments r) = Some sec) ["DS"; "OOP"] secs
    /\ forall c, ~ In c ["DS"; "OOP"] -> JsObject.get c (assignments r) = None.
Proof.
  apply (findOptimalSchedule_assignments sampleSessions ["DS"; "OOP"] JsObject.empty).
  - repeat constructor; cbn; intuition discriminate.
  - intros c [<-|[<-|[]]].
    + exists "A". split; [|cbn; tauto].
      exists (sampleSession "DS" "A" "Monday" "09:00-10:45"). cbn. auto.
    + exists "B". split; [|cbn; tauto].
      exists (sampleSession "OOP" "B" "Tuesday" "10:00-11:00"). cbn. auto.
Defined.

(** With no course selected the search succeeds at once, whatever the sessions
    and the exclusions: an empty schedule without clash or gap. *)
Theorem findOptimalSchedule_no_course
    (allSessions : list TimetableSession) (excluded : JsObject.t (list string)) :
  findOptimalSchedule allSessions [] excluded
  = mkResult true [] JsObject.empty []
      "Found a clash-free schedule! No gaps between classes!".
Proof. unfold findOptimalSchedule. rewrite groupBySection_none. reflexivity. Qed.

(* ===================================================================== *)
(** * Properties of the other time-parser utilities *)
(* ===================================================================== *)

Section Formatting.

Lemma roundTrips_day : forallb roundTripsAt (seq 0 1440) = true.
Proof. vm_compute. reflexivity. Qed.

End Formatting.

(** A time of day written by [formatMinutesToTime] is read back by
    [parseTimeSlot] as the same minute, with the default length of 50 minutes
    for the end. *)
Theorem format_parse_round_trip (minutes : Z) :
  0 <= minutes < 1440 ->
  parseTimeSlot (formatMinutesToTime minutes) = mkRange minutes (minutes + 50).
Proof.
  intros Hm.
  pose proof (proj1 (forallb_forall roundTripsAt (seq 0 1440)) roundTrips_day
                (Z.to_nat minutes)) as H.
  unfold roundTripsAt in H. rewrite Z2Nat.id in H by lia.
  assert (Hin : In (Z.to_nat minutes) (seq 0 1440)) by (apply in_seq; lia).
  apply H in Hin. apply andb_true_iff in Hin as [Hs He].
  apply Z.eqb_eq in Hs, He.
  destruct (parseTimeSlot (formatMinutesToTime minutes)) as [s e].
  cbn [start end_] in Hs, He. now subst.
Qed.

Lemma format_parse_round_trip_witness :
  parseTimeSlot (formatMinutesToTime 615) = mkRange 615 (615 + 50).
Proof. apply (format_parse_round_trip 615). lia. Defined.

(** Every parse is the sentinel pair or a pair of times within bounds: a start
    from 0 to 6759 and an end from 0 to 6809. *)
Theorem parseTimeSlot_bounds (timeSlot : string) :
  parseTimeSlot timeSlot = UNKNOWN
  \/ (0 <= start (parseTimeSlot timeSlot) <= 6759
      /\ 0 <= end_ (parseTimeSlot timeSlot) <= 6809).
Proof. apply parseTimeSlot_shape. Qed.

Section Batches.

Lemma startsWith_refl s : startsWith s s = true.
Proof.
  induction s as [|c s IH]; [reflexivity|].
  cbn [startsWith]. now rewrite Ascii.eqb_refl.
Qed.








End Batches.


Section Departments.

Lemma append_cons c a b : (String c a ++ b)%string = String c (a ++ b)%string.
Proof. reflexivity. Qed.

Lemma append_nil b : (EmptyString ++ b)%string = b.
Proof. reflexivity. Qed.

Lemma includes_dash_cons c s :
  includes "-" (String c s) = Ascii.eqb "-" c || includes "-" s.
Proof. cbn [includes startsWith]. now rewrite andb_true_r. Qed.

Lemma splitOn_fields a b :
  includes "-" a = false ->
  splitOn "-" (a ++ "-" ++ b)%string = a :: splitOn "-" b.
Proof.
  induction a as [|c a IH]; intros Ha.
  - rewrite append_nil, append_cons, append_nil. cbn [splitOn].
    now rewrite Ascii.eqb_refl.
  - rewrite includes_dash_cons in Ha. apply orb_false_iff in Ha as [Hc Ha].
    rewrite append_cons. cbn [splitOn]. rewrite Ascii.eqb_sym, Hc, IH by assumption.
    reflexivity.
Qed.

Lemma splitOn_single d : includes "-" d = false -> splitOn "-" d = [d].
Proof.
  induction d as [|c d IH]; intros Hd; [reflexivity|].
  rewrite includes_dash_cons in Hd. apply orb_false_iff in Hd as [Hc Hd].
  cbn [splitOn]. rewrite Ascii.eqb_sym, Hc, IH by assumption. reflexivity.
Qed.

Lemma includes_dash_app a b : includes "-" (a ++ "-" ++ b)%string = true.
Proof.
  induction a as [|c a IH].
  - rewrite append_nil, append_cons, includes_dash_cons. reflexivity.
  - rewrite append_cons, includes_dash_cons, IH. apply orb_true_r.
Qed.

Lemma dash_app_nonempty a b : String.eqb (a ++ "-" ++ b)%string EmptyString = false.
Proof. destruct a; reflexivity. Qed.

Lemma extractDepartment_second a b :
  includes "-" a = false ->
  extractDepartmentFromBatch (a ++ "-" ++ b)%string
  = nth 0 (splitOn "-" b) EmptyString.
Proof.
  intros Ha. unfold extractDepartmentFromBatch.
  rewrite dash_app_nonempty, includes_dash_app, splitOn_fields by assumption.
  destruct (splitOn "-" b) as [|f fs] eqn:E.
  - destruct b as [|c b]; [discriminate|]. cbn [splitOn] in E.
    destruct (Ascii.eqb c "-"); [discriminate|].
    destruct (splitOn "-" b); discriminate.
  - reflexivity.
Qed.

Lemma upperRun_upper s : allChars isUpper (upperRun s).1 = true.
Proof.
  induction s as [|c s IH]; [reflexivity|]. cbn [upperRun].
  destruct (isUpper c) eqn:E; [|reflexivity].
  destruct (upperRun s) as [run rest]. cbn [fst allChars] in *. now rewrite E, IH.
Qed.

Lemma matchUpperTokenAt_token prevWord s tok :
  matchUpperTokenAt prevWord s = Some tok -> upperToken tok.
Proof.
  unfold matchUpperTokenAt, upperToken. pose proof (upperRun_upper s) as Hu.
  destruct (upperRun s) as [run rest]. cbn [fst] in Hu.
  destruct (negb prevWord && (2 <=? String.length run)%nat
            && (String.length run <=? 4)%nat
            && match rest with
               | EmptyString => true
               | String c _ => negb (isWordChar c)
               end) eqn:E; [|discriminate].
  intros [= <-]. do 3 (apply andb_true_iff in E as [E ?]).
  split; [exact Hu|]. split; [now apply Nat.leb_le | now apply Nat.leb_le].
Qed.

Lemma scanUpperTokens_tokens s : forall prevWord skip,
  List.Forall upperToken (scanUpperTokens prevWord skip s).
Proof.
  induction s as [|c s IH]; intros prevWord skip; cbn [scanUpperTokens]; [constructor|].
  destruct skip as [|k]; [|apply IH].
  destruct (matchUpperTokenAt prevWord (String c s)) as [tok|] eqn:E; [|apply IH].
  constructor; [eapply matchUpperTokenAt_token; eauto | apply IH].
Qed.

End Departments.

(** In a batch label written with dashes, the department is the text between
    the first dash and the second (or the end): ["BS-CS-1"] gives ["CS"]. *)
Theorem extractDepartmentFromBatch_dashed (a d rest : string) :
  includes "-" a = false ->
  includes "-" d = false ->
  extractDepartmentFromBatch (a ++ "-" ++ d ++ "-" ++ rest)%string = d
  /\ extractDepartmentFromBatch (a ++ "-" ++ d)%string = d.
Proof.
  intros Ha Hd. rewrite !extractDepartment_second by assumption. split.
  - now rewrite splitOn_fields.
  - now rewrite splitOn_single.
Qed.

Lemma extractDepartmentFromBatch_dashed_witness :
  extractDepartmentFromBatch ("BS" ++ "-" ++ "CS" ++ "-" ++ "1")%string = "CS"
  /\ extractDepartmentFromBatch ("BS" ++ "-" ++ "CS")%string = "CS".
Proof. apply (extractDepartmentFromBatch_dashed "BS" "CS" "1"); reflexivity. Defined.

(** In a batch label without dash, the department is empty or a word of two to
    four capital letters other than ["BS"]. *)
Theorem extractDepartmentFromBatch_token (batch : string) :
  includes "-" batch = false ->
  extractDepartmentFromBatch batch = EmptyString
  \/ (extractDepartmentFromBatch batch <> "BS"
      /\ allChars isUpper (extractDepartmentFromBatch batch) = true
      /\ (2 <= String.length (extractDepartmentFromBatch batch) <= 4)%nat).
Proof.
  intros Hb. unfold extractDepartmentFromBatch. rewrite Hb.
  destruct (String.eqb batch EmptyString); [now left|].
  destruct (List.find (fun t => negb (String.eqb t "BS")) (scanUpperTokens false 0 batch))
    as [t|] eqn:E; cbv beta iota; [right | now left].
  apply find_some in E as [Hin Hne].
  pose proof (scanUpperTokens_tokens batch false 0%nat) as Hall.
  rewrite List.Forall_forall in Hall. destruct (Hall t Hin) as [Hu Hlen].
  split; [|split; assumption].
  apply negb_true_iff in Hne. now apply String.eqb_neq.
Qed.

Lemma extractDepartmentFromBatch_token_witness :
  extractDepartmentFromBatch "BS CS (2023)" = EmptyString
  \/ (extractDepartmentFromBatch "BS CS (2023)" <> "BS"
      /\ allChars isUpper (extractDepartmentFromBatch "BS CS (2023)") = true
      /\ (2 <= String.length (extractDepartmentFromBatch "BS CS (2023)") <= 4)%nat).
Proof. apply (extractDepartmentFromBatch_token "BS CS (2023)"). reflexivity. Defined.

Section Rooms.

Lemma dropWhile_first p s c : firstChar (dropWhile p s) = Some c -> p c = false.
Proof.
  induction s as [|d s IH]; cbn [dropWhile]; [discriminate|].
  destruct (p d) eqn:E; [exact IH|]. cbn. now intros [= <-].
Qed.

Lemma dropWhileEnd_last p s c : lastChar (dropWhileEnd p s) = Some c -> p c = false.
Proof.
  induction s as [|d s IH]; cbn [dropWhileEnd]; [discriminate|].
  destruct (dropWhileEnd p s) as [|e kept] eqn:E.
  - destruct (p d) eqn:Ed; [discriminate|]. cbn. now intros [= <-].
  - cbn [lastChar]. exact IH.
Qed.

Lemma dropWhileEnd_first p s c :
  firstChar (dropWhileEnd p s) = Some c -> firstChar s = Some c.
Proof.
  destruct s as [|d s]; cbn [dropWhileEnd]; [discriminate|].
  destruct (dropWhileEnd p s); [destruct (p d)|]; cbn; congruence.
Qed.

Lemma strip_ends p s :
  let r := dropWhileEnd p (dropWhile p s) in
  (forall c, firstChar r = Some c -> p c = false)
  /\ (forall c, lastChar r = Some c -> p c = false).
Proof.
  intros r. split; intros c H.
  - apply dropWhileEnd_first in H. now apply dropWhile_first in H.
  - now apply dropWhileEnd_last in H.
Qed.

End Rooms.

(** [cleanRoomData] never returns an empty text, and its result neither begins
    nor ends with white space or with one of the characters [.,;:]. *)
Theorem cleanRoomData_clean (room : string) :
  cleanRoomData room <> EmptyString
  /\ (forall c, firstChar (cleanRoomData room) = Some c -> isRoomPunctuation c = false)
  /\ (forall c, lastChar (cleanRoomData room) = Some c -> isRoomPunctuation c = false).
Proof.
  assert (Hu : "Unknown" <> EmptyString
               /\ (forall c, firstChar "Unknown" = Some c -> isRoomPunctuation c = false)
               /\ (forall c, lastChar "Unknown" = Some c -> isRoomPunctuation c = false)).
  { split; [discriminate|]. split; cbn; intros c [= <-]; reflexivity. }
  unfold cleanRoomData. destruct (String.eqb room EmptyString); [exact Hu|].
  match goal with
  | |- context [dropWhileEnd isRoomPunctuation (dropWhile isRoomPunctuation ?x)] =>
      generalize x
  end.
  intros x. destruct (strip_ends isRoomPunctuation x) as [Hf Hl]. cbv zeta in Hf, Hl.
  destruct (String.eqb_spec (dropWhileEnd isRoomPunctuation (dropWhile isRoomPunctuation x))
              EmptyString) as [E|E]; [exact Hu|].
  split; [exact E | split; assumption].
Qed.

(* ===================================================================== *)
(** * Properties of the extractor's list of sessions *)
(* ===================================================================== *)

Section SimilarSessions.

Lemma isSimilarSession_iff a b :
  isSimilarSession a b = true
  <-> day a = day b /\ timeSlot a = timeSlot b
      /\ toLowerCase (courseName a) = toLowerCase (courseName b)
      /\ section a = section b.
Proof.
  unfold isSimilarSession. rewrite !andb_true_iff, !String.eqb_eq. tauto.
Qed.

Lemma isSimilarSession_sym a b : isSimilarSession a b = isSimilarSession b a.
Proof.
  apply eq_true_iff_eq. rewrite !isSimilarSession_iff. intuition congruence.
Qed.

Lemma isSimilarSession_trans a b c :
  isSimilarSession a b = true -> isSimilarSession b c = true ->
  isSimilarSession a c = true.
Proof. rewrite !isSimilarSession_iff. intuition congruence. Qed.

Lemma isSimilarSession_refl a : isSimilarSession a a = true.
Proof. now apply isSimilarSession_iff. Qed.

Lemma ForallOrdPairs_snoc {A} (R : A -> A -> Prop) l x :
  ForallOrdPairs R l -> List.Forall (fun y => R y x) l -> ForallOrdPairs R (l ++ [x]).
Proof.
  induction 1 as [|y l Hy Hl IH]; intros Hx; cbn.
  - repeat constructor.
  - apply List.Forall_cons_iff in Hx as [Hyx Hx]. constructor.
    + apply List.Forall_app. split; [exact Hy | now constructor].
    + now apply IH.
Qed.

(** What the loop keeps true of the array and of the sessions met so far. *)
Lemma collect_invariant built : forall kept seen,
  ForallOrdPairs (fun a b => isSimilarSession a b = false) kept ->
  (forall k, In k kept -> In k seen) ->
  (forall c, In c seen -> exists k, In k kept /\ isSimilarSession k c = true) ->
  let final := fold_left pushUnlessSimilar built kept in
  ForallOrdPairs (fun a b => isSimilarSession a b = false) final
  /\ (forall k, In k final -> In k (seen ++ built))
  /\ (forall c, In c (seen ++ built) ->
        exists k, In k final /\ isSimilarSession k c = true)
  /\ (exists added, final = kept ++ added).
Proof.
  induction built as [|c built IH]; intros kept seen Hpairs Hsub Hcov; cbn [fold_left].
  - cbn zeta. rewrite app_nil_r. repeat split; auto. exists []. now rewrite app_nil_r.
  - replace (seen ++ c :: built) with ((seen ++ [c]) ++ built)
      by now rewrite <- app_assoc.
    cbn zeta.
    assert (Hacc : pushUnlessSimilar kept c
                   = if existsb (fun s => isSimilarSession s c) kept
                     then kept else kept ++ [c]) by reflexivity.
    destruct (existsb (fun s => isSimilarSession s c) kept) eqn:E; rewrite Hacc.
    + destruct (IH kept (seen ++ [c]) Hpairs) as (H1 & H2 & H3 & H4).
      * intros k Hk. apply in_or_app. left. auto.
      * intros x Hx. apply in_app_or in Hx as [Hx | [<- | []]]; [auto|].
        apply existsb_exists in E as (k & Hk & Hs). eauto.
      * repeat split; assumption.
    + assert (Hnone : List.Forall (fun y => isSimilarSession y c = false) kept).
      { apply List.Forall_forall. intros y Hy.
        destruct (isSimilarSession y c) eqn:Hs; [|reflexivity].
        assert (existsb (fun s => isSimilarSession s c) kept = true)
          by (apply existsb_exists; eauto).
        congruence. }
      destruct (IH (kept ++ [c]) (seen ++ [c])) as (H1 & H2 & H3 & added & H4).
      * now apply ForallOrdPairs_snoc.
      * intros k Hk. apply in_app_or in Hk as [Hk | Hk]; apply in_or_app; auto.
      * intros x Hx. apply in_app_or in Hx as [Hx | [<- | []]].
        -- destruct (Hcov x Hx) as (k & Hk & Hs). exists k. split; [|exact Hs].
           apply in_or_app. now left.
        -- exists c. split; [apply in_or_app; right; now left|].
           apply isSimilarSession_refl.
      * repeat split; auto. exists (c :: added). now rewrite H4, <- app_assoc.
Qed.

End SimilarSessions.

(** The array of collected sessions holds no two similar sessions (same day,
    same time text, same course name up to case, same section); every session
    it holds was built by the loop, and every session the loop built is
    similar to one it holds. *)
Theorem collectSessions_distinct (built : list TimetableSession) :
  ForallOrdPairs (fun a b => isSimilarSession a b = false) (collectSessions built)
  /\ (forall k, In k (collectSessions built) -> In k built)
  /\ (forall c, In c built ->
        exists k, In k (collectSessions built) /\ isSimilarSession k c = true).
Proof.
  destruct (collect_invariant built [] []) as (H1 & H2 & H3 & _).
  - constructor.
  - intros k [].
  - intros c [].
  - repeat split; assumption.
Qed.

Section SessionSort.

Lemma compareSessions_order a b : compareSessions a b <= 0 <-> sessionOrder a b.
Proof.
  unfold compareSessions, sessionOrder.
  destruct (indexOf (day a) dayOrder - indexOf (day b) dayOrder =? 0) eqn:E; cbn [negb]; lia.
Qed.

Lemma sessionOrder_trans a b c : sessionOrder a b -> sessionOrder b c -> sessionOrder a c.
Proof. unfold sessionOrder. lia. Qed.

Lemma sessionOrder_total a b : ~ sessionOrder a b -> sessionOrder b a.
Proof. unfold sessionOrder. lia. Qed.

Lemma insertSession_perm x l : Permutation (x :: l) (insertSession x l).
Proof.
  induction l as [|y l IH]; cbn [insertSession]; [reflexivity|].
  destruct (compareSessions x y <=? 0); [reflexivity|].
  rewrite perm_swap. now constructor.
Qed.

Lemma insertSession_sorted x l :
  StronglySorted sessionOrder l -> StronglySorted sessionOrder (insertSession x l).
Proof.
  induction 1 as [|y l Hl IH Hy]; cbn [insertSession]; [repeat constructor|].
  destruct (compareSessions x y <=? 0) eqn:E.
  - apply Z.leb_le, compareSessions_order in E.
    constructor; [now constructor|].
    constructor; [exact E|].
    eapply List.Forall_impl; [|exact Hy]. intros z Hz.
    eapply sessionOrder_trans; eassumption.
  - assert (Hyx : sessionOrder y x).
    { apply sessionOrder_total. rewrite <- compareSessions_order. lia. }
    constructor; [exact IH|].
    eapply Permutation_Forall; [apply insertSession_perm|].
    now constructor.
Qed.

Lemma insertSession_key dayIndex startAt x l :
  List.filter (sameSortKey dayIndex startAt) (insertSession x l)
  = List.filter (sameSortKey dayIndex startAt) (x :: l).
Proof.
  induction l as [|y l IH]; cbn [insertSession]; [reflexivity|].
  destruct (compareSessions x y <=? 0) eqn:E; [reflexivity|].
  cbn [List.filter] in *. rewrite IH.
  destruct (sameSortKey dayIndex startAt x) eqn:Kx; [|reflexivity].
  destruct (sameSortKey dayIndex startAt y) eqn:Ky; [|reflexivity].
  exfalso. unfold sameSortKey in *.
  apply andb_true_iff in Kx as [Kx1 Kx2]. apply andb_true_iff in Ky as [Ky1 Ky2].
  apply Z.leb_gt in E. unfold compareSessions in E.
  replace (indexOf (day x) dayOrder - indexOf (day y) dayOrder =? 0) with true in E by lia.
  cbn [negb] in E. lia.
Qed.

End SessionSort.

(** The final sort of [getTimetableForCourses] rearranges the sessions into
    the order of the days of the week and, within a day, of the starts;
    sessions with the same day and start keep the order they had. *)
Theorem sortSessions_sorted (l : list TimetableSession) :
  Permutation l (sortSessions l)
  /\ StronglySorted sessionOrder (sortSessions l)
  /\ (forall dayIndex startAt,
        List.filter (sameSortKey dayIndex startAt) (sortSessions l)
        = List.filter (sameSortKey dayIndex startAt) l).
Proof.
  induction l as [|x l (IH1 & IH2 & IH3)]; cbn [sortSessions fold_right].
  - repeat split; constructor.
  - fold (sortSessions l). split; [|split].
    + rewrite <- insertSession_perm. now constructor.
    + now apply insertSession_sorted.
    + intros d t. rewrite insertSession_key. cbn [List.filter]. now rewrite IH3.
Qed.

(* ===================================================================== *)
(** * Properties of the section lists of the reply *)
(* ===================================================================== *)

Section SectionLists.

Lemma uniqueFrom_In l : forall seen x,
  In x (uniqueFrom seen l) <-> In x l /\ x ∉ seen.
Proof.
  induction l as [|y l IH]; intros seen x; cbn [uniqueFrom In]; [tauto|].
  destruct (decide (y ∈ seen)) as [Hy|Hy].
  - rewrite IH. split; [tauto|]. intros [[<- | H] Hn]; tauto.
  - cbn [In]. rewrite IH. rewrite elem_of_union, elem_of_singleton.
    destruct (decide (x = y)) as [->|Hxy]; [tauto|].
    split; [intros [H|H]; [congruence | tauto] | intros [[H|H] Hn]; [congruence|]].
    right. split; [exact H|]. intros [H'|H']; tauto.
Qed.

Lemma uniqueFrom_NoDup l : forall seen, List.NoDup (uniqueFrom seen l).
Proof.
  induction l as [|y l IH]; intros seen; cbn [uniqueFrom]; [constructor|].
  destruct (decide (y ∈ seen)); [apply IH|].
  constructor; [|apply IH].
  rewrite uniqueFrom_In. intros [_ H]. apply H. set_solver.
Qed.

Lemma insertString_perm x l : Permutation (x :: l) (insertString x l).
Proof.
  induction l as [|y l IH]; cbn [insertString]; [reflexivity|].
  destruct (String.leb x y); [reflexivity|].
  rewrite perm_swap. now constructor.
Qed.

Lemma sortStrings_perm l : Permutation l (sortStrings l).
Proof.
  induction l as [|x l IH]; cbn [sortStrings fold_right]; [constructor|].
  fold (sortStrings l). rewrite <- insertString_perm. now constructor.
Qed.

Lemma insertString_sorted x l :
  StronglySorted (fun a b => String.leb a b = true) l ->
  StronglySorted (fun a b => String.leb a b = true) (insertString x l).
Proof.
  induction 1 as [|y l Hl IH Hy]; cbn [insertString]; [repeat constructor|].
  destruct (String.leb x y) eqn:E.
  - constructor; [now constructor|].
    constructor; [exact E|].
    eapply List.Forall_impl; [|exact Hy]. intros z Hz.
    eapply string_leb_trans; eassumption.
  - apply string_leb_false in E.
    constructor; [exact IH|].
    eapply Permutation_Forall; [apply insertString_perm|].
    now constructor.
Qed.

Lemma sortStrings_sorted l :
  StronglySorted (fun a b => String.leb a b = true) (sortStrings l).
Proof.
  induction l as [|x l IH]; cbn [sortStrings fold_right]; [constructor|].
  now apply insertString_sorted.
Qed.

Lemma sorted_strict l :
  StronglySorted (fun a b => String.leb a b = true) l -> List.NoDup l ->
  StronglySorted strictlyBefore l.
Proof.
  induction 1 as [|x l Hl IH Hx]; intros Hnd; [constructor|].
  apply List.NoDup_cons_iff in Hnd as [Hnx Hnd].
  constructor; [now apply IH|].
  apply List.Forall_forall. intros y Hy. split.
  - exact (proj1 (List.Forall_forall _ _) Hx y Hy).
  - intros ->. contradiction.
Qed.

End SectionLists.

(** The section list the reply gives for a course holds exactly the sections
    of that course's sessions, each once and in ascending order; every
    section the optimiser can choose for a selected course is in it. *)
Theorem routeSections_spec (allSessions : list TimetableSession) (name : string) :
  (forall sec,
      In sec (routeSections allSessions name)
      <-> exists s, In s allSessions /\ courseName s = name /\ section s = sec)
  /\ StronglySorted strictlyBefore (routeSections allSessions name)
  /\ (forall selectedCourseNames excludedAssignments sec,
        In name selectedCourseNames ->
        In sec (availableSectionsOf (groupBySection allSessions selectedCourseNames)
                  excludedAssignments name) ->
        In sec (routeSections allSessions name)).
Proof.
  assert (Hin : forall sec,
      In sec (routeSections allSessions name)
      <-> exists s, In s allSessions /\ courseName s = name /\ section s = sec).
  { intros sec. unfold routeSections.
    split.
    - intros H. apply (Permutation_in _ (Permutation_sym (sortStrings_perm _))) in H.
      apply uniqueFrom_In in H as [H _].
      apply in_map_iff in H as (s & Hs & H).
      apply filter_In in H as [H Hn]. apply String.eqb_eq in Hn. eauto.
    - intros (s & Hs & Hn & Hsec).
      apply (Permutation_in _ (sortStrings_perm _)).
      apply uniqueFrom_In. split; [|set_solver].
      apply in_map_iff. exists s. split; [exact Hsec|].
      apply filter_In. split; [exact Hs | now apply String.eqb_eq]. }
  split; [exact Hin | split].
  - apply sorted_strict; [apply sortStrings_sorted|].
    eapply Permutation_NoDup; [apply sortStrings_perm | apply uniqueFrom_NoDup].
  - intros selected excluded sec Hsel H.
    apply (availableSectionsOf_spec selected allSessions excluded name sec Hsel) in H.
    apply Hin. exact (proj1 H).
Qed.

Lemma routeSections_spec_witness :
  In "A" (routeSections sampleSessions "OOP").
Proof.
  apply (proj2 (proj2 (routeSections_spec sampleSessions "OOP"))
           ["DS"; "OOP"] JsObject.empty "A").
  - cbn. tauto.
  - vm_compute. tauto.
Defined.

(* ===================================================================== *)
(** * Properties of the time embedded in a cell *)
(* ===================================================================== *)

Section EmbeddedTimes.

Lemma substring_split s : forall n, (substringTo n s ++ substringFrom n s)%string = s.
Proof.
  induction s as [|c s IH]; intros [|n]; cbn [substringTo substringFrom];
    rewrite ?append_nil, ?append_cons; try reflexivity.
  now rewrite IH.
Qed.

Lemma matchTimeAt_prefix s h m len n :
  matchTimeAt s = Some (h, m, len) -> (len <= n)%nat ->
  matchTimeAt (substringTo n s) = Some (h, m, len).
Proof.
  intros H Hn.
  destruct s as [|h1 [|h2 [|c [|m1 [|m2 r]]]]]; try discriminate.
  - assert (substringTo n (String h1 (String h2 (String c (String m1 EmptyString))))
            = String h1 (String h2 (String c (String m1 EmptyString)))) as ->; [|exact H].
    cbn in H. destruct (_ && _) in H; [|discriminate]. injection H as _ _ <-.
    destruct n as [|[|[|[|n]]]]; try lia. destruct n; reflexivity.
  - cbn in H.
    destruct (isDigit h1 && isDigit h2 && Ascii.eqb c ":" && isDigit m1 && isDigit m2)
      eqn:E1.
    + injection H as <- <- <-.
      destruct n as [|[|[|[|[|n]]]]]; try lia.
      cbn [substringTo]. cbn [matchTimeAt]. 
      destruct (substringTo n r); cbn; rewrite E1; reflexivity.
    + destruct (isDigit h1 && Ascii.eqb h2 ":" && isDigit c && isDigit m1) eqn:E2;
        [|discriminate].
      injection H as <- <- <-.
      destruct n as [|[|[|[|n]]]]; try lia.
      destruct n as [|n]; cbn [substringTo].
      * cbn. now rewrite E2.
      * destruct (substringTo n r); cbn; rewrite E1, E2; reflexivity.
Qed.

Lemma matchEmbeddedAt_time prevWord s n :
  matchEmbeddedAt prevWord s = Some n ->
  exists h m len, matchTimeAt s = Some (h, m, len) /\ (len <= n)%nat.
Proof.
  unfold matchEmbeddedAt. destruct prevWord; [discriminate|].
  destruct (matchTimeAt s) as [[[h m] len]|]; [|discriminate].
  intros H. exists h, m, len. split; [reflexivity|].
  destruct (substringFrom len s) as [|c rest'] eqn:Er.
  - destruct (boundaryAfterDigit EmptyString); [|discriminate].
    injection H as <-. lia.
  - destruct (Ascii.eqb c "-").
    + destruct (matchTimeAt rest') as [[[h' m'] len2]|].
      * destruct (boundaryAfterDigit (substringFrom len2 rest')).
        -- injection H as <-. lia.
        -- destruct (boundaryAfterDigit (String c rest')); [|discriminate].
           injection H as <-. lia.
      * destruct (boundaryAfterDigit (String c rest')); [|discriminate].
        injection H as <-. lia.
    + destruct (boundaryAfterDigit (String c rest')); [|discriminate].
      injection H as <-. lia.
Qed.

Lemma findEmbedded_found s : forall prevWord before matched after,
  findEmbedded prevWord s = Some (before, matched, after) ->
  s = (before ++ matched ++ after)%string
  /\ exists h m len, matchTimeAt matched = Some (h, m, len).
Proof.
  induction s as [|c s IH]; intros prevWord before matched after; cbn [findEmbedded];
    [discriminate|].
  destruct (matchEmbeddedAt prevWord (String c s)) as [n|] eqn:E.
  - intros [= <- <- <-]. split.
    + now rewrite append_nil, substring_split.
    + apply matchEmbeddedAt_time in E as (h & m & len & Ht & Hn).
      exists h, m, len. now apply matchTimeAt_prefix.
  - destruct (findEmbedded (isWordChar c) s) as [[[b m] a]|] eqn:F; [|discriminate].
    intros [= <- <- <-]. destruct (IH _ _ _ _ F) as [-> Hm].
    split; [now rewrite append_cons | exact Hm].
Qed.

Lemma matched_time_parses matched h m len :
  matchTimeAt matched = Some (h, m, len) ->
  0 <= start (parseTimeSlot matched) <= 6759
  /\ 0 <= end_ (parseTimeSlot matched) <= 6809.
Proof.
  intros H.
  assert (Htok : exists more, matchAllTimes matched = (h, m) :: more).
  { unfold matchAllTimes. destruct matched as [|c rest]; [discriminate|].
    cbn [scanTimes]. rewrite H. eauto. }
  destruct Htok as [more Htok].
  destruct (parseTimeSlot_shape matched) as [Hu | Hb]; [|exact Hb].
  exfalso. rewrite (parseTimeSlot_tokens _ _ _ Htok) in Hu.
  injection Hu as Hs _.
  pose proof (parseTime_range (h, m) matched 0 (matchTimeAt_range _ _ _ _ H)). lia.
Qed.

End EmbeddedTimes.

(** [parseEmbeddedTime] either finds no time, and then returns the entry as it
    is with the time text ["Unknown"], or finds one, and then the time text is
    a piece of the entry that [parseTimeSlot] reads as real times, never as
    the sentinel, and the cleaned name neither begins nor ends with white
    space. *)
Theorem parseEmbeddedTime_spec (courseEntry : string) :
  let r := parseEmbeddedTime courseEntry in
  (EmbeddedTime.hasEmbeddedTime r = false ->
     EmbeddedTime.timeSlot r = "Unknown" /\ EmbeddedTime.cleanedName r = courseEntry)
  /\ (EmbeddedTime.hasEmbeddedTime r = true ->
      (exists before after,
          courseEntry = (before ++ EmbeddedTime.timeSlot r ++ after)%string)
      /\ 0 <= start (parseTimeSlot (EmbeddedTime.timeSlot r)) <= 6759
      /\ 0 <= end_ (parseTimeSlot (EmbeddedTime.timeSlot r)) <= 6809
      /\ (forall c, firstChar (EmbeddedTime.cleanedName r) = Some c -> isSpace c = false)
      /\ (forall c, lastChar (EmbeddedTime.cleanedName r) = Some c -> isSpace c = false)).
Proof.
  unfold parseEmbeddedTime.
  destruct (String.eqb courseEntry EmptyString); [cbn; split; [auto | discriminate]|].
  destruct (findEmbedded false courseEntry) as [[[before matched] after]|] eqn:F;
    [|cbn; split; [auto | discriminate]].
  cbn [EmbeddedTime.hasEmbeddedTime EmbeddedTime.timeSlot EmbeddedTime.cleanedName].
  split; [discriminate | intros _].
  destruct (findEmbedded_found _ _ _ _ _ F) as [Hs (h & m & len & Ht)].
  split; [eauto|].
  destruct (matched_time_parses _ _ _ _ Ht) as [H1 H2].
  split; [exact H1 | split; [exact H2|]].
  destruct (endsWithChar "-" _); unfold trim; apply strip_ends.
Qed.

Lemma parseEmbeddedTime_spec_witness :
  let r := parseEmbeddedTime "Func Eng (SE) 09:00-10:45" in
  EmbeddedTime.timeSlot r = "09:00-10:45"
  /\ 0 <= start (parseTimeSlot (EmbeddedTime.timeSlot r)) <= 6759.
Proof.
  split; [reflexivity|].
  exact (proj1 (proj2 (proj2 (parseEmbeddedTime_spec "Func Eng (SE) 09:00-10:45")
                         eq_refl))).
Defined.

(** Two sessions as the extractor builds them, with the same time text,
    overlap exactly when that text is read as a start before its end: a text
    without time, or one read with its end first, makes them miss each
    other. *)
Theorem doSessionsOverlap_same_slot (a b : TimetableSession) :
  timeSlot a = timeSlot b ->
  startMinutes a = start (parseTimeSlot (timeSlot a)) ->
  endMinutes a = end_ (parseTimeSlot (timeSlot a)) ->
  startMinutes b = start (parseTimeSlot (timeSlot b)) ->
  endMinutes b = end_ (parseTimeSlot (timeSlot b)) ->
  doSessionsOverlap a b = true
  <-> parseTimeSlot (timeSlot a) <> UNKNOWN
      /\ start (parseTimeSlot (timeSlot a)) < end_ (parseTimeSlot (timeSlot a)).
Proof.
  intros Hs Ha1 Ha2 Hb1 Hb2. unfold doSessionsOverlap, doTimeSlotsOverlap.
  rewrite Ha1, Ha2, Hb1, Hb2, <- Hs.
  destruct (parseTimeSlot_shape (timeSlot a)) as [Hu | [H1 H2]].
  - rewrite Hu. cbn. split; [discriminate | intros [H _]; now elim H].
  - replace (start (parseTimeSlot (timeSlot a)) =? 9999) with false by lia.
    cbn [negb andb]. rewrite negb_true_iff, orb_false_iff, !Z.leb_gt.
    split.
    + intros [H _]. split; [|exact H]. intros Hu. rewrite Hu in H1. cbn in H1. lia.
    + intros [_ H]. now split.
Qed.

Lemma doSessionsOverlap_same_slot_witness :
  doSessionsOverlap (sampleSession "DS" "A" "Monday" "09:00-10:45")
                    (sampleSession "OOP" "B" "Monday" "09:00-10:45") = true
  <-> parseTimeSlot "09:00-10:45" <> UNKNOWN
      /\ start (parseTimeSlot "09:00-10:45") < end_ (parseTimeSlot "09:00-10:45").
Proof.
  apply (doSessionsOverlap_same_slot
           (sampleSession "DS" "A" "Monday" "09:00-10:45")
           (sampleSession "OOP" "B" "Monday" "09:00-10:45")); reflexivity.
Defined.
